(** * Control-rate scheduling engine of the additive synthesizer

    A shallow embedding of the classes of [newmultisincontrol]:
      - [EventTimestampTracker], [SineEventScheduler] and [PhaseAccumulator]
        of [js-lib];
      - [AdditiveSynthProcessor] of [simple-additive-01/processor.js];
      - the MIDI functions of [simple-additive-01/main.js] and the
        [TextEncoder] / [TextDecoder] polyfill of [textencoder.js];
    together with the properties the specification states about them and
    further properties of the code.

    Conventions of the embedding.
      - Sample positions are integers ([Z]); every other JavaScript number is
        a real ([R]): the rounding of IEEE doubles and of [Float32Array]
        cells is not modelled, nor are NaN and the infinities as stored
        values.
      - A method that may assign to [this] maps the receiver to a pair of a
        result and the receiver afterwards.
      - A typed array is a list of fixed length; a store outside its bounds
        is ignored, as it is by [Float32Array]. *)

From Stdlib Require Import ZArith List Lia Reals Lra String Bool.
From stdpp Require Import base list gmap strings.
Import ListNotations.

(* ===================================================================== *)
(** * EventTimestampTracker *)
(* ===================================================================== *)

Module Tracker.

Local Open Scope Z_scope.

(** [this.lastSample] is [null] until a first event was generated. *)
Record t : Type := mk { lastSample : option Z; interval : Z }.

#[global] Instance t_eq_dec : EqDecision t.
Proof. solve_decision. Defined.

(** [constructor(eventInterval = 128)] *)
Definition new (eventInterval : option Z) : t :=
  mk None (default 128 eventInterval).

Definition setInterval (i : Z) (tr : t) : t := mk (lastSample tr) i.
Definition getInterval (tr : t) : Z := interval tr.
Definition reset (tr : t) : t := mk None (interval tr).
Definition getLastSample (tr : t) : option Z := lastSample tr.

(** The generator object returned by [generateSamples]: not yet entered,
    suspended at [yield sample], or finished.  The locals [sample] and
    [lastGenerated] live in the suspended generator; [this.lastSample] and
    [this.interval] are read from the tracker each time the body runs. *)
Inductive gen : Type :=
| GStart (blockStart targetSample : Z)
| GYield (sample : Z) (lastGenerated : option Z) (targetSample : Z)
| GDone.

(** The test of the [while] loop, and what follows when it fails: the
    write-back of the cursor. *)
Definition loop_test (sample : Z) (lastGenerated : option Z)
           (targetSample : Z) (tr : t) : t * gen * option Z :=
  if sample <=? targetSample
  then (tr, GYield sample lastGenerated targetSample, Some sample)
  else ((if decide (lastGenerated = lastSample tr) then tr
         else mk lastGenerated (interval tr)),
        GDone, None).

(** One call of the generator's [next()]: the tracker afterwards, the
    generator afterwards, and the value yielded ([None] when done). *)
Definition next (g : gen) (tr : t) : t * gen * option Z :=
  match g with
  | GStart blockStart targetSample =>
      let sample := match lastSample tr with
                    | None => blockStart
                    | Some l => l + interval tr
                    end in
      loop_test sample (lastSample tr) targetSample tr
  | GYield sample _ targetSample =>
      loop_test (sample + interval tr) (Some sample) targetSample tr
  | GDone => (tr, GDone, None)
  end.

(** Consuming a generator to its end, as the spread in [getSamples] does.
    The loop need not end (a non-positive interval), hence the fuel. *)
Fixpoint drain (fuel : nat) (g : gen) (tr : t) : option (list Z * t) :=
  match fuel with
  | O => None
  | S fuel' =>
      match next g tr with
      | (tr', g', Some v) =>
          match drain fuel' g' tr' with
          | Some (l, tr'') => Some (v :: l, tr'')
          | None => None
          end
      | (tr', _, None) => Some ([], tr')
      end
  end.

(** [countEvents(blockStart, targetSample)]; it assigns nothing. *)
Definition countEvents (blockStart targetSample : Z) (tr : t) : Z * t :=
  let startSample := match lastSample tr with
                     | None => blockStart
                     | Some l => l + interval tr
                     end in
  if startSample >? targetSample then (0, tr)
  else ((targetSample - startSample) / interval tr + 1, tr).

(** [getSamples(blockStart, targetSample)]: the generator of
    [generateSamples] consumed to its end.  One [next()] per event and one
    to finish. *)
Definition getSamples (blockStart targetSample : Z) (tr : t)
  : option (list Z * t) :=
  drain (S (Z.to_nat (fst (countEvents blockStart targetSample tr))))
        (GStart blockStart targetSample) tr.


(** ** Closed form of the produced sequence *)

Fixpoint ticks (start step : Z) (n : nat) : list Z :=
  match n with
  | O => []
  | S n' => start :: ticks (start + step) step n'
  end.

Definition count (start targetSample step : Z) : nat :=
  if start >? targetSample then O
  else Z.to_nat ((targetSample - start) / step + 1).

Definition cursor_after (start step : Z) (n : nat) (lg : option Z) : option Z :=
  match n with
  | O => lg
  | S n' => Some (start + Z.of_nat n' * step)
  end.

Definition start_of (blockStart : Z) (tr : t) : Z :=
  match lastSample tr with
  | None => blockStart
  | Some l => l + interval tr
  end.

End Tracker.

(* ===================================================================== *)
(** * SineEventScheduler *)
(* ===================================================================== *)

Module Scheduler.

(** Which of the two preallocated buffers a store goes to. *)
Inductive buf : Type := Amp | Freq.

#[global] Instance buf_eq_dec : EqDecision buf.
Proof. solve_decision. Defined.

(** The indexed stores an operation executes, in order: [buffer[i] = v]
    is recorded as [(buffer, i)], whether or not [i] is in bounds. *)
Definition writes : Type := list (buf * nat).

Record t : Type := mk {
  ampBuffer : list R;
  freqBuffer : list R;
  ampOffset : nat;
  freqOffset : nat;
  currentSineId : option R;
  ampCountIdx : nat;
  freqCountIdx : nat;
  currentAmpCount : nat;
  currentFreqCount : nat;
  maxEventsPerSine : nat
}.

Definition bufferSize (maxSines maxEvents : nat) : nat :=
  maxSines * (3 + maxEvents * 2).

(** [constructor(maxSines, maxEventsPerSine = 8)] *)
Definition new (maxSines : nat) (maxEvents : option nat) : t :=
  let cap := default 8%nat maxEvents in
  {| ampBuffer := replicate (bufferSize maxSines cap) 0%R;
     freqBuffer := replicate (bufferSize maxSines cap) 0%R;
     ampOffset := 0; freqOffset := 0;
     currentSineId := None;
     ampCountIdx := 0; freqCountIdx := 0;
     currentAmpCount := 0; currentFreqCount := 0;
     maxEventsPerSine := cap |}.

Definition beginFrame (s : t) : t * writes :=
  ({| ampBuffer := ampBuffer s; freqBuffer := freqBuffer s;
      ampOffset := 0; freqOffset := 0;
      currentSineId := None;
      ampCountIdx := ampCountIdx s; freqCountIdx := freqCountIdx s;
      currentAmpCount := currentAmpCount s;
      currentFreqCount := currentFreqCount s;
      maxEventsPerSine := maxEventsPerSine s |}, []).

(** [beginSine(sineId, override = false)]: the header of both buffers;
    the count cell is skipped, to be filled by [endSine]. *)
Definition beginSine (sineId : R) (override : bool) (s : t) : t * writes :=
  let flag := if override then 1%R else 0%R in
  let a := ampOffset s in
  let f := freqOffset s in
  ({| ampBuffer := <[a + 2 := flag]> (<[a := sineId]> (ampBuffer s));
      freqBuffer := <[f + 2 := flag]> (<[f := sineId]> (freqBuffer s));
      ampOffset := a + 3; freqOffset := f + 3;
      currentSineId := Some sineId;
      ampCountIdx := a + 1; freqCountIdx := f + 1;
      currentAmpCount := 0; currentFreqCount := 0;
      maxEventsPerSine := maxEventsPerSine s |},
   [(Amp, a); (Amp, a + 2); (Freq, f); (Freq, f + 2)]).

Definition addAmplitudeEvent (sample value : R) (s : t) : bool * t * writes :=
  if maxEventsPerSine s <=? currentAmpCount s then (false, s, [])
  else
    let a := ampOffset s in
    (true,
     {| ampBuffer := <[a + 1 := value]> (<[a := sample]> (ampBuffer s));
        freqBuffer := freqBuffer s;
        ampOffset := a + 2; freqOffset := freqOffset s;
        currentSineId := currentSineId s;
        ampCountIdx := ampCountIdx s; freqCountIdx := freqCountIdx s;
        currentAmpCount := currentAmpCount s + 1;
        currentFreqCount := currentFreqCount s;
        maxEventsPerSine := maxEventsPerSine s |},
     [(Amp, a); (Amp, a + 1)]).

Definition addFrequencyEvent (sample freqHz : R) (s : t) : bool * t * writes :=
  if maxEventsPerSine s <=? currentFreqCount s then (false, s, [])
  else
    let f := freqOffset s in
    (true,
     {| ampBuffer := ampBuffer s;
        freqBuffer := <[f + 1 := freqHz]> (<[f := sample]> (freqBuffer s));
        ampOffset := ampOffset s; freqOffset := f + 2;
        currentSineId := currentSineId s;
        ampCountIdx := ampCountIdx s; freqCountIdx := freqCountIdx s;
        currentAmpCount := currentAmpCount s;
        currentFreqCount := currentFreqCount s + 1;
        maxEventsPerSine := maxEventsPerSine s |},
     [(Freq, f); (Freq, f + 1)]).

Definition endSine (s : t) : t * writes :=
  ({| ampBuffer := <[ampCountIdx s := INR (currentAmpCount s)]> (ampBuffer s);
      freqBuffer := <[freqCountIdx s := INR (currentFreqCount s)]> (freqBuffer s);
      ampOffset := ampOffset s; freqOffset := freqOffset s;
      currentSineId := None;
      ampCountIdx := ampCountIdx s; freqCountIdx := freqCountIdx s;
      currentAmpCount := currentAmpCount s;
      currentFreqCount := currentFreqCount s;
      maxEventsPerSine := maxEventsPerSine s |},
   [(Amp, ampCountIdx s); (Freq, freqCountIdx s)]).

(** [subarray(0, offset)]: the written prefix. *)
Definition getAmplitudeBuffer (s : t) : list R := take (ampOffset s) (ampBuffer s).
Definition hasAmplitudeEvents (s : t) : bool := 0 <? ampOffset s.
Definition hasFrequencyEvents (s : t) : bool := 0 <? freqOffset s.

(** Sequences of calls. *)
Inductive op : Type :=
| BeginFrame
| BeginSine (sineId : R) (override : bool)
| AddAmplitudeEvent (sample value : R)
| AddFrequencyEvent (sample freqHz : R)
| EndSine.

Definition step (o : op) (s : t) : t * writes :=
  match o with
  | BeginFrame => beginFrame s
  | BeginSine sineId override => beginSine sineId override s
  | AddAmplitudeEvent sample value =>
      let '(_, s', w) := addAmplitudeEvent sample value s in (s', w)
  | AddFrequencyEvent sample freqHz =>
      let '(_, s', w) := addFrequencyEvent sample freqHz s in (s', w)
  | EndSine => endSine s
  end.

Fixpoint run (ops : list op) (s : t) : t * writes :=
  match ops with
  | [] => (s, [])
  | o :: rest =>
      let '(s1, w1) := step o s in
      let '(s2, w2) := run rest s1 in
      (s2, w1 ++ w2)
  end.

(** The events added inside one section, amplitude and frequency events
    in any order; each call's result is kept with the buffer it went to. *)
Inductive event : Type :=
| AmplitudeEvent (sample value : R)
| FrequencyEvent (sample freqHz : R).

Fixpoint addEvents (evs : list event) (s : t) : list (buf * bool) * t :=
  match evs with
  | [] => ([], s)
  | AmplitudeEvent sample value :: rest =>
      let '(ok, s1, _) := addAmplitudeEvent sample value s in
      let '(oks, s2) := addEvents rest s1 in
      ((Amp, ok) :: oks, s2)
  | FrequencyEvent sample freqHz :: rest =>
      let '(ok, s1, _) := addFrequencyEvent sample freqHz s in
      let '(oks, s2) := addEvents rest s1 in
      ((Freq, ok) :: oks, s2)
  end.

(** The number of amplitude events among [evs]. *)
Fixpoint amplitude_events (evs : list event) : nat :=
  match evs with
  | [] => 0
  | AmplitudeEvent _ _ :: rest => S (amplitude_events rest)
  | FrequencyEvent _ _ :: rest => amplitude_events rest
  end.

Definition is_beginSine (o : op) : bool :=
  match o with BeginSine _ _ => true | _ => false end.

Definition is_beginFrame (o : op) : bool :=
  match o with BeginFrame => true | _ => false end.

(** The number of [beginSine] calls among [ops]. *)
Fixpoint sines_begun (ops : list op) : nat :=
  match ops with
  | [] => 0
  | o :: rest => (if is_beginSine o then 1 else 0) + sines_begun rest
  end.

(** The calls of one frame after its [beginFrame], used as documented:
    no further [beginFrame], and nothing is added or closed before a first
    [beginSine]. *)
Definition frame_body (ops : list op) : bool :=
  forallb (fun o => negb (is_beginFrame o)) ops
  && match ops with
     | [] => true
     | o :: _ => is_beginSine o
     end.

(** The cells of one sine: three of header and two per event. *)
Definition cells (s : t) : nat := 3 + maxEventsPerSine s * 2.

(** Before a [beginSine], [k] sections into the frame. *)
Definition offsets_within (k : nat) (s : t) : Prop :=
  ampOffset s <= k * cells s /\ freqOffset s <= k * cells s.

(** Inside the [k]-th section: the room the cap still allows is reserved. *)
Definition section_inv (k : nat) (s : t) : Prop :=
  currentAmpCount s <= maxEventsPerSine s
  /\ currentFreqCount s <= maxEventsPerSine s
  /\ ampOffset s + 2 * (maxEventsPerSine s - currentAmpCount s) <= k * cells s
  /\ freqOffset s + 2 * (maxEventsPerSine s - currentFreqCount s) <= k * cells s
  /\ ampCountIdx s < ampOffset s
  /\ freqCountIdx s < freqOffset s.

Definition writes_below (bound : nat) (w : writes) : Prop :=
  forall b i, In (b, i) w -> i < bound.

(** The calls the injection makes for one sine: an override header, two
    amplitude events, two frequency events, and the counts. *)
Definition inject_section (sineId t1 a1 t2 a2 f1 f2 : R) (sch : t) : t :=
  let sch := (beginSine sineId true sch).1 in
  let sch := (addAmplitudeEvent t1 a1 sch).1.2 in
  let sch := (addAmplitudeEvent t2 a2 sch).1.2 in
  let sch := (addFrequencyEvent t1 f1 sch).1.2 in
  let sch := (addFrequencyEvent t2 f2 sch).1.2 in
  (endSine sch).1.

End Scheduler.

(* ===================================================================== *)
(** * PhaseAccumulator *)
(* ===================================================================== *)

(** The integer part toward zero, and JavaScript's [%] on numbers: the
    remainder has the sign of the dividend. *)
Definition Rtrunc (x : R) : Z :=
  if Rle_dec 0 x then Int_part x else (- Int_part (- x))%Z.

Definition js_rem (x y : R) : R := (x - y * IZR (Rtrunc (x / y)))%R.

Module PhaseAccumulator.

Local Open Scope R_scope.

Record t : Type := mk { phase : R; rate : R; lastSample : Z }.

(** [constructor(rate = 1.0)] *)
Definition new (r : option R) : t := mk 0 (default 1 r) 0.

Definition setRate (r : R) (p : t) : t := mk (phase p) r (lastSample p).

Definition advance (currentSample : Z) (sampleRate : R) (p : t) : R * t :=
  let delta := (currentSample - lastSample p)%Z in
  let ph := if (0 <? delta)%Z
            then js_rem (phase p + (IZR delta / sampleRate) * rate p) 1
            else phase p in
  (ph, mk ph (rate p) currentSample).

(** [sinAt(sampleOffset, sampleRate, phaseOffset = 0)] *)
Definition sinAt (sampleOffset : Z) (sampleRate : R) (phaseOffset : option R)
           (p : t) : R * t :=
  let futurePhase :=
    js_rem (phase p + (IZR sampleOffset / sampleRate) * rate p
            + default 0 phaseOffset) 1 in
  (sin (2 * PI * futurePhase), p).

Definition getPhase (p : t) : R := phase p.

(** [resetPhase(phase = 0.0)] *)
Definition resetPhase (ph : option R) (p : t) : t :=
  mk (js_rem (default 0 ph) 1) (rate p) (lastSample p).

Inductive op : Type :=
| SetRate (r : R)
| Advance (currentSample : Z) (sampleRate : R)
| SinAt (sampleOffset : Z) (sampleRate : R) (phaseOffset : option R)
| ResetPhase (ph : option R).

Definition step (o : op) (p : t) : t :=
  match o with
  | SetRate r => setRate r p
  | Advance c sr => snd (advance c sr p)
  | SinAt off sr po => snd (sinAt off sr po p)
  | ResetPhase ph => resetPhase ph p
  end.

Definition run (ops : list op) (p : t) : t := fold_left (fun q o => step o q) ops p.

(** A sequence of [sinAt] calls. *)
Definition sinAt_calls (qs : list (Z * R * option R)) : list op :=
  map (fun q => SinAt q.1.1 q.1.2 q.2) qs.

(** The operations whose rate and phase arguments are not negative. *)
Definition nonneg_op (o : op) : Prop :=
  match o with
  | SetRate r => 0 <= r
  | Advance _ sr => 0 < sr
  | SinAt _ _ _ => True
  | ResetPhase ph => 0 <= default 0 ph
  end.

Definition normalized (p : t) : Prop := 0 <= phase p < 1 /\ 0 <= rate p.

End PhaseAccumulator.

(* ===================================================================== *)
(** * AdditiveSynthProcessor *)
(* ===================================================================== *)

(** The payload of a control message: the values the control surface
    posts (numbers from sliders, booleans from toggles) and the values a
    missing payload reads as.  Strings and the infinities are left out. *)
Inductive jsval : Type :=
| JUndefined
| JNull
| JBool (b : bool)
| JNumber (x : R)
| JNaN.

(** [Number(v)]; [None] stands for NaN. *)
Definition js_Number (v : jsval) : option R :=
  match v with
  | JUndefined => None
  | JNull => Some 0%R
  | JBool true => Some 1%R
  | JBool false => Some 0%R
  | JNumber x => Some x
  | JNaN => None
  end.

(** [Boolean(v)] *)
Definition js_Boolean (v : jsval) : bool :=
  match v with
  | JUndefined | JNull | JNaN => false
  | JBool b => b
  | JNumber x => if Req_dec_T x 0 then false else true
  end.

(** [Number(v) || d]: the right operand when the left one is falsy, that
    is when it is NaN or zero. *)
Definition number_or (v : jsval) (d : R) : R :=
  match js_Number v with
  | Some x => if Req_dec_T x 0 then d else x
  | None => d
  end.

(** [Math.floor], [Math.round] (halves go up) and [Math.log2]. *)
Definition Math_floor (x : R) : Z := Int_part x.
Definition Math_round (x : R) : Z := Int_part (x + 0.5).
Definition Math_log2 (x : R) : R := (ln x / ln 2)%R.

(** [arr[i] = v] on a plain array, for [i] up to the length of [arr]: at
    the length the array grows by one.  The loops below assign in index
    order, so no index beyond the length occurs. *)
Definition array_set {A : Type} (i : nat) (v : A) (arr : list A) : list A :=
  if i <? length arr then <[i := v]> arr else arr ++ [v].

Module Processor.

Local Open Scope R_scope.

Definition NUM_PARTIALS : nat := 32.
Definition EVENT_INTERVAL : Z := 128.
Definition MAX_EVENTS_PER_SINE : nat := 8.
Definition KEYBOARD_RAMP_SAMPLES : Z := 8.

(** [this.vowelFormants]: A, E, I, O, U; never assigned after construction. *)
Definition vowelFormants : list (list R) :=
  [ [730; 1090; 2440];
    [660; 1700; 2400];
    [440; 1220; 2600];
    [400; 800; 2600];
    [350; 600; 2700] ].

(** The fields of the processor that the scheduling path reads or writes.
    The visualization caches ([...ValuesViz], [vizUpdateCounter]) are only
    written on that path and are left out.  [fallingHarmonic] holds the
    [pos] of the object of that name.  [randomCalls] counts the calls of
    [Math.random()] so far; it is not a field of the source. *)
Set Primitive Projections.
Record t : Type := mk {
  ready : bool;
  started : bool;
  sineIds : list R;
  baseFreq : R;
  lfoEnabled : bool;
  lfoAmount : R;
  lfoOffset : R;
  lfo : PhaseAccumulator.t;
  randomEnabled : bool;
  randomChangeRate : R;
  randomValues : list R;
  lowpassEnabled : bool;
  lowpassCutoff : R;
  lowpassSlope : R;
  lowpassResonance : R;
  highpassEnabled : bool;
  highpassCutoff : R;
  highpassSlope : R;
  highpassResonance : R;
  combEnabled : bool;
  combSpacing : R;
  combPhase : R;
  pwmEnabled : bool;
  pwmDuty : R;
  wavefolderEnabled : bool;
  wavefolderFold : R;
  wavefolderAsymmetry : R;
  barberPoleEnabled : bool;
  barberPoleDensity : R;
  barberPoleSpeed : R;
  barberPoleQ : R;
  barberPolePhase : R;
  fallingEnabled : bool;
  fallingProbability : R;
  fallingHarmonic : nat;
  fallingLanded : gset nat;
  vowelEnabled : bool;
  vowelMorph : R;
  vowelQ : R;
  keyboardPitchEnabled : bool;
  keyboardPitchRatio : R;
  prevKeyboardPitchRatio : R;
  keyboardGateEnabled : bool;
  keyboardGateOpen : bool;
  prevKeyboardGateOpen : bool;
  needsImmediateEvent : bool;
  scheduler : Scheduler.t;
  lastAmpEventSample : list (option Z);
  lastFreqEventSample : list (option Z);
  randomCalls : nat
}.
Unset Primitive Projections.

(** Assignment to one field of [this]; the other fields are kept. *)
Definition set_ready (v : bool) (s : t) : t :=
  let 'mk _ x1 x2 x3 x4 x5 x6 x7 x8 x9 x10 x11 x12 x13 x14 x15 x16 x17 x18
    x19 x20 x21 x22 x23 x24 x25 x26 x27 x28 x29 x30 x31 x32 x33 x34 x35
    x36 x37 x38 x39 x40 x41 x42 x43 x44 x45 x46 x47 x48 x49 := s in
  mk v x1 x2 x3 x4 x5 x6 x7 x8 x9 x10 x11 x12 x13 x14 x15 x16 x17 x18 x19
    x20 x21 x22 x23 x24 x25 x26 x27 x28 x29 x30 x31 x32 x33 x34 x35 x36
    x37 x38 x39 x40 x41 x42 x43 x44 x45 x46 x47 x48 x49.
Definition set_started (v : bool) (s : t) : t :=
  let 'mk x0 _ x2 x3 x4 x5 x6 x7 x8 x9 x10 x11 x12 x13 x14 x15 x16 x17 x18
    x19 x20 x21 x22 x23 x24 x25 x26 x27 x28 x29 x30 x31 x32 x33 x34 x35
    x36 x37 x38 x39 x40 x41 x42 x43 x44 x45 x46 x47 x48 x49 := s in
  mk x0 v x2 x3 x4 x5 x6 x7 x8 x9 x10 x11 x12 x13 x14 x15 x16 x17 x18 x19
    x20 x21 x22 x23 x24 x25 x26 x27 x28 x29 x30 x31 x32 x33 x34 x35 x36
    x37 x38 x39 x40 x41 x42 x43 x44 x45 x46 x47 x48 x49.
Definition set_sineIds (v : list R) (s : t) : t :=
  let 'mk x0 x1 _ x3 x4 x5 x6 x7 x8 x9 x10 x11 x12 x13 x14 x15 x16 x17 x18
    x19 x20 x21 x22 x23 x24 x25 x26 x27 x28 x29 x30 x31 x32 x33 x34 x35
    x36 x37 x38 x39 x40 x41 x42 x43 x44 x45 x46 x47 x48 x49 := s in
  mk x0 x1 v x3 x4 x5 x6 x7 x8 x9 x10 x11 x12 x13 x14 x15 x16 x17 x18 x19
    x20 x21 x22 x23 x24 x25 x26 x27 x28 x29 x30 x31 x32 x33 x34 x35 x36
    x37 x38 x39 x40 x41 x42 x43 x44 x45 x46 x47 x48 x49.
Definition set_baseFreq (v : R) (s : t) : t :=
  let 'mk x0 x1 x2 _ x4 x5 x6 x7 x8 x9 x10 x11 x12 x13 x14 x15 x16 x17 x18
    x19 x20 x21 x22 x23 x24 x25 x26 x27 x28 x29 x30 x31 x32 x33 x34 x35
    x36 x37 x38 x39 x40 x41 x42 x43 x44 x45 x46 x47 x48 x49 := s in
  mk x0 x1 x2 v x4 x5 x6 x7 x8 x9 x10 x11 x12 x13 x14 x15 x16 x17 x18 x19
    x20 x21 x22 x23 x24 x25 x26 x27 x28 x29 x30 x31 x32 x33 x34 x35 x36
    x37 x38 x39 x40 x41 x42 x43 x44 x45 x46 x47 x48 x49.
Definition set_lfoEnabled (v : bool) (s : t) : t :=
  let 'mk x0 x1 x2 x3 _ x5 x6 x7 x8 x9 x10 x11 x12 x13 x14 x15 x16 x17 x18
    x19 x20 x21 x22 x23 x24 x25 x26 x27 x28 x29 x30 x31 x32 x33 x34 x35
    x36 x37 x38 x39 x40 x41 x42 x43 x44 x45 x46 x47 x48 x49 := s in
  mk x0 x1 x2 x3 v x5 x6 x7 x8 x9 x10 x11 x12 x13 x14 x15 x16 x17 x18 x19
    x20 x21 x22 x23 x24 x25 x26 x27 x28 x29 x30 x31 x32 x33 x34 x35 x36
    x37 x38 x39 x40 x41 x42 x43 x44 x45 x46 x47 x48 x49.
Definition set_lfoAmount (v : R) (s : t) : t :=
  let 'mk x0 x1 x2 x3 x4 _ x6 x7 x8 x9 x10 x11 x12 x13 x14 x15 x16 x17 x18
    x19 x20 x21 x22 x23 x24 x25 x26 x27 x28 x29 x30 x31 x32 x33 x34 x35
    x36 x37 x38 x39 x40 x41 x42 x43 x44 x45 x46 x47 x48 x49 := s in
  mk x0 x1 x2 x3 x4 v x6 x7 x8 x9 x10 x11 x12 x13 x14 x15 x16 x17 x18 x19
    x20 x21 x22 x23 x24 x25 x26 x27 x28 x29 x30 x31 x32 x33 x34 x35 x36
    x37 x38 x39 x40 x41 x42 x43 x44 x45 x46 x47 x48 x49.
Definition set_lfoOffset (v : R) (s : t) : t :=
  let 'mk x0 x1 x2 x3 x4 x5 _ x7 x8 x9 x10 x11 x12 x13 x14 x15 x16 x17 x18
    x19 x20 x21 x22 x23 x24 x25 x26 x27 x28 x29 x30 x31 x32 x33 x34 x35
    x36 x37 x38 x39 x40 x41 x42 x43 x44 x45 x46 x47 x48 x49 := s in
  mk x0 x1 x2 x3 x4 x5 v x7 x8 x9 x10 x11 x12 x13 x14 x15 x16 x17 x18 x19
    x20 x21 x22 x23 x24 x25 x26 x27 x28 x29 x30 x31 x32 x33 x34 x35 x36
    x37 x38 x39 x40 x41 x42 x43 x44 x45 x46 x47 x48 x49.
Definition set_lfo (v : PhaseAccumulator.t) (s : t) : t :=
  let 'mk x0 x1 x2 x3 x4 x5 x6 _ x8 x9 x10 x11 x12 x13 x14 x15 x16 x17 x18
    x19 x20 x21 x22 x23 x24 x25 x26 x27 x28 x29 x30 x31 x32 x33 x34 x35
    x36 x37 x38 x39 x40 x41 x42 x43 x44 x45 x46 x47 x48 x49 := s in
  mk x0 x1 x2 x3 x4 x5 x6 v x8 x9 x10 x11 x12 x13 x14 x15 x16 x17 x18 x19
    x20 x21 x22 x23 x24 x25 x26 x27 x28 x29 x30 x31 x32 x33 x34 x35 x36
    x37 x38 x39 x40 x41 x42 x43 x44 x45 x46 x47 x48 x49.
Definition set_randomEnabled (v : bool) (s : t) : t :=
  let 'mk x0 x1 x2 x3 x4 x5 x6 x7 _ x9 x10 x11 x12 x13 x14 x15 x16 x17 x18
    x19 x20 x21 x22 x23 x24 x25 x26 x27 x28 x29 x30 x31 x32 x33 x34 x35
    x36 x37 x38 x39 x40 x41 x42 x43 x44 x45 x46 x47 x48 x49 := s in
  mk x0 x1 x2 x3 x4 x5 x6 x7 v x9 x10 x11 x12 x13 x14 x15 x16 x17 x18 x19
    x20 x21 x22 x23 x24 x25 x26 x27 x28 x29 x30 x31 x32 x33 x34 x35 x36
    x37 x38 x39 x40 x41 x42 x43 x44 x45 x46 x47 x48 x49.
Definition set_randomChangeRate (v : R) (s : t) : t :=
  let 'mk x0 x1 x2 x3 x4 x5 x6 x7 x8 _ x10 x11 x12 x13 x14 x15 x16 x17 x18
    x19 x20 x21 x22 x23 x24 x25 x26 x27 x28 x29 x30 x31 x32 x33 x34 x35
    x36 x37 x38 x39 x40 x41 x42 x43 x44 x45 x46 x47 x48 x49 := s in
  mk x0 x1 x2 x3 x4 x5 x6 x7 x8 v x10 x11 x12 x13 x14 x15 x16 x17 x18 x19
    x20 x21 x22 x23 x24 x25 x26 x27 x28 x29 x30 x31 x32 x33 x34 x35 x36
    x37 x38 x39 x40 x41 x42 x43 x44 x45 x46 x47 x48 x49.
Definition set_randomValues (v : list R) (s : t) : t :=
  let 'mk x0 x1 x2 x3 x4 x5 x6 x7 x8 x9 _ x11 x12 x13 x14 x15 x16 x17 x18
    x19 x20 x21 x22 x23 x24 x25 x26 x27 x28 x29 x30 x31 x32 x33 x34 x35
    x36 x37 x38 x39 x40 x41 x42 x43 x44 x45 x46 x47 x48 x49 := s in
  mk x0 x1 x2 x3 x4 x5 x6 x7 x8 x9 v x11 x12 x13 x14 x15 x16 x17 x18 x19
    x20 x21 x22 x23 x24 x25 x26 x27 x28 x29 x30 x31 x32 x33 x34 x35 x36
    x37 x38 x39 x40 x41 x42 x43 x44 x45 x46 x47 x48 x49.
Definition set_lowpassEnabled (v : bool) (s : t) : t :=
  let 'mk x0 x1 x2 x3 x4 x5 x6 x7 x8 x9 x10 _ x12 x13 x14 x15 x16 x17 x18
    x19 x20 x21 x22 x23 x24 x25 x26 x27 x28 x29 x30 x31 x32 x33 x34 x35
    x36 x37 x38 x39 x40 x41 x42 x43 x44 x45 x46 x47 x48 x49 := s in
  mk x0 x1 x2 x3 x4 x5 x6 x7 x8 x9 x10 v x12 x13 x14 x15 x16 x17 x18 x19
    x20 x21 x22 x23 x24 x25 x26 x27 x28 x29 x30 x31 x32 x33 x34 x35 x36
    x37 x38 x39 x40 x41 x42 x43 x44 x45 x46 x47 x48 x49.
Definition set_lowpassCutoff (v : R) (s : t) : t :=
  let 'mk x0 x1 x2 x3 x4 x5 x6 x7 x8 x9 x10 x11 _ x13 x14 x15 x16 x17 x18
    x19 x20 x21 x22 x23 x24 x25 x26 x27 x28 x29 x30 x31 x32 x33 x34 x35
    x36 x37 x38 x39 x40 x41 x42 x43 x44 x45 x46 x47 x48 x49 := s in
  mk x0 x1 x2 x3 x4 x5 x6 x7 x8 x9 x10 x11 v x13 x14 x15 x16 x17 x18 x19
    x20 x21 x22 x23 x24 x25 x26 x27 x28 x29 x30 x31 x32 x33 x34 x35 x36
    x37 x38 x39 x40 x41 x42 x43 x44 x45 x46 x47 x48 x49.
Definition set_lowpassSlope (v : R) (s : t) : t :=
  let 'mk x0 x1 x2 x3 x4 x5 x6 x7 x8 x9 x10 x11 x12 _ x14 x15 x16 x17 x18
    x19 x20 x21 x22 x23 x24 x25 x26 x27 x28 x29 x30 x31 x32 x33 x34 x35
    x36 x37 x38 x39 x40 x41 x42 x43 x44 x45 x46 x47 x48 x49 := s in
  mk x0 x1 x2 x3 x4 x5 x6 x7 x8 x9 x10 x11 x12 v x14 x15 x16 x17 x18 x19
    x20 x21 x22 x23 x24 x25 x26 x27 x28 x29 x30 x31 x32 x33 x34 x35 x36
    x37 x38 x39 x40 x41 x42 x43 x44 x45 x46 x47 x48 x49.
Definition set_lowpassResonance (v : R) (s : t) : t :=
  let 'mk x0 x1 x2 x3 x4 x5 x6 x7 x8 x9 x10 x11 x12 x13 _ x15 x16 x17 x18
    x19 x20 x21 x22 x23 x24 x25 x26 x27 x28 x29 x30 x31 x32 x33 x34 x35
    x36 x37 x38 x39 x40 x41 x42 x43 x44 x45 x46 x47 x48 x49 := s in
  mk x0 x1 x2 x3 x4 x5 x6 x7 x8 x9 x10 x11 x12 x13 v x15 x16 x17 x18 x19
    x20 x21 x22 x23 x24 x25 x26 x27 x28 x29 x30 x31 x32 x33 x34 x35 x36
    x37 x38 x39 x40 x41 x42 x43 x44 x45 x46 x47 x48 x49.
Definition set_highpassEnabled (v : bool) (s : t) : t :=
  let 'mk x0 x1 x2 x3 x4 x5 x6 x7 x8 x9 x10 x11 x12 x13 x14 _ x16 x17 x18
    x19 x20 x21 x22 x23 x24 x25 x26 x27 x28 x29 x30 x31 x32 x33 x34 x35
    x36 x37 x38 x39 x40 x41 x42 x43 x44 x45 x46 x47 x48 x49 := s in
  mk x0 x1 x2 x3 x4 x5 x6 x7 x8 x9 x10 x11 x12 x13 x14 v x16 x17 x18 x19
    x20 x21 x22 x23 x24 x25 x26 x27 x28 x29 x30 x31 x32 x33 x34 x35 x36
    x37 x38 x39 x40 x41 x42 x43 x44 x45 x46 x47 x48 x49.
Definition set_highpassCutoff (v : R) (s : t) : t :=
  let 'mk x0 x1 x2 x3 x4 x5 x6 x7 x8 x9 x10 x11 x12 x13 x14 x15 _ x17 x18
    x19 x20 x21 x22 x23 x24 x25 x26 x27 x28 x29 x30 x31 x32 x33 x34 x35
    x36 x37 x38 x39 x40 x41 x42 x43 x44 x45 x46 x47 x48 x49 := s in
  mk x0 x1 x2 x3 x4 x5 x6 x7 x8 x9 x10 x11 x12 x13 x14 x15 v x17 x18 x19
    x20 x21 x22 x23 x24 x25 x26 x27 x28 x29 x30 x31 x32 x33 x34 x35 x36
    x37 x38 x39 x40 x41 x42 x43 x44 x45 x46 x47 x48 x49.
Definition set_highpassSlope (v : R) (s : t) : t :=
  let 'mk x0 x1 x2 x3 x4 x5 x6 x7 x8 x9 x10 x11 x12 x13 x14 x15 x16 _ x18
    x19 x20 x21 x22 x23 x24 x25 x26 x27 x28 x29 x30 x31 x32 x33 x34 x35
    x36 x37 x38 x39 x40 x41 x42 x43 x44 x45 x46 x47 x48 x49 := s in
  mk x0 x1 x2 x3 x4 x5 x6 x7 x8 x9 x10 x11 x12 x13 x14 x15 x16 v x18 x19
    x20 x21 x22 x23 x24 x25 x26 x27 x28 x29 x30 x31 x32 x33 x34 x35 x36
    x37 x38 x39 x40 x41 x42 x43 x44 x45 x46 x47 x48 x49.
Definition set_highpassResonance (v : R) (s : t) : t :=
  let 'mk x0 x1 x2 x3 x4 x5 x6 x7 x8 x9 x10 x11 x12 x13 x14 x15 x16 x17 _
    x19 x20 x21 x22 x23 x24 x25 x26 x27 x28 x29 x30 x31 x32 x33 x34 x35
    x36 x37 x38 x39 x40 x41 x42 x43 x44 x45 x46 x47 x48 x49 := s in
  mk x0 x1 x2 x3 x4 x5 x6 x7 x8 x9 x10 x11 x12 x13 x14 x15 x16 x17 v x19
    x20 x21 x22 x23 x24 x25 x26 x27 x28 x29 x30 x31 x32 x33 x34 x35 x36
    x37 x38 x39 x40 x41 x42 x43 x44 x45 x46 x47 x48 x49.
Definition set_combEnabled (v : bool) (s : t) : t :=
  let 'mk x0 x1 x2 x3 x4 x5 x6 x7 x8 x9 x10 x11 x12 x13 x14 x15 x16 x17
    x18 _ x20 x21 x22 x23 x24 x25 x26 x27 x28 x29 x30 x31 x32 x33 x34 x35
    x36 x37 x38 x39 x40 x41 x42 x43 x44 x45 x46 x47 x48 x49 := s in
  mk x0 x1 x2 x3 x4 x5 x6 x7 x8 x9 x10 x11 x12 x13 x14 x15 x16 x17 x18 v
    x20 x21 x22 x23 x24 x25 x26 x27 x28 x29 x30 x31 x32 x33 x34 x35 x36
    x37 x38 x39 x40 x41 x42 x43 x44 x45 x46 x47 x48 x49.
Definition set_combSpacing (v : R) (s : t) : t :=
  let 'mk x0 x1 x2 x3 x4 x5 x6 x7 x8 x9 x10 x11 x12 x13 x14 x15 x16 x17
    x18 x19 _ x21 x22 x23 x24 x25 x26 x27 x28 x29 x30 x31 x32 x33 x34 x35
    x36 x37 x38 x39 x40 x41 x42 x43 x44 x45 x46 x47 x48 x49 := s in
  mk x0 x1 x2 x3 x4 x5 x6 x7 x8 x9 x10 x11 x12 x13 x14 x15 x16 x17 x18 x19
    v x21 x22 x23 x24 x25 x26 x27 x28 x29 x30 x31 x32 x33 x34 x35 x36 x37
    x38 x39 x40 x41 x42 x43 x44 x45 x46 x47 x48 x49.
Definition set_combPhase (v : R) (s : t) : t :=
  let 'mk x0 x1 x2 x3 x4 x5 x6 x7 x8 x9 x10 x11 x12 x13 x14 x15 x16 x17
    x18 x19 x20 _ x22 x23 x24 x25 x26 x27 x28 x29 x30 x31 x32 x33 x34 x35
    x36 x37 x38 x39 x40 x41 x42 x43 x44 x45 x46 x47 x48 x49 := s in
  mk x0 x1 x2 x3 x4 x5 x6 x7 x8 x9 x10 x11 x12 x13 x14 x15 x16 x17 x18 x19
    x20 v x22 x23 x24 x25 x26 x27 x28 x29 x30 x31 x32 x33 x34 x35 x36 x37
    x38 x39 x40 x41 x42 x43 x44 x45 x46 x47 x48 x49.
Definition set_pwmEnabled (v : bool) (s : t) : t :=
  let 'mk x0 x1 x2 x3 x4 x5 x6 x7 x8 x9 x10 x11 x12 x13 x14 x15 x16 x17
    x18 x19 x20 x21 _ x23 x24 x25 x26 x27 x28 x29 x30 x31 x32 x33 x34 x35
    x36 x37 x38 x39 x40 x41 x42 x43 x44 x45 x46 x47 x48 x49 := s in
  mk x0 x1 x2 x3 x4 x5 x6 x7 x8 x9 x10 x11 x12 x13 x14 x15 x16 x17 x18 x19
    x20 x21 v x23 x24 x25 x26 x27 x28 x29 x30 x31 x32 x33 x34 x35 x36 x37
    x38 x39 x40 x41 x42 x43 x44 x45 x46 x47 x48 x49.
Definition set_pwmDuty (v : R) (s : t) : t :=
  let 'mk x0 x1 x2 x3 x4 x5 x6 x7 x8 x9 x10 x11 x12 x13 x14 x15 x16 x17
    x18 x19 x20 x21 x22 _ x24 x25 x26 x27 x28 x29 x30 x31 x32 x33 x34 x35
    x36 x37 x38 x39 x40 x41 x42 x43 x44 x45 x46 x47 x48 x49 := s in
  mk x0 x1 x2 x3 x4 x5 x6 x7 x8 x9 x10 x11 x12 x13 x14 x15 x16 x17 x18 x19
    x20 x21 x22 v x24 x25 x26 x27 x28 x29 x30 x31 x32 x33 x34 x35 x36 x37
    x38 x39 x40 x41 x42 x43 x44 x45 x46 x47 x48 x49.
Definition set_wavefolderEnabled (v : bool) (s : t) : t :=
  let 'mk x0 x1 x2 x3 x4 x5 x6 x7 x8 x9 x10 x11 x12 x13 x14 x15 x16 x17
    x18 x19 x20 x21 x22 x23 _ x25 x26 x27 x28 x29 x30 x31 x32 x33 x34 x35
    x36 x37 x38 x39 x40 x41 x42 x43 x44 x45 x46 x47 x48 x49 := s in
  mk x0 x1 x2 x3 x4 x5 x6 x7 x8 x9 x10 x11 x12 x13 x14 x15 x16 x17 x18 x19
    x20 x21 x22 x23 v x25 x26 x27 x28 x29 x30 x31 x32 x33 x34 x35 x36 x37
    x38 x39 x40 x41 x42 x43 x44 x45 x46 x47 x48 x49.
Definition set_wavefolderFold (v : R) (s : t) : t :=
  let 'mk x0 x1 x2 x3 x4 x5 x6 x7 x8 x9 x10 x11 x12 x13 x14 x15 x16 x17
    x18 x19 x20 x21 x22 x23 x24 _ x26 x27 x28 x29 x30 x31 x32 x33 x34 x35
    x36 x37 x38 x39 x40 x41 x42 x43 x44 x45 x46 x47 x48 x49 := s in
  mk x0 x1 x2 x3 x4 x5 x6 x7 x8 x9 x10 x11 x12 x13 x14 x15 x16 x17 x18 x19
    x20 x21 x22 x23 x24 v x26 x27 x28 x29 x30 x31 x32 x33 x34 x35 x36 x37
    x38 x39 x40 x41 x42 x43 x44 x45 x46 x47 x48 x49.
Definition set_wavefolderAsymmetry (v : R) (s : t) : t :=
  let 'mk x0 x1 x2 x3 x4 x5 x6 x7 x8 x9 x10 x11 x12 x13 x14 x15 x16 x17
    x18 x19 x20 x21 x22 x23 x24 x25 _ x27 x28 x29 x30 x31 x32 x33 x34 x35
    x36 x37 x38 x39 x40 x41 x42 x43 x44 x45 x46 x47 x48 x49 := s in
  mk x0 x1 x2 x3 x4 x5 x6 x7 x8 x9 x10 x11 x12 x13 x14 x15 x16 x17 x18 x19
    x20 x21 x22 x23 x24 x25 v x27 x28 x29 x30 x31 x32 x33 x34 x35 x36 x37
    x38 x39 x40 x41 x42 x43 x44 x45 x46 x47 x48 x49.
Definition set_barberPoleEnabled (v : bool) (s : t) : t :=
  let 'mk x0 x1 x2 x3 x4 x5 x6 x7 x8 x9 x10 x11 x12 x13 x14 x15 x16 x17
    x18 x19 x20 x21 x22 x23 x24 x25 x26 _ x28 x29 x30 x31 x32 x33 x34 x35
    x36 x37 x38 x39 x40 x41 x42 x43 x44 x45 x46 x47 x48 x49 := s in
  mk x0 x1 x2 x3 x4 x5 x6 x7 x8 x9 x10 x11 x12 x13 x14 x15 x16 x17 x18 x19
    x20 x21 x22 x23 x24 x25 x26 v x28 x29 x30 x31 x32 x33 x34 x35 x36 x37
    x38 x39 x40 x41 x42 x43 x44 x45 x46 x47 x48 x49.
Definition set_barberPoleDensity (v : R) (s : t) : t :=
  let 'mk x0 x1 x2 x3 x4 x5 x6 x7 x8 x9 x10 x11 x12 x13 x14 x15 x16 x17
    x18 x19 x20 x21 x22 x23 x24 x25 x26 x27 _ x29 x30 x31 x32 x33 x34 x35
    x36 x37 x38 x39 x40 x41 x42 x43 x44 x45 x46 x47 x48 x49 := s in
  mk x0 x1 x2 x3 x4 x5 x6 x7 x8 x9 x10 x11 x12 x13 x14 x15 x16 x17 x18 x19
    x20 x21 x22 x23 x24 x25 x26 x27 v x29 x30 x31 x32 x33 x34 x35 x36 x37
    x38 x39 x40 x41 x42 x43 x44 x45 x46 x47 x48 x49.
Definition set_barberPoleSpeed (v : R) (s : t) : t :=
  let 'mk x0 x1 x2 x3 x4 x5 x6 x7 x8 x9 x10 x11 x12 x13 x14 x15 x16 x17
    x18 x19 x20 x21 x22 x23 x24 x25 x26 x27 x28 _ x30 x31 x32 x33 x34 x35
    x36 x37 x38 x39 x40 x41 x42 x43 x44 x45 x46 x47 x48 x49 := s in
  mk x0 x1 x2 x3 x4 x5 x6 x7 x8 x9 x10 x11 x12 x13 x14 x15 x16 x17 x18 x19
    x20 x21 x22 x23 x24 x25 x26 x27 x28 v x30 x31 x32 x33 x34 x35 x36 x37
    x38 x39 x40 x41 x42 x43 x44 x45 x46 x47 x48 x49.
Definition set_barberPoleQ (v : R) (s : t) : t :=
  let 'mk x0 x1 x2 x3 x4 x5 x6 x7 x8 x9 x10 x11 x12 x13 x14 x15 x16 x17
    x18 x19 x20 x21 x22 x23 x24 x25 x26 x27 x28 x29 _ x31 x32 x33 x34 x35
    x36 x37 x38 x39 x40 x41 x42 x43 x44 x45 x46 x47 x48 x49 := s in
  mk x0 x1 x2 x3 x4 x5 x6 x7 x8 x9 x10 x11 x12 x13 x14 x15 x16 x17 x18 x19
    x20 x21 x22 x23 x24 x25 x26 x27 x28 x29 v x31 x32 x33 x34 x35 x36 x37
    x38 x39 x40 x41 x42 x43 x44 x45 x46 x47 x48 x49.
Definition set_barberPolePhase (v : R) (s : t) : t :=
  let 'mk x0 x1 x2 x3 x4 x5 x6 x7 x8 x9 x10 x11 x12 x13 x14 x15 x16 x17
    x18 x19 x20 x21 x22 x23 x24 x25 x26 x27 x28 x29 x30 _ x32 x33 x34 x35
    x36 x37 x38 x39 x40 x41 x42 x43 x44 x45 x46 x47 x48 x49 := s in
  mk x0 x1 x2 x3 x4 x5 x6 x7 x8 x9 x10 x11 x12 x13 x14 x15 x16 x17 x18 x19
    x20 x21 x22 x23 x24 x25 x26 x27 x28 x29 x30 v x32 x33 x34 x35 x36 x37
    x38 x39 x40 x41 x42 x43 x44 x45 x46 x47 x48 x49.
Definition set_fallingEnabled (v : bool) (s : t) : t :=
  let 'mk x0 x1 x2 x3 x4 x5 x6 x7 x8 x9 x10 x11 x12 x13 x14 x15 x16 x17
    x18 x19 x20 x21 x22 x23 x24 x25 x26 x27 x28 x29 x30 x31 _ x33 x34 x35
    x36 x37 x38 x39 x40 x41 x42 x43 x44 x45 x46 x47 x48 x49 := s in
  mk x0 x1 x2 x3 x4 x5 x6 x7 x8 x9 x10 x11 x12 x13 x14 x15 x16 x17 x18 x19
    x20 x21 x22 x23 x24 x25 x26 x27 x28 x29 x30 x31 v x33 x34 x35 x36 x37
    x38 x39 x40 x41 x42 x43 x44 x45 x46 x47 x48 x49.
Definition set_fallingProbability (v : R) (s : t) : t :=
  let 'mk x0 x1 x2 x3 x4 x5 x6 x7 x8 x9 x10 x11 x12 x13 x14 x15 x16 x17
    x18 x19 x20 x21 x22 x23 x24 x25 x26 x27 x28 x29 x30 x31 x32 _ x34 x35
    x36 x37 x38 x39 x40 x41 x42 x43 x44 x45 x46 x47 x48 x49 := s in
  mk x0 x1 x2 x3 x4 x5 x6 x7 x8 x9 x10 x11 x12 x13 x14 x15 x16 x17 x18 x19
    x20 x21 x22 x23 x24 x25 x26 x27 x28 x29 x30 x31 x32 v x34 x35 x36 x37
    x38 x39 x40 x41 x42 x43 x44 x45 x46 x47 x48 x49.
Definition set_fallingHarmonic (v : nat) (s : t) : t :=
  let 'mk x0 x1 x2 x3 x4 x5 x6 x7 x8 x9 x10 x11 x12 x13 x14 x15 x16 x17
    x18 x19 x20 x21 x22 x23 x24 x25 x26 x27 x28 x29 x30 x31 x32 x33 _ x35
    x36 x37 x38 x39 x40 x41 x42 x43 x44 x45 x46 x47 x48 x49 := s in
  mk x0 x1 x2 x3 x4 x5 x6 x7 x8 x9 x10 x11 x12 x13 x14 x15 x16 x17 x18 x19
    x20 x21 x22 x23 x24 x25 x26 x27 x28 x29 x30 x31 x32 x33 v x35 x36 x37
    x38 x39 x40 x41 x42 x43 x44 x45 x46 x47 x48 x49.
Definition set_fallingLanded (v : gset nat) (s : t) : t :=
  let 'mk x0 x1 x2 x3 x4 x5 x6 x7 x8 x9 x10 x11 x12 x13 x14 x15 x16 x17
    x18 x19 x20 x21 x22 x23 x24 x25 x26 x27 x28 x29 x30 x31 x32 x33 x34 _
    x36 x37 x38 x39 x40 x41 x42 x43 x44 x45 x46 x47 x48 x49 := s in
  mk x0 x1 x2 x3 x4 x5 x6 x7 x8 x9 x10 x11 x12 x13 x14 x15 x16 x17 x18 x19
    x20 x21 x22 x23 x24 x25 x26 x27 x28 x29 x30 x31 x32 x33 x34 v x36 x37
    x38 x39 x40 x41 x42 x43 x44 x45 x46 x47 x48 x49.
Definition set_vowelEnabled (v : bool) (s : t) : t :=
  let 'mk x0 x1 x2 x3 x4 x5 x6 x7 x8 x9 x10 x11 x12 x13 x14 x15 x16 x17
    x18 x19 x20 x21 x22 x23 x24 x25 x26 x27 x28 x29 x30 x31 x32 x33 x34
    x35 _ x37 x38 x39 x40 x41 x42 x43 x44 x45 x46 x47 x48 x49 := s in
  mk x0 x1 x2 x3 x4 x5 x6 x7 x8 x9 x10 x11 x12 x13 x14 x15 x16 x17 x18 x19
    x20 x21 x22 x23 x24 x25 x26 x27 x28 x29 x30 x31 x32 x33 x34 x35 v x37
    x38 x39 x40 x41 x42 x43 x44 x45 x46 x47 x48 x49.
Definition set_vowelMorph (v : R) (s : t) : t :=
  let 'mk x0 x1 x2 x3 x4 x5 x6 x7 x8 x9 x10 x11 x12 x13 x14 x15 x16 x17
    x18 x19 x20 x21 x22 x23 x24 x25 x26 x27 x28 x29 x30 x31 x32 x33 x34
    x35 x36 _ x38 x39 x40 x41 x42 x43 x44 x45 x46 x47 x48 x49 := s in
  mk x0 x1 x2 x3 x4 x5 x6 x7 x8 x9 x10 x11 x12 x13 x14 x15 x16 x17 x18 x19
    x20 x21 x22 x23 x24 x25 x26 x27 x28 x29 x30 x31 x32 x33 x34 x35 x36 v
    x38 x39 x40 x41 x42 x43 x44 x45 x46 x47 x48 x49.
Definition set_vowelQ (v : R) (s : t) : t :=
  let 'mk x0 x1 x2 x3 x4 x5 x6 x7 x8 x9 x10 x11 x12 x13 x14 x15 x16 x17
    x18 x19 x20 x21 x22 x23 x24 x25 x26 x27 x28 x29 x30 x31 x32 x33 x34
    x35 x36 x37 _ x39 x40 x41 x42 x43 x44 x45 x46 x47 x48 x49 := s in
  mk x0 x1 x2 x3 x4 x5 x6 x7 x8 x9 x10 x11 x12 x13 x14 x15 x16 x17 x18 x19
    x20 x21 x22 x23 x24 x25 x26 x27 x28 x29 x30 x31 x32 x33 x34 x35 x36
    x37 v x39 x40 x41 x42 x43 x44 x45 x46 x47 x48 x49.
Definition set_keyboardPitchEnabled (v : bool) (s : t) : t :=
  let 'mk x0 x1 x2 x3 x4 x5 x6 x7 x8 x9 x10 x11 x12 x13 x14 x15 x16 x17
    x18 x19 x20 x21 x22 x23 x24 x25 x26 x27 x28 x29 x30 x31 x32 x33 x34
    x35 x36 x37 x38 _ x40 x41 x42 x43 x44 x45 x46 x47 x48 x49 := s in
  mk x0 x1 x2 x3 x4 x5 x6 x7 x8 x9 x10 x11 x12 x13 x14 x15 x16 x17 x18 x19
    x20 x21 x22 x23 x24 x25 x26 x27 x28 x29 x30 x31 x32 x33 x34 x35 x36
    x37 x38 v x40 x41 x42 x43 x44 x45 x46 x47 x48 x49.
Definition set_keyboardPitchRatio (v : R) (s : t) : t :=
  let 'mk x0 x1 x2 x3 x4 x5 x6 x7 x8 x9 x10 x11 x12 x13 x14 x15 x16 x17
    x18 x19 x20 x21 x22 x23 x24 x25 x26 x27 x28 x29 x30 x31 x32 x33 x34
    x35 x36 x37 x38 x39 _ x41 x42 x43 x44 x45 x46 x47 x48 x49 := s in
  mk x0 x1 x2 x3 x4 x5 x6 x7 x8 x9 x10 x11 x12 x13 x14 x15 x16 x17 x18 x19
    x20 x21 x22 x23 x24 x25 x26 x27 x28 x29 x30 x31 x32 x33 x34 x35 x36
    x37 x38 x39 v x41 x42 x43 x44 x45 x46 x47 x48 x49.
Definition set_prevKeyboardPitchRatio (v : R) (s : t) : t :=
  let 'mk x0 x1 x2 x3 x4 x5 x6 x7 x8 x9 x10 x11 x12 x13 x14 x15 x16 x17
    x18 x19 x20 x21 x22 x23 x24 x25 x26 x27 x28 x29 x30 x31 x32 x33 x34
    x35 x36 x37 x38 x39 x40 _ x42 x43 x44 x45 x46 x47 x48 x49 := s in
  mk x0 x1 x2 x3 x4 x5 x6 x7 x8 x9 x10 x11 x12 x13 x14 x15 x16 x17 x18 x19
    x20 x21 x22 x23 x24 x25 x26 x27 x28 x29 x30 x31 x32 x33 x34 x35 x36
    x37 x38 x39 x40 v x42 x43 x44 x45 x46 x47 x48 x49.
Definition set_keyboardGateEnabled (v : bool) (s : t) : t :=
  let 'mk x0 x1 x2 x3 x4 x5 x6 x7 x8 x9 x10 x11 x12 x13 x14 x15 x16 x17
    x18 x19 x20 x21 x22 x23 x24 x25 x26 x27 x28 x29 x30 x31 x32 x33 x34
    x35 x36 x37 x38 x39 x40 x41 _ x43 x44 x45 x46 x47 x48 x49 := s in
  mk x0 x1 x2 x3 x4 x5 x6 x7 x8 x9 x10 x11 x12 x13 x14 x15 x16 x17 x18 x19
    x20 x21 x22 x23 x24 x25 x26 x27 x28 x29 x30 x31 x32 x33 x34 x35 x36
    x37 x38 x39 x40 x41 v x43 x44 x45 x46 x47 x48 x49.
Definition set_keyboardGateOpen (v : bool) (s : t) : t :=
  let 'mk x0 x1 x2 x3 x4 x5 x6 x7 x8 x9 x10 x11 x12 x13 x14 x15 x16 x17
    x18 x19 x20 x21 x22 x23 x24 x25 x26 x27 x28 x29 x30 x31 x32 x33 x34
    x35 x36 x37 x38 x39 x40 x41 x42 _ x44 x45 x46 x47 x48 x49 := s in
  mk x0 x1 x2 x3 x4 x5 x6 x7 x8 x9 x10 x11 x12 x13 x14 x15 x16 x17 x18 x19
    x20 x21 x22 x23 x24 x25 x26 x27 x28 x29 x30 x31 x32 x33 x34 x35 x36
    x37 x38 x39 x40 x41 x42 v x44 x45 x46 x47 x48 x49.
Definition set_prevKeyboardGateOpen (v : bool) (s : t) : t :=
  let 'mk x0 x1 x2 x3 x4 x5 x6 x7 x8 x9 x10 x11 x12 x13 x14 x15 x16 x17
    x18 x19 x20 x21 x22 x23 x24 x25 x26 x27 x28 x29 x30 x31 x32 x33 x34
    x35 x36 x37 x38 x39 x40 x41 x42 x43 _ x45 x46 x47 x48 x49 := s in
  mk x0 x1 x2 x3 x4 x5 x6 x7 x8 x9 x10 x11 x12 x13 x14 x15 x16 x17 x18 x19
    x20 x21 x22 x23 x24 x25 x26 x27 x28 x29 x30 x31 x32 x33 x34 x35 x36
    x37 x38 x39 x40 x41 x42 x43 v x45 x46 x47 x48 x49.
Definition set_needsImmediateEvent (v : bool) (s : t) : t :=
  let 'mk x0 x1 x2 x3 x4 x5 x6 x7 x8 x9 x10 x11 x12 x13 x14 x15 x16 x17
    x18 x19 x20 x21 x22 x23 x24 x25 x26 x27 x28 x29 x30 x31 x32 x33 x34
    x35 x36 x37 x38 x39 x40 x41 x42 x43 x44 _ x46 x47 x48 x49 := s in
  mk x0 x1 x2 x3 x4 x5 x6 x7 x8 x9 x10 x11 x12 x13 x14 x15 x16 x17 x18 x19
    x20 x21 x22 x23 x24 x25 x26 x27 x28 x29 x30 x31 x32 x33 x34 x35 x36
    x37 x38 x39 x40 x41 x42 x43 x44 v x46 x47 x48 x49.
Definition set_scheduler (v : Scheduler.t) (s : t) : t :=
  let 'mk x0 x1 x2 x3 x4 x5 x6 x7 x8 x9 x10 x11 x12 x13 x14 x15 x16 x17
    x18 x19 x20 x21 x22 x23 x24 x25 x26 x27 x28 x29 x30 x31 x32 x33 x34
    x35 x36 x37 x38 x39 x40 x41 x42 x43 x44 x45 _ x47 x48 x49 := s in
  mk x0 x1 x2 x3 x4 x5 x6 x7 x8 x9 x10 x11 x12 x13 x14 x15 x16 x17 x18 x19
    x20 x21 x22 x23 x24 x25 x26 x27 x28 x29 x30 x31 x32 x33 x34 x35 x36
    x37 x38 x39 x40 x41 x42 x43 x44 x45 v x47 x48 x49.
Definition set_lastAmpEventSample (v : list (option Z)) (s : t) : t :=
  let 'mk x0 x1 x2 x3 x4 x5 x6 x7 x8 x9 x10 x11 x12 x13 x14 x15 x16 x17
    x18 x19 x20 x21 x22 x23 x24 x25 x26 x27 x28 x29 x30 x31 x32 x33 x34
    x35 x36 x37 x38 x39 x40 x41 x42 x43 x44 x45 x46 _ x48 x49 := s in
  mk x0 x1 x2 x3 x4 x5 x6 x7 x8 x9 x10 x11 x12 x13 x14 x15 x16 x17 x18 x19
    x20 x21 x22 x23 x24 x25 x26 x27 x28 x29 x30 x31 x32 x33 x34 x35 x36
    x37 x38 x39 x40 x41 x42 x43 x44 x45 x46 v x48 x49.
Definition set_lastFreqEventSample (v : list (option Z)) (s : t) : t :=
  let 'mk x0 x1 x2 x3 x4 x5 x6 x7 x8 x9 x10 x11 x12 x13 x14 x15 x16 x17
    x18 x19 x20 x21 x22 x23 x24 x25 x26 x27 x28 x29 x30 x31 x32 x33 x34
    x35 x36 x37 x38 x39 x40 x41 x42 x43 x44 x45 x46 x47 _ x49 := s in
  mk x0 x1 x2 x3 x4 x5 x6 x7 x8 x9 x10 x11 x12 x13 x14 x15 x16 x17 x18 x19
    x20 x21 x22 x23 x24 x25 x26 x27 x28 x29 x30 x31 x32 x33 x34 x35 x36
    x37 x38 x39 x40 x41 x42 x43 x44 x45 x46 x47 v x49.
Definition set_randomCalls (v : nat) (s : t) : t :=
  let 'mk x0 x1 x2 x3 x4 x5 x6 x7 x8 x9 x10 x11 x12 x13 x14 x15 x16 x17
    x18 x19 x20 x21 x22 x23 x24 x25 x26 x27 x28 x29 x30 x31 x32 x33 x34
    x35 x36 x37 x38 x39 x40 x41 x42 x43 x44 x45 x46 x47 x48 _ := s in
  mk x0 x1 x2 x3 x4 x5 x6 x7 x8 x9 x10 x11 x12 x13 x14 x15 x16 x17 x18 x19
    x20 x21 x22 x23 x24 x25 x26 x27 x28 x29 x30 x31 x32 x33 x34 x35 x36
    x37 x38 x39 x40 x41 x42 x43 x44 x45 x46 x47 x48 v.

Section Environment.

(** What the worklet scope and the renderer provide: the global
    [sampleRate], [Math.pow], the successive results of [Math.random()],
    [add_sines] of the renderer, and whether its initialisation succeeded. *)
Variable sampleRate : R.
Variable Math_pow : R -> R -> R.
Variable Math_random : nat -> R.
Variable add_sines : list R -> list R.
Variable wasm_init_ok : bool.

(** The state the constructor leaves. *)
Definition new : t :=
  {| ready := wasm_init_ok; started := false; sineIds := []; baseFreq := 110;
     lfoEnabled := true; lfoAmount := 0.5; lfoOffset := 0;
     lfo := PhaseAccumulator.new (Some 1);
     randomEnabled := true; randomChangeRate := 2;
     randomValues := replicate NUM_PARTIALS 1;
     lowpassEnabled := false; lowpassCutoff := 10; lowpassSlope := 2;
     lowpassResonance := 0.5;
     highpassEnabled := false; highpassCutoff := 8; highpassSlope := 2;
     highpassResonance := 0.5;
     combEnabled := false; combSpacing := 4; combPhase := 0;
     pwmEnabled := false; pwmDuty := 0.32;
     wavefolderEnabled := false; wavefolderFold := 2.5;
     wavefolderAsymmetry := 0;
     barberPoleEnabled := false; barberPoleDensity := 6;
     barberPoleSpeed := 3; barberPoleQ := 2; barberPolePhase := 0;
     fallingEnabled := false; fallingProbability := 0.1;
     fallingHarmonic := 31%nat; fallingLanded := ∅;
     vowelEnabled := false; vowelMorph := 0.5; vowelQ := 12;
     keyboardPitchEnabled := false; keyboardPitchRatio := 1;
     prevKeyboardPitchRatio := 1;
     keyboardGateEnabled := false; keyboardGateOpen := true;
     prevKeyboardGateOpen := true;
     needsImmediateEvent := false;
     scheduler := Scheduler.new NUM_PARTIALS (Some MAX_EVENTS_PER_SINE);
     lastAmpEventSample := []; lastFreqEventSample := [];
     randomCalls := 0%nat |}.

(** One call of [Math.random()]. *)
Definition random (s : t) : R * t :=
  (Math_random (randomCalls s), set_randomCalls (S (randomCalls s)) s).

Definition startSynth (s : t) : t :=
  let phases := replicate NUM_PARTIALS 0 in
  let ids := add_sines phases in
  let s := set_sineIds ids s in
  let s := fold_left
             (fun s i =>
                let s := set_lastAmpEventSample
                           (array_set i None (lastAmpEventSample s)) s in
                set_lastFreqEventSample
                  (array_set i None (lastFreqEventSample s)) s)
             (seq 0 NUM_PARTIALS) s in
  let s := fold_left
             (fun s i =>
                let '(r, s) := random s in
                set_randomValues (<[i := r * 2 - 1]> (randomValues s)) s)
             (seq 0 NUM_PARTIALS) s in
  set_started true s.

(** ** Modulator evaluation methods *)

Definition evaluateLfo (sampleOffset : Z) (phaseOffset : R) (s : t) : R :=
  if negb (lfoEnabled s) then 1
  else
    let lfoSin :=
      fst (PhaseAccumulator.sinAt sampleOffset sampleRate (Some phaseOffset)
                                  (lfo s)) in
    lfoOffset s + lfoAmount s * lfoSin.

Definition evaluateRandom (partialIndex : nat) (s : t) : R :=
  if randomEnabled s then nth partialIndex (randomValues s) 0 else 1.

Definition evaluateLowpass (partialNum : R) (s : t) : R :=
  if negb (lowpassEnabled s) then 1
  else
    let lp := 1 / (1 + Math_pow (partialNum / lowpassCutoff s)
                                (2 * lowpassSlope s)) in
    let res := lowpassResonance s
               * exp (-0.5 * Math_pow ((partialNum - lowpassCutoff s)
                                       / (lowpassCutoff s * 0.1)) 2) in
    lp + res.

Definition evaluateHighpass (partialNum : R) (s : t) : R :=
  if negb (highpassEnabled s) then 1
  else
    let hp := Math_pow (partialNum / highpassCutoff s) (2 * highpassSlope s)
              / (1 + Math_pow (partialNum / highpassCutoff s)
                              (2 * highpassSlope s)) in
    let res := highpassResonance s
               * exp (-0.5 * Math_pow ((partialNum - highpassCutoff s)
                                       / (highpassCutoff s * 0.1)) 2) in
    hp + res.

Definition evaluateComb (partialNum : R) (s : t) : R :=
  if negb (combEnabled s) then 1
  else 0.5 + 0.5 * cos (partialNum * PI / combSpacing s + combPhase s).

Definition evaluatePwm (partialNum : R) (s : t) : R :=
  if negb (pwmEnabled s) then 1
  else
    let d := pwmDuty s in
    let d := js_rem (js_rem d 1 + 1) 1 in
    (2 / (partialNum * PI)) * sin (partialNum * PI * d).

Definition evaluateWavefolder (partialNum : R) (s : t) : R :=
  if negb (wavefolderEnabled s) then 1
  else
    let normalizedHarmonic := partialNum / 32 in
    let foldAmount :=
      wavefolderFold s * (1 + normalizedHarmonic * wavefolderAsymmetry s) in
    let foldPattern :=
      sin (partialNum * foldAmount) * cos (partialNum / foldAmount) in
    let emphasis := 0.5 + 0.5 * sin (partialNum * PI / foldAmount) in
    foldPattern * emphasis.

Definition evaluateBarberPole (partialIndex : nat) (s : t) : R :=
  if negb (barberPoleEnabled s) then 1
  else
    let pos := INR partialIndex / barberPoleDensity s + barberPolePhase s in
    let frac := pos - IZR (Math_round pos) in
    let stripe := cos (PI * frac) in
    let stripe := Rmax 0 stripe in
    let stripe := Math_pow stripe (barberPoleQ s) in
    stripe.

Definition evaluateFalling (partialIndex : nat) (s : t) : R :=
  if negb (fallingEnabled s) then 1
  else if bool_decide (partialIndex ∈ fallingLanded s)
          || Nat.eqb (fallingHarmonic s) partialIndex
       then 1
       else 0.

Definition evaluateVowel (partialNum : R) (s : t) : R :=
  if negb (vowelEnabled s) then 1
  else
    let morph := Rmax 0 (Rmin 1 (vowelMorph s)) in
    let idx := morph * INR (length vowelFormants - 1) in
    let idxA := Math_floor idx in
    let idxB := Z.min (idxA + 1) (Z.of_nat (length vowelFormants - 1)) in
    let t := idx - IZR idxA in
    let formants :=
      map (fun fi =>
             nth fi (nth (Z.to_nat idxA) vowelFormants []) 0 * (1 - t)
             + nth fi (nth (Z.to_nat idxB) vowelFormants []) 0 * t)
          [0; 1; 2]%nat in
    let harmonicFreq := baseFreq s * partialNum in
    fold_left
      (fun amp f =>
         let dist := Math_log2 (harmonicFreq / f) in
         amp + exp (- vowelQ s * dist * dist))
      formants 0.

Definition evaluateKeyboardGate (s : t) : R :=
  if negb (keyboardGateEnabled s) then 1
  else if keyboardGateOpen s then 1 else 0.

Definition evaluateKeyboardPitch (s : t) : R :=
  if negb (keyboardPitchEnabled s) then 1
  else keyboardPitchRatio s.

(** ** Per-frame modulator updates *)

Definition updateRandomModulator (blockSize : nat) (s : t) : t :=
  if negb (randomEnabled s) then s
  else
    let callsPerSecond := sampleRate / INR blockSize in
    let changeProb := randomChangeRate s / callsPerSecond in
    fold_left
      (fun s i =>
         let '(r, s) := random s in
         if Rlt_dec r changeProb
         then let '(r', s) := random s in
              set_randomValues (<[i := r' * 2 - 1]> (randomValues s)) s
         else s)
      (seq 0 NUM_PARTIALS) s.

Definition updateBarberPolePhase (blockSize : nat) (s : t) : t :=
  if negb (barberPoleEnabled s) then s
  else
    let density := Rmax 0.01 (barberPoleDensity s) in
    let ph := barberPolePhase s
              + (barberPoleSpeed s / Rabs density)
                * (INR blockSize / sampleRate) in
    let ph := js_rem ph 1 in
    let ph := if Rlt_dec ph 0 then ph + 1 else ph in
    set_barberPolePhase ph s.

Definition updateFallingHarmonics (s : t) : t :=
  if negb (fallingEnabled s) then s
  else
    let s :=
      if (0 <? fallingHarmonic s)%nat
      then let '(r, s) := random s in
           if Rlt_dec r (fallingProbability s)
           then set_fallingHarmonic (fallingHarmonic s - 1)%nat s
           else s
      else s in
    let s :=
      if Nat.eqb (fallingHarmonic s) 0
      then let landedIdx := size (fallingLanded s) in
           let s := set_fallingLanded ({[landedIdx]} ∪ fallingLanded s) s in
           set_fallingHarmonic 31%nat s
      else s in
    if (32 <=? size (fallingLanded s))%nat
    then set_fallingLanded ∅ (set_fallingHarmonic 31%nat s)
    else s.

(** ** [process]: scheduling of one block *)

(** [scheduler.addAmplitudeEvent] and [scheduler.addFrequencyEvent] as
    [process] calls them: the returned flag is dropped. *)
Definition addAmp (sample : Z) (value : R) (sch : Scheduler.t) : Scheduler.t :=
  (Scheduler.addAmplitudeEvent (IZR sample) value sch).1.2.

Definition addFreq (sample : Z) (freqHz : R) (sch : Scheduler.t) : Scheduler.t :=
  (Scheduler.addFrequencyEvent (IZR sample) freqHz sch).1.2.

(** The product of the modulators that do not depend on the keyboard,
    for partial [i] at offset 0 ([baseAmplitude] of the injection). *)
Definition baseAmplitude (i : nat) (s : t) : R :=
  let partialNum := INR (i + 1) in
  let phaseOffset := INR i / INR NUM_PARTIALS in
  let lfoValue := evaluateLfo 0 phaseOffset s in
  let randomValue := evaluateRandom i s in
  let lowpassValue := evaluateLowpass partialNum s in
  let highpassValue := evaluateHighpass partialNum s in
  let combValue := evaluateComb partialNum s in
  let pwmValue := evaluatePwm partialNum s in
  let wavefolderValue := evaluateWavefolder partialNum s in
  let barberPoleValue := evaluateBarberPole i s in
  let fallingValue := evaluateFalling i s in
  let vowelValue := evaluateVowel partialNum s in
  lfoValue * randomValue * lowpassValue * highpassValue * combValue
  * pwmValue * wavefolderValue * barberPoleValue * fallingValue * vowelValue.

(** The body of the injection loop for partial [i]. *)
Definition injectPartial (currentSample : Z)
           (prevPitchMod newPitchMod prevGateValue newGateValue : R)
           (s : t) (i : nat) : t :=
  let sineId := nth i (sineIds s) 0 in
  let partialNum := INR (i + 1) in
  let sch := (Scheduler.beginSine sineId true (scheduler s)).1 in
  let base := baseAmplitude i s in
  let prevAmplitude := (base * prevGateValue) / 16 in
  let sch := addAmp currentSample prevAmplitude sch in
  let rampSample := (currentSample + KEYBOARD_RAMP_SAMPLES)%Z in
  let newAmplitude := (base * newGateValue) / 16 in
  let sch := addAmp rampSample newAmplitude sch in
  let prevFreq := baseFreq s * prevPitchMod * partialNum in
  let sch := addFreq currentSample prevFreq sch in
  let newFreq := baseFreq s * newPitchMod * partialNum in
  let sch := addFreq rampSample newFreq sch in
  let sch := (Scheduler.endSine sch).1 in
  let s := set_scheduler sch s in
  let s := set_lastAmpEventSample
             (array_set i (Some rampSample) (lastAmpEventSample s)) s in
  set_lastFreqEventSample
    (array_set i (Some rampSample) (lastFreqEventSample s)) s.

Definition prevPitchMod (s : t) : R :=
  if keyboardPitchEnabled s then prevKeyboardPitchRatio s else 1.

Definition prevGateValue (s : t) : R :=
  if keyboardGateEnabled s
  then (if prevKeyboardGateOpen s then 1 else 0)
  else 1.

(** The loop over the partials inside [if (this.needsImmediateEvent)]. *)
Definition injectLoop (currentSample : Z) (s : t) : t :=
  let newPitchMod := evaluateKeyboardPitch s in
  let newGateValue := evaluateKeyboardGate s in
  fold_left
    (injectPartial currentSample (prevPitchMod s) newPitchMod
                   (prevGateValue s) newGateValue)
    (seq 0 NUM_PARTIALS) s.

(** The whole [if (this.needsImmediateEvent)] block. *)
Definition injectImmediateEvents (currentSample : Z) (s : t) : t :=
  let s := injectLoop currentSample s in
  let s := set_prevKeyboardPitchRatio (keyboardPitchRatio s) s in
  let s := set_prevKeyboardGateOpen (keyboardGateOpen s) s in
  set_needsImmediateEvent false s.



(** The scheduler calls of one iteration of the injection, with the
    values of [s0]. *)
Definition sched_step (cs : Z) (s0 : t) (S : Scheduler.t) (i : nat)
  : Scheduler.t :=
  Scheduler.inject_section
    (nth i (sineIds s0) 0) (IZR cs)
    (baseAmplitude i s0 * prevGateValue s0 / 16) (IZR (cs + 8))
    (baseAmplitude i s0 * evaluateKeyboardGate s0 / 16)
    (baseFreq s0 * prevPitchMod s0 * INR (i + 1))
    (baseFreq s0 * evaluateKeyboardPitch s0 * INR (i + 1))
    S.

(** [combinedAmplitude] of the scheduling loop: the product of all the
    modulators for partial [i] at [sampleOffset], before the division
    by 16. *)
Definition combinedAmplitude (sampleOffset : Z) (i : nat) (s : t) : R :=
  let partialNum := INR (i + 1) in
  let phaseOffset := INR i / INR NUM_PARTIALS in
  let lfoValue := evaluateLfo sampleOffset phaseOffset s in
  let randomValue := evaluateRandom i s in
  let lowpassValue := evaluateLowpass partialNum s in
  let highpassValue := evaluateHighpass partialNum s in
  let combValue := evaluateComb partialNum s in
  let pwmValue := evaluatePwm partialNum s in
  let wavefolderValue := evaluateWavefolder partialNum s in
  let barberPoleValue := evaluateBarberPole i s in
  let fallingValue := evaluateFalling i s in
  let vowelValue := evaluateVowel partialNum s in
  let keyboardGateValue := evaluateKeyboardGate s in
  lfoValue * randomValue * lowpassValue * highpassValue * combValue
  * pwmValue * wavefolderValue * barberPoleValue * fallingValue * vowelValue
  * keyboardGateValue.

(** The [while (ampSample <= targetSample)] loop of partial [i]; it returns
    [lastAmpGenerated].  [fuel] bounds the number of iterations. *)
Fixpoint ampLoop (fuel : nat) (currentSample targetSample : Z) (i : nat)
         (ampSample : Z) (lastAmpGenerated : option Z) (s : t)
  : option Z * t :=
  match fuel with
  | O => (lastAmpGenerated, s)
  | S fuel' =>
      if (ampSample <=? targetSample)%Z
      then
        let sampleOffset := (ampSample - currentSample)%Z in
        let scaledAmp := combinedAmplitude sampleOffset i s / 16 in
        let s := set_scheduler (addAmp ampSample scaledAmp (scheduler s)) s in
        ampLoop fuel' currentSample targetSample i
                (ampSample + EVENT_INTERVAL)%Z (Some ampSample) s
      else (lastAmpGenerated, s)
  end.

(** The [while (freqSample <= targetSample)] loop of partial [i]. *)
Fixpoint freqLoop (fuel : nat) (targetSample : Z) (partialNum pitchMod : R)
         (freqSample : Z) (lastFreqGenerated : option Z) (s : t)
  : option Z * t :=
  match fuel with
  | O => (lastFreqGenerated, s)
  | S fuel' =>
      if (freqSample <=? targetSample)%Z
      then
        let freq := baseFreq s * pitchMod * partialNum in
        let s := set_scheduler (addFreq freqSample freq (scheduler s)) s in
        freqLoop fuel' targetSample partialNum pitchMod
                 (freqSample + EVENT_INTERVAL)%Z (Some freqSample) s
      else (lastFreqGenerated, s)
  end.

(** The first timestamp of a stream: the block start when the cursor is
    [null], else one interval past the cursor. *)
Definition firstSample (currentSample : Z) (last : option Z) : Z :=
  match last with
  | None => currentSample
  | Some l => (l + EVENT_INTERVAL)%Z
  end.

(** The body of the scheduling loop for partial [i].  Each [while] loop
    runs as many times as there are timestamps up to [targetSample]. *)
Definition schedulePartial (currentSample targetSample : Z) (s : t) (i : nat)
  : t :=
  let sineId := nth i (sineIds s) 0 in
  let partialNum := INR (i + 1) in
  let s := set_scheduler
             (Scheduler.beginSine sineId false (scheduler s)).1 s in
  let lastAmp := nth i (lastAmpEventSample s) None in
  let ampSample := firstSample currentSample lastAmp in
  let '(lastAmpGenerated, s) :=
    ampLoop (Tracker.count ampSample targetSample EVENT_INTERVAL)
            currentSample targetSample i ampSample lastAmp s in
  let s := if decide (lastAmpGenerated = lastAmp) then s
           else set_lastAmpEventSample
                  (array_set i lastAmpGenerated (lastAmpEventSample s)) s in
  let lastFreq := nth i (lastFreqEventSample s) None in
  let freqSample := firstSample currentSample lastFreq in
  let pitchMod := evaluateKeyboardPitch s in
  let '(lastFreqGenerated, s) :=
    freqLoop (Tracker.count freqSample targetSample EVENT_INTERVAL)
             targetSample partialNum pitchMod freqSample lastFreq s in
  let s := if decide (lastFreqGenerated = lastFreq) then s
           else set_lastFreqEventSample
                  (array_set i lastFreqGenerated (lastFreqEventSample s)) s in
  set_scheduler (Scheduler.endSine (scheduler s)).1 s.

(** The steps of [process] that precede the building of the events: the
    LFO phase, the animated modulators and [scheduler.beginFrame()]. *)
Definition beginBlock (blockSize : nat) (currentSample : Z) (s : t) : t :=
  let s := set_lfo
             (PhaseAccumulator.advance currentSample sampleRate (lfo s)).2 s in
  let s := updateRandomModulator blockSize s in
  let s := updateBarberPolePhase blockSize s in
  let s := updateFallingHarmonics s in
  set_scheduler (Scheduler.beginFrame (scheduler s)).1 s.

(** [process], up to the hand-over to the renderer: [hasOutput] tells
    whether [outputs[0][0]] exists, [blockSize] is its length and
    [currentSample] the result of [get_current_sample_position()].  The
    calls into the renderer and the telemetry message are not modelled. *)
Definition process (hasOutput : bool) (blockSize : nat) (currentSample : Z)
           (s : t) : t :=
  if negb (ready s) then s
  else if negb hasOutput then s
  else if negb (started s) then s
  else
    let blockEnd := (currentSample + Z.of_nat blockSize)%Z in
    let targetSample := (blockEnd + EVENT_INTERVAL)%Z in
    let s := beginBlock blockSize currentSample s in
    let s := if needsImmediateEvent s
             then injectImmediateEvents currentSample s
             else s in
    fold_left (schedulePartial currentSample targetSample)
              (seq 0 NUM_PARTIALS) s.

(** ** Control messages *)

(** [this.messageHandlers], in source order. *)
Definition messageHandlers : list (string * (jsval -> t -> t)) :=
  [ ("start", fun _ s =>
       if negb (started s) && ready s then startSynth s else s);
    ("set-base-freq", fun v s => set_baseFreq (number_or v 110) s);
    ("set-lfo-enabled", fun v s => set_lfoEnabled (js_Boolean v) s);
    ("set-lfo-rate", fun v s =>
       set_lfo (PhaseAccumulator.setRate (number_or v 1) (lfo s)) s);
    ("set-lfo-amount", fun v s => set_lfoAmount (number_or v 0) s);
    ("set-lfo-offset", fun v s => set_lfoOffset (number_or v 0) s);
    ("set-random-enabled", fun v s =>
       let s := set_randomEnabled (js_Boolean v) s in
       if negb (randomEnabled s)
       then set_randomValues (replicate (length (randomValues s)) 1) s
       else s);
    ("set-random-change-rate", fun v s =>
       set_randomChangeRate (number_or v 2) s);
    ("set-lowpass-enabled", fun v s => set_lowpassEnabled (js_Boolean v) s);
    ("set-lowpass-cutoff", fun v s => set_lowpassCutoff (number_or v 10) s);
    ("set-lowpass-slope", fun v s => set_lowpassSlope (number_or v 2) s);
    ("set-lowpass-resonance", fun v s =>
       set_lowpassResonance (number_or v 0.5) s);
    ("set-highpass-enabled", fun v s => set_highpassEnabled (js_Boolean v) s);
    ("set-highpass-cutoff", fun v s => set_highpassCutoff (number_or v 8) s);
    ("set-highpass-slope", fun v s => set_highpassSlope (number_or v 2) s);
    ("set-highpass-resonance", fun v s =>
       set_highpassResonance (number_or v 0.5) s);
    ("set-comb-enabled", fun v s => set_combEnabled (js_Boolean v) s);
    ("set-comb-spacing", fun v s => set_combSpacing (number_or v 4) s);
    ("set-comb-phase", fun v s => set_combPhase (number_or v 0) s);
    ("set-pwm-enabled", fun v s => set_pwmEnabled (js_Boolean v) s);
    ("set-pwm-duty", fun v s => set_pwmDuty (number_or v 0.32) s);
    ("set-wavefolder-enabled", fun v s =>
       set_wavefolderEnabled (js_Boolean v) s);
    ("set-wavefolder-fold", fun v s => set_wavefolderFold (number_or v 2.5) s);
    ("set-wavefolder-asymmetry", fun v s =>
       set_wavefolderAsymmetry (number_or v 0) s);
    ("set-barberpole-enabled", fun v s =>
       set_barberPoleEnabled (js_Boolean v) s);
    ("set-barberpole-density", fun v s =>
       set_barberPoleDensity (number_or v 6) s);
    ("set-barberpole-speed", fun v s => set_barberPoleSpeed (number_or v 3) s);
    ("set-barberpole-q", fun v s => set_barberPoleQ (number_or v 2) s);
    ("set-falling-enabled", fun v s =>
       let s := set_fallingEnabled (js_Boolean v) s in
       if fallingEnabled s
       then set_fallingLanded ∅ (set_fallingHarmonic 31%nat s)
       else s);
    ("set-falling-probability", fun v s =>
       set_fallingProbability (number_or v 0.1) s);
    ("set-vowel-enabled", fun v s => set_vowelEnabled (js_Boolean v) s);
    ("set-vowel-morph", fun v s => set_vowelMorph (number_or v 0.5) s);
    ("set-vowel-q", fun v s => set_vowelQ (number_or v 12) s);
    ("set-keyboard-pitch-enabled", fun v s =>
       set_keyboardPitchEnabled (js_Boolean v) s);
    ("set-keyboard-pitch-ratio", fun v s =>
       let s := set_prevKeyboardPitchRatio (keyboardPitchRatio s) s in
       let s := set_keyboardPitchRatio (number_or v 1) s in
       set_needsImmediateEvent true s);
    ("set-keyboard-gate-enabled", fun v s =>
       set_keyboardGateEnabled (js_Boolean v) s);
    ("set-keyboard-gate", fun v s =>
       let s := set_prevKeyboardGateOpen (keyboardGateOpen s) s in
       let s := set_keyboardGateOpen (js_Boolean v) s in
       set_needsImmediateEvent true s) ].

(** [this.messageHandlers[type]] *)
Fixpoint handler_of (type : string) (hs : list (string * (jsval -> t -> t)))
  : option (jsval -> t -> t) :=
  match hs with
  | [] => None
  | (tag, h) :: rest => if String.eqb type tag then Some h else handler_of type rest
  end.

(** [port.onmessage] for a message [{type, value}]; a type without a
    handler changes nothing. *)
Definition onmessage (type : string) (value : jsval) (s : t) : t :=
  match handler_of type messageHandlers with
  | Some h => h value s
  | None => s
  end.

(** A queue of control messages, handled in order. *)
Definition onmessages (msgs : list (string * jsval)) (s : t) : t :=
  fold_left (fun s m => onmessage m.1 m.2 s) msgs s.

End Environment.

(** The fields the animated modulators leave alone. *)
Definition kept (s : t)
  : bool * bool * list R * list (option Z) * list (option Z) * bool
    * Scheduler.t * R * bool * bool * bool * bool * R * R :=
  (ready s, started s, sineIds s, lastAmpEventSample s, lastFreqEventSample s,
   needsImmediateEvent s, scheduler s, baseFreq s,
   keyboardGateEnabled s, keyboardGateOpen s, prevKeyboardGateOpen s,
   keyboardPitchEnabled s, keyboardPitchRatio s, prevKeyboardPitchRatio s).

(** A started processor: the scheduler is the one the constructor
    allocated and [startSynth] has filled the per-partial arrays. *)
Definition allocated (s : t) : Prop :=
  length (Scheduler.ampBuffer (scheduler s))
  = Scheduler.bufferSize NUM_PARTIALS MAX_EVENTS_PER_SINE
  /\ length (Scheduler.freqBuffer (scheduler s))
     = Scheduler.bufferSize NUM_PARTIALS MAX_EVENTS_PER_SINE
  /\ Scheduler.maxEventsPerSine (scheduler s) = MAX_EVENTS_PER_SINE
  /\ length (sineIds s) = NUM_PARTIALS
  /\ length (lastAmpEventSample s) = NUM_PARTIALS
  /\ length (lastFreqEventSample s) = NUM_PARTIALS.


End Processor.

(* ===================================================================== *)
(** * Predicates and states used by the statements *)
(* ===================================================================== *)

(** Only the comb modulator is enabled, with spacing 4 and phase 0. *)
Definition comb_only (s : Processor.t) : Prop :=
  Processor.lfoEnabled s = false
  /\ Processor.randomEnabled s = false
  /\ Processor.lowpassEnabled s = false
  /\ Processor.highpassEnabled s = false
  /\ Processor.combEnabled s = true
  /\ Processor.combSpacing s = 4%R
  /\ Processor.combPhase s = 0%R
  /\ Processor.pwmEnabled s = false
  /\ Processor.wavefolderEnabled s = false
  /\ Processor.barberPoleEnabled s = false
  /\ Processor.fallingEnabled s = false
  /\ Processor.vowelEnabled s = false
  /\ Processor.keyboardGateEnabled s = false.

(** A processor on which the control surface switched off the two
    modulators that start enabled and switched on the comb. *)
Definition comb_only_state : Processor.t :=
  Processor.onmessages (fun _ => 0%R) (fun phases => phases)
    [("set-lfo-enabled", JBool false);
     ("set-random-enabled", JBool false);
     ("set-comb-enabled", JBool true)]%string
    (Processor.new true).

(** The scalar parameters whose handler falls back to a default other than
    zero: the message type, the field it assigns and the default.  (The
    handlers of [lfoAmount], [lfoOffset], [combPhase] and
    [wavefolderAsymmetry] fall back to zero.) *)
Definition scalar_defaults : list (string * (Processor.t -> R) * R) :=
  [ ("set-base-freq", Processor.baseFreq, 110);
    ("set-lfo-rate", fun s => PhaseAccumulator.rate (Processor.lfo s), 1);
    ("set-random-change-rate", Processor.randomChangeRate, 2);
    ("set-lowpass-cutoff", Processor.lowpassCutoff, 10);
    ("set-lowpass-slope", Processor.lowpassSlope, 2);
    ("set-lowpass-resonance", Processor.lowpassResonance, 0.5);
    ("set-highpass-cutoff", Processor.highpassCutoff, 8);
    ("set-highpass-slope", Processor.highpassSlope, 2);
    ("set-highpass-resonance", Processor.highpassResonance, 0.5);
    ("set-comb-spacing", Processor.combSpacing, 4);
    ("set-pwm-duty", Processor.pwmDuty, 0.32);
    ("set-wavefolder-fold", Processor.wavefolderFold, 2.5);
    ("set-barberpole-density", Processor.barberPoleDensity, 6);
    ("set-barberpole-speed", Processor.barberPoleSpeed, 3);
    ("set-barberpole-q", Processor.barberPoleQ, 2);
    ("set-falling-probability", Processor.fallingProbability, 0.1);
    ("set-vowel-morph", Processor.vowelMorph, 0.5);
    ("set-vowel-q", Processor.vowelQ, 12);
    ("set-keyboard-pitch-ratio", Processor.keyboardPitchRatio, 1) ]%R%string.

(** A payload that [Number] takes to NaN or to zero. *)
Definition falsy_number (v : jsval) : Prop :=
  js_Number v = None \/ js_Number v = Some 0%R.

(** The values of the parameters of [scalar_defaults] in a state. *)
Definition scalars (s : Processor.t) : list R :=
  map (fun e => e.1.2 s) scalar_defaults.

(** None of them is zero. *)
Definition nonzero_scalars (s : Processor.t) : Prop :=
  Forall (fun x => x <> 0%R) (scalars s).

(** A renderer that numbers the sines it adds from zero. *)
Definition number_sines (phases : list R) : list R :=
  map INR (seq 0 (length phases)).


(* ===================================================================== *)
(** * Frames of the scheduler as lists of sections *)
(* ===================================================================== *)

Module Frame.

Import Scheduler.

(** One [beginSine] ... [endSine] section of a frame: the sine, the
    override flag and the events added in between, in call order. *)
Record section : Type :=
  mkSection { sineId : R; override : bool; events : list event }.

Definition event_op (e : event) : op :=
  match e with
  | AmplitudeEvent sample value => AddAmplitudeEvent sample value
  | FrequencyEvent sample freqHz => AddFrequencyEvent sample freqHz
  end.

(** The calls of a section, and of a frame made of sections. *)
Definition section_ops (c : section) : list op :=
  BeginSine (sineId c) (override c) :: map event_op (events c) ++ [EndSine].







End Frame.

(* ===================================================================== *)
(** * Predicates on processor states and messages *)
(* ===================================================================== *)

(** The message types whose handler only overwrites the field of its
    parameter: all but [start], the two toggles that also reset state
    ([set-random-enabled], [set-falling-enabled]) and the two keyboard
    values, which also record the previous value. *)
Definition overwriting_types : list string :=
  [ "set-base-freq"; "set-lfo-enabled"; "set-lfo-rate"; "set-lfo-amount";
    "set-lfo-offset"; "set-random-change-rate"; "set-lowpass-enabled";
    "set-lowpass-cutoff"; "set-lowpass-slope"; "set-lowpass-resonance";
    "set-highpass-enabled"; "set-highpass-cutoff"; "set-highpass-slope";
    "set-highpass-resonance"; "set-comb-enabled"; "set-comb-spacing";
    "set-comb-phase"; "set-pwm-enabled"; "set-pwm-duty";
    "set-wavefolder-enabled"; "set-wavefolder-fold";
    "set-wavefolder-asymmetry"; "set-barberpole-enabled";
    "set-barberpole-density"; "set-barberpole-speed"; "set-barberpole-q";
    "set-falling-probability"; "set-vowel-enabled"; "set-vowel-morph";
    "set-vowel-q"; "set-keyboard-pitch-enabled";
    "set-keyboard-gate-enabled" ]%string.

(** The state of the falling-harmonics modulator as [updateFallingHarmonics]
    keeps it: the migrating index is between 1 and 31 and the landed set is
    [{0, ..., k-1}] for some [k <= 31]. *)
Definition falling_ok (s : Processor.t) : Prop :=
  (1 <= Processor.fallingHarmonic s <= 31)%nat
  /\ exists k : nat,
      (k <= 31)%nat /\ Processor.fallingLanded s = set_seq 0 k.

(* ===================================================================== *)
(** * The processor over a session *)
(* ===================================================================== *)

(** What the audio thread runs on the processor, one after the other: the
    handler of a control message, or [process] on a render block. *)
Inductive input : Type :=
| Message (type : string) (value : jsval)
| Block (hasOutput : bool) (blockSize : nat) (currentSample : Z).

Section Session.

Variable sampleRate : R.
Variable Math_pow : R -> R -> R.
Variable Math_random : nat -> R.
Variable add_sines : list R -> list R.

Definition handle (i : input) (s : Processor.t) : Processor.t :=
  match i with
  | Message type value => Processor.onmessage Math_random add_sines type value s
  | Block hasOutput blockSize currentSample =>
      Processor.process sampleRate Math_pow Math_random
                        hasOutput blockSize currentSample s
  end.

Definition run_inputs (ins : list input) (s : Processor.t) : Processor.t :=
  fold_left (fun s i => handle i s) ins s.

End Session.

(** The fields the control messages set (the LFO by its rate), with the
    flags and the ids [start] sets. *)
Definition parameters (s : Processor.t) :=
  (Processor.ready s, Processor.started s, Processor.sineIds s,
   Processor.baseFreq s,
   (Processor.lfoEnabled s, PhaseAccumulator.rate (Processor.lfo s),
    Processor.lfoAmount s, Processor.lfoOffset s),
   (Processor.randomEnabled s, Processor.randomChangeRate s),
   (Processor.lowpassEnabled s, Processor.lowpassCutoff s,
    Processor.lowpassSlope s, Processor.lowpassResonance s),
   (Processor.highpassEnabled s, Processor.highpassCutoff s,
    Processor.highpassSlope s, Processor.highpassResonance s),
   (Processor.combEnabled s, Processor.combSpacing s, Processor.combPhase s),
   (Processor.pwmEnabled s, Processor.pwmDuty s),
   (Processor.wavefolderEnabled s, Processor.wavefolderFold s,
    Processor.wavefolderAsymmetry s),
   (Processor.barberPoleEnabled s, Processor.barberPoleDensity s,
    Processor.barberPoleSpeed s, Processor.barberPoleQ s),
   (Processor.fallingEnabled s, Processor.fallingProbability s),
   (Processor.vowelEnabled s, Processor.vowelMorph s, Processor.vowelQ s),
   (Processor.keyboardPitchEnabled s, Processor.keyboardPitchRatio s,
    Processor.keyboardGateEnabled s, Processor.keyboardGateOpen s)).

(** The buffers and the arrays of a processor as the constructor and
    [startSynth] size them: the arrays are empty until [started] is set. *)
Definition well_allocated (s : Processor.t) : Prop :=
  length (Scheduler.ampBuffer (Processor.scheduler s))
  = Scheduler.bufferSize Processor.NUM_PARTIALS Processor.MAX_EVENTS_PER_SINE
  /\ length (Scheduler.freqBuffer (Processor.scheduler s))
     = Scheduler.bufferSize Processor.NUM_PARTIALS
                            Processor.MAX_EVENTS_PER_SINE
  /\ Scheduler.maxEventsPerSine (Processor.scheduler s)
     = Processor.MAX_EVENTS_PER_SINE
  /\ if Processor.started s
     then length (Processor.sineIds s) = Processor.NUM_PARTIALS
          /\ length (Processor.lastAmpEventSample s) = Processor.NUM_PARTIALS
          /\ length (Processor.lastFreqEventSample s) = Processor.NUM_PARTIALS
     else Processor.lastAmpEventSample s = []
          /\ Processor.lastFreqEventSample s = [].

(** The values of the random modulator are in range: 32 of them, each in
    [-1, 1]. *)
Definition random_ok (s : Processor.t) : Prop :=
  length (Processor.randomValues s) = Processor.NUM_PARTIALS
  /\ Forall (fun v => (-1 <= v <= 1)%R) (Processor.randomValues s).


(* ===================================================================== *)
(** * What the scheduling loop of [process] writes *)
(* ===================================================================== *)

Section Scheduled.

Import Processor.
Local Open Scope R_scope.

Variable sampleRate : R.
Variable Math_pow : R -> R -> R.

(** The timestamps the [while] loop of a stream visits when its cursor is
    [last]: from [firstSample] on, one per [EVENT_INTERVAL], up to
    [targetSample]. *)
Definition stamps (currentSample targetSample : Z) (last : option Z) : list Z :=
  let first := firstSample currentSample last in
  Tracker.ticks first EVENT_INTERVAL
                (Tracker.count first targetSample EVENT_INTERVAL).

(** The cursor the loop leaves: the last timestamp visited, or [last] when
    there is none. *)
Definition next_cursor (currentSample targetSample : Z) (last : option Z)
  : option Z :=
  let first := firstSample currentSample last in
  Tracker.cursor_after first EVENT_INTERVAL
                       (Tracker.count first targetSample EVENT_INTERVAL) last.



(** The scheduler calls of one iteration of the scheduling loop, as a
    section: amplitude events first, then frequency events. *)
Definition scheduled_section (currentSample targetSample : Z) (s : t)
           (lastAmp lastFreq : option Z) (i : nat) : Frame.section :=
  Frame.mkSection
    (nth i (sineIds s) 0) false
    (map (fun ts : Z =>
            Scheduler.AmplitudeEvent
              (IZR ts)
              (combinedAmplitude sampleRate Math_pow (ts - currentSample) i s
               / 16))
         (stamps currentSample targetSample lastAmp)
     ++ map (fun ts : Z =>
               Scheduler.FrequencyEvent
                 (IZR ts)
                 (baseFreq s * evaluateKeyboardPitch s * INR (i + 1)))
            (stamps currentSample targetSample lastFreq)).

(** The calls of one iteration of the injection loop, as a section. *)
Definition injected_section (currentSample : Z) (s : t) (i : nat)
  : Frame.section :=
  let base := baseAmplitude sampleRate Math_pow i s in
  let rampSample := (currentSample + KEYBOARD_RAMP_SAMPLES)%Z in
  Frame.mkSection
    (nth i (sineIds s) 0) true
    [ Scheduler.AmplitudeEvent (IZR currentSample)
                               (base * prevGateValue s / 16);
      Scheduler.AmplitudeEvent (IZR rampSample)
                               (base * evaluateKeyboardGate s / 16);
      Scheduler.FrequencyEvent (IZR currentSample)
                               (baseFreq s * prevPitchMod s * INR (i + 1));
      Scheduler.FrequencyEvent (IZR rampSample)
                               (baseFreq s * evaluateKeyboardPitch s
                                * INR (i + 1)) ].

End Scheduled.

(* ===================================================================== *)
(** * The MIDI input of the control surface (main.js) *)
(* ===================================================================== *)

Module Midi.

Local Open Scope Z_scope.

Definition BASE_NOTE : Z := 69.

(** The state the MIDI functions use: the stack of held notes, the channel
    selection ([None] for 'all', else the number [parseInt] reads from the
    selected value) and whether [workletNode] is set. *)
Record t : Type :=
  mk { midiNoteStack : list Z; selectedMidiChannel : option Z;
       workletNode : bool }.

(** [Math.pow(2, (note - BASE_NOTE) / 12)] *)
Definition noteToPitchRatio (note : Z) : R :=
  Rpower 2 ((IZR note - IZR BASE_NOTE) / 12).

(** [if (workletNode) workletNode.port.postMessage(...)] for each message
    of [msgs]. *)
Definition post (m : t) (msgs : list (string * jsval))
  : list (string * jsval) :=
  if workletNode m then msgs else [].

(** [updateFromMidi()]: the messages it posts (the note display is left
    out). *)
Definition updateFromMidi (m : t) : list (string * jsval) :=
  match last (midiNoteStack m) with
  | Some note =>
      post m [ ("set-keyboard-pitch-ratio"%string,
                JNumber (noteToPitchRatio note));
               ("set-keyboard-gate"%string, JBool true) ]
  | None => post m [ ("set-keyboard-gate"%string, JBool false) ]
  end.

(** [handleMidiMessage(event)] for [event.data = [status, note, velocity]]:
    the new state and the messages posted. *)
Definition handleMidiMessage (status note velocity : Z) (m : t)
  : t * list (string * jsval) :=
  let command := Z.land status 240 in
  let channel := Z.land status 15 in
  if match selectedMidiChannel m with
     | Some selected => negb (channel =? selected)
     | None => false
     end
  then (m, [])
  else if (command =? 144) && (0 <? velocity)
  then
    let m := mk (midiNoteStack m ++ [note]) (selectedMidiChannel m)
                (workletNode m) in
    (m, updateFromMidi m)
  else if (command =? 128) || ((command =? 144) && (velocity =? 0))
  then
    let m := mk (filter (fun n => n <> note) (midiNoteStack m))
                (selectedMidiChannel m) (workletNode m) in
    (m, updateFromMidi m)
  else (m, []).

(** A sequence of MIDI events, with all the messages posted, in order. *)
Fixpoint handleMidiMessages (events : list (Z * Z * Z)) (m : t)
  : t * list (string * jsval) :=
  match events with
  | [] => (m, [])
  | (status, note, velocity) :: rest =>
      let '(m1, out1) := handleMidiMessage status note velocity m in
      let '(m2, out2) := handleMidiMessages rest m1 in
      (m2, out1 ++ out2)
  end.

(** The event is a note-on or a note-off for [note] that the channel
    filter lets through. *)
Definition note_on (status velocity : Z) : Prop :=
  Z.land status 240 = 144 /\ 0 < velocity.

Definition note_off (status velocity : Z) : Prop :=
  Z.land status 240 = 128 \/ (Z.land status 240 = 144 /\ velocity = 0).

Definition on_channel (status : Z) (m : t) : Prop :=
  match selectedMidiChannel m with
  | Some selected => Z.land status 15 = selected
  | None => True
  end.

End Midi.

(* ===================================================================== *)
(** * The TextEncoder / TextDecoder polyfill (textencoder.js) *)
(* ===================================================================== *)

Module Text.

Local Open Scope Z_scope.

(** A string as its UTF-16 code units, a [Uint8Array] as its bytes. *)
Definition js_string : Type := list Z.
Definition bytes : Type := list Z.

Definition code_unit (c : Z) : Prop := 0 <= c < 65536.
Definition byte (b : Z) : Prop := 0 <= b < 256.

(** [arr[i] = x] on a [Uint8Array]: the value modulo 256. *)
Definition to_uint8 (x : Z) : Z := x mod 256.

(** [TextEncoder.encode(str)] *)
Definition encode (str : js_string) : bytes := map to_uint8 str.

(** What [TextDecoder.decode] is given: [null] or [undefined], a string,
    or bytes (an [ArrayBuffer] or another typed array is first viewed as
    its bytes). *)
Inductive decode_input : Type :=
| DNull
| DString (str : js_string)
| DBytes (bs : bytes).

(** [TextDecoder.decode(bytes)] *)
Definition decode (input : decode_input) : js_string :=
  match input with
  | DNull => []
  | DString str => str
  | DBytes bs => map (fun b => Z.land b 255) bs
  end.

End Text.

(* ===================================================================== *)
(** * States used by the examples *)
(* ===================================================================== *)

(** A processor right after [start]. *)
Definition started_state : Processor.t :=
  Processor.onmessages (fun _ => 0.5%R) number_sines
    [("start", JUndefined)]%string (Processor.new true).


(* ===================================================================== *)
(** * Properties of the EventTimestampTracker *)
(* ===================================================================== *)

Section TrackerFacts.

Import Tracker.
Local Open Scope Z_scope.

(** The write-back at the end of the generator stores [lastGenerated],
    whether or not the comparison finds it changed. *)
Lemma commit_eq (lg : option Z) (tr : t) :
  (if decide (lg = lastSample tr) then tr else mk lg (interval tr))
  = mk lg (interval tr).
Proof.
  destruct (decide (lg = lastSample tr)) as [->|]; [|reflexivity].
  destruct tr; reflexivity.
Qed.

Lemma count_zero (start tgt step : Z) :
  0 < step -> count start tgt step = O -> tgt < start.
Proof.
  unfold count. intros Hs.
  rewrite Z.gtb_ltb. destruct (Z.ltb_spec tgt start) as [|Hle]; [lia|].
  intros H. assert (0 <= (tgt - start) / step) by (apply Z.div_pos; lia). lia.
Qed.

Lemma count_succ (start tgt step : Z) (n : nat) :
  0 < step -> count start tgt step = S n ->
  start <= tgt /\ count (start + step) tgt step = n.
Proof.
  unfold count. intros Hs.
  rewrite !Z.gtb_ltb.
  destruct (Z.ltb_spec tgt start) as [|Hle]; [discriminate|].
  intros H. split; [lia|].
  destruct (Z.ltb_spec tgt (start + step)) as [Hlt|Hge].
  - rewrite Z.div_small in H by lia. simpl in H. lia.
  - replace (tgt - start) with ((tgt - (start + step)) + 1 * step) in H by lia.
    rewrite Z.div_add in H by lia.
    assert (0 <= (tgt - (start + step)) / step) by (apply Z.div_pos; lia).
    lia.
Qed.

(** A generator about to test its loop at [sample] runs to its end, given
    one unit of fuel per remaining event and one more. *)
Lemma drain_loop (tr : t) (tgt : Z) :
  0 < interval tr ->
  forall (n fuel : nat) (sample : Z) (lg : option Z),
    count sample tgt (interval tr) = n ->
    (n <= fuel)%nat ->
    match loop_test sample lg tgt tr with
    | (tr', g', Some v) =>
        match drain fuel g' tr' with
        | Some (l, tr'') => Some (v :: l, tr'')
        | None => None
        end
    | (tr', _, None) => Some ([], tr')
    end
    = Some (ticks sample (interval tr) n,
            mk (cursor_after sample (interval tr) n lg) (interval tr)).
Proof.
  intros Hpos n. induction n as [|n IH]; intros fuel sample lg Hc Hf.
  - apply count_zero in Hc; [|assumption].
    unfold loop_test. destruct (Z.leb_spec sample tgt); [lia|].
    rewrite commit_eq. reflexivity.
  - apply count_succ in Hc; [|assumption]. destruct Hc as [Hle Hc].
    unfold loop_test at 1. destruct (Z.leb_spec sample tgt); [|lia].
    destruct fuel as [|fuel]; [lia|].
    cbn [drain next].
    rewrite (IH fuel (sample + interval tr) (Some sample) Hc) by lia.
    cbn [ticks cursor_after]. do 3 f_equal.
    destruct n as [|n]; cbn [cursor_after]; f_equal; lia.
Qed.

(** Fully consuming [generateSamples] with enough fuel. *)
Lemma drain_start (tr : t) (b tgt : Z) (fuel : nat) :
  0 < interval tr ->
  (count (start_of b tr) tgt (interval tr) < fuel)%nat ->
  drain fuel (GStart b tgt) tr
  = Some (ticks (start_of b tr) (interval tr)
                (count (start_of b tr) tgt (interval tr)),
          mk (cursor_after (start_of b tr) (interval tr)
                           (count (start_of b tr) tgt (interval tr))
                           (lastSample tr))
             (interval tr)).
Proof.
  intros Hpos Hf. destruct fuel as [|fuel]; [lia|].
  cbn [drain next]. fold (start_of b tr).
  apply drain_loop; [assumption|reflexivity|lia].
Qed.

Lemma countEvents_count (b tgt : Z) (tr : t) :
  0 < interval tr ->
  (countEvents b tgt tr).1 = Z.of_nat (count (start_of b tr) tgt (interval tr)).
Proof.
  intros Hpos. unfold countEvents, count. fold (start_of b tr).
  rewrite Z.gtb_ltb. destruct (Z.ltb_spec tgt (start_of b tr)); cbn [fst].
  - reflexivity.
  - assert (0 <= (tgt - start_of b tr) / interval tr) by (apply Z.div_pos; lia).
    lia.
Qed.

Lemma getSamples_eq (b tgt : Z) (tr : t) :
  0 < interval tr ->
  getSamples b tgt tr
  = Some (ticks (start_of b tr) (interval tr)
                (count (start_of b tr) tgt (interval tr)),
          mk (cursor_after (start_of b tr) (interval tr)
                           (count (start_of b tr) tgt (interval tr))
                           (lastSample tr))
             (interval tr)).
Proof.
  intros Hpos. unfold getSamples. apply drain_start; [assumption|].
  rewrite countEvents_count by assumption. lia.
Qed.









(** A [next()] that yields a value writes nothing back: the cursor moves
    only when the generator finishes, so a generator abandoned before its
    end leaves the tracker as it found it. *)
Lemma next_yield_keeps_tracker (g : gen) (tr tr' : t) (g' : gen) (v : Z) :
  next g tr = (tr', g', Some v) -> tr' = tr.
Proof.
  destruct g as [b tgt | sample lg tgt |]; cbn [next]; unfold loop_test;
    try discriminate;
    destruct (_ <=? _); intros [= <- _ _]; reflexivity.
Qed.




End TrackerFacts.


(* ===================================================================== *)
(** * Properties of the SineEventScheduler *)
(* ===================================================================== *)

Section SchedulerFacts.

Import Scheduler.

(** C5: on any scheduler whose buffer has room for seven cells and whose
    cap is at least two (a freshly constructed one with at least one sine,
    or a used one), [beginFrame(); beginSine(5); addAmplitudeEvent(100, 0.5);
    addAmplitudeEvent(228, 0.3); endSine()] leaves
    [5, 2, 0, 100, 0.5, 228, 0.3] as the written prefix of the amplitude
    buffer. *)
Theorem scheduler_encoding_example (s : t) :
  7 <= length (ampBuffer s) ->
  2 <= maxEventsPerSine s ->
  getAmplitudeBuffer
    (run [BeginFrame; BeginSine 5 false; AddAmplitudeEvent 100 0.5;
          AddAmplitudeEvent 228 0.3; EndSine] s).1
  = [5; 2; 0; 100; 0.5; 228; 0.3]%R.
Proof.
  destruct s as [ab fb ao fo id aci fci ac fc cap]. cbn [ampBuffer maxEventsPerSine].
  intros Hlen Hcap.
  destruct cap as [|[|cap]]; [lia|lia|].
  destruct ab as [|a0 [|a1 [|a2 [|a3 [|a4 [|a5 [|a6 ab]]]]]]];
    cbn [length] in Hlen; try lia.
  cbn. reflexivity.
Qed.

Lemma scheduler_encoding_example_witness :
  7 <= length (ampBuffer (new 32 (Some 8)))
  /\ 2 <= maxEventsPerSine (new 32 (Some 8))
  /\ getAmplitudeBuffer
       (run [BeginFrame; BeginSine 5 false; AddAmplitudeEvent 100 0.5;
             AddAmplitudeEvent 228 0.3; EndSine] (new 32 (Some 8))).1
     = [5; 2; 0; 100; 0.5; 228; 0.3]%R.
Proof.
  assert (H1 : 7 <= length (ampBuffer (new 32 (Some 8)))) by (vm_compute; lia).
  assert (H2 : 2 <= maxEventsPerSine (new 32 (Some 8))) by (vm_compute; lia).
  split; [exact H1|]. split; [exact H2|].
  exact (scheduler_encoding_example (new 32 (Some 8)) H1 H2).
Defined.


(** While the cap is not reached every [addAmplitudeEvent] succeeds and
    counts one event, whatever frequency events come in between. *)
Lemma addEvents_below_cap (evs : list event) :
  forall s : t,
    currentAmpCount s + amplitude_events evs <= maxEventsPerSine s ->
    Forall (fun r => r.1 = Amp -> r.2 = true) (addEvents evs s).1
    /\ currentAmpCount (addEvents evs s).2
       = currentAmpCount s + amplitude_events evs
    /\ maxEventsPerSine (addEvents evs s).2 = maxEventsPerSine s.
Proof.
  induction evs as [|[sample value | sample freqHz] evs IH]; intros s Hle.
  - cbn. repeat split; [constructor|lia].
  - cbn [amplitude_events] in Hle. cbn [addEvents amplitude_events].
    unfold addAmplitudeEvent.
    destruct (Nat.leb_spec (maxEventsPerSine s) (currentAmpCount s)); [lia|].
    match goal with
    | |- context [addEvents evs ?s1] =>
        destruct (IH s1) as (Hok & Hcnt & Hcap); [cbn; lia|];
        destruct (addEvents evs s1) as [oks s2]
    end.
    cbn in *. rewrite Hcnt, Hcap. repeat split; [|lia].
    constructor; [reflexivity|exact Hok].
  - cbn [amplitude_events] in Hle. cbn [addEvents amplitude_events].
    unfold addFrequencyEvent.
    destruct (Nat.leb_spec (maxEventsPerSine s) (currentFreqCount s)).
    + destruct (IH s Hle) as (Hok & Hcnt & Hcap).
      destruct (addEvents evs s) as [oks s2].
      cbn in *. repeat split; [|assumption..].
      constructor; [discriminate|exact Hok].
    + match goal with
      | |- context [addEvents evs ?s1] =>
          destruct (IH s1) as (Hok & Hcnt & Hcap); [cbn; lia|];
          destruct (addEvents evs s1) as [oks s2]
      end.
      cbn in *. rewrite Hcnt, Hcap. repeat split.
      constructor; [discriminate|exact Hok].
Qed.

(** C6: in a section opened by [beginSine], with frequency events added in
    any order in between, the first [maxEventsPerSine] calls of
    [addAmplitudeEvent] each return true; the next one returns false,
    stores nothing and leaves every field of the scheduler as it was. *)
Theorem add_beyond_cap_rejected
        (s : t) (sineId : R) (override : bool) (evs : list event)
        (sample value : R) :
  amplitude_events evs = maxEventsPerSine s ->
  Forall (fun r => r.1 = Amp -> r.2 = true)
         (addEvents evs (beginSine sineId override s).1).1
  /\ addAmplitudeEvent sample value
       (addEvents evs (beginSine sineId override s).1).2
     = (false, (addEvents evs (beginSine sineId override s).1).2, []).
Proof.
  intros Hlen.
  destruct (addEvents_below_cap evs (beginSine sineId override s).1)
    as (Hok & Hcnt & Hcap); [cbn; lia|].
  split; [exact Hok|].
  unfold addAmplitudeEvent at 1. rewrite Hcnt, Hcap. cbn.
  destruct (Nat.leb_spec (maxEventsPerSine s) (amplitude_events evs));
    [reflexivity|lia].
Qed.

Lemma add_beyond_cap_rejected_witness :
  let s := new 1 (Some 2) in
  let evs := [AmplitudeEvent 100 0.5; FrequencyEvent 100 440;
              AmplitudeEvent 228 0.3]%R in
  amplitude_events evs = maxEventsPerSine s
  /\ (addEvents evs (beginSine 5 false s).1).1
     = [(Amp, true); (Freq, true); (Amp, true)]
  /\ addAmplitudeEvent 356 0.1 (addEvents evs (beginSine 5 false s).1).2
     = (false, (addEvents evs (beginSine 5 false s).1).2, []).
Proof.
  intros s evs. split; [reflexivity|]. split; [reflexivity|].
  apply (add_beyond_cap_rejected s 5%R false evs 356%R 0.1%R). reflexivity.
Defined.

(** ** Stores and the capacity *)

Lemma writes_below_app (bound : nat) (w1 w2 : writes) :
  writes_below bound w1 -> writes_below bound w2 -> writes_below bound (w1 ++ w2).
Proof.
  intros H1 H2 b i Hin. apply in_app_or in Hin. destruct Hin; eauto.
Qed.

Lemma section_inv_offsets (k : nat) (s : t) :
  section_inv k s -> offsets_within k s.
Proof. unfold section_inv, offsets_within. lia. Qed.

Lemma beginSine_inv (k : nat) (s : t) (sineId : R) (override : bool) :
  offsets_within k s ->
  section_inv (S k) (beginSine sineId override s).1
  /\ writes_below (S k * cells s) (beginSine sineId override s).2
  /\ cells (beginSine sineId override s).1 = cells s.
Proof.
  unfold offsets_within, section_inv, cells. cbn. intros [Ha Hf].
  split; [lia|]. split; [|reflexivity].
  intros b i Hin. cbn in Hin.
  repeat (destruct Hin as [Hin|Hin]; [inversion Hin; subst; lia|]).
  destruct Hin.
Qed.

Lemma add_end_inv (k : nat) (s : t) (o : op) :
  is_beginSine o = false -> is_beginFrame o = false ->
  section_inv k s ->
  section_inv k (step o s).1
  /\ writes_below (k * cells s) (step o s).2
  /\ cells (step o s).1 = cells s.
Proof.
  intros Hs Hf. unfold section_inv, cells.
  intros (Hac & Hfc & Ha & Hfr & Hai & Hfi).
  destruct o as [| | sample value | sample freqHz |]; try discriminate; cbn [step].
  - unfold addAmplitudeEvent.
    destruct (Nat.leb_spec (maxEventsPerSine s) (currentAmpCount s)); cbn.
    + split; [lia|]. split; [intros b i []|reflexivity].
    + split; [lia|]. split; [|reflexivity].
      intros b i Hin.
      repeat (destruct Hin as [Hin|Hin]; [inversion Hin; subst; lia|]).
      destruct Hin.
  - unfold addFrequencyEvent.
    destruct (Nat.leb_spec (maxEventsPerSine s) (currentFreqCount s)); cbn.
    + split; [lia|]. split; [intros b i []|reflexivity].
    + split; [lia|]. split; [|reflexivity].
      intros b i Hin.
      repeat (destruct Hin as [Hin|Hin]; [inversion Hin; subst; lia|]).
      destruct Hin.
  - cbn. split; [lia|]. split; [|reflexivity].
    intros b i Hin.
    repeat (destruct Hin as [Hin|Hin]; [inversion Hin; subst; lia|]).
    destruct Hin.
Qed.

Lemma writes_below_le (b1 b2 : nat) (w : writes) :
  b1 <= b2 -> writes_below b1 w -> writes_below b2 w.
Proof. intros Hle H b i Hin. specialize (H b i Hin). lia. Qed.

(** From inside a section, the rest of a frame stays below the cells of
    the sections it opens. *)
Lemma run_section_inv (maxSines : nat) (ops : list op) :
  forall (k : nat) (s : t),
    forallb (fun o => negb (is_beginFrame o)) ops = true ->
    k + sines_begun ops <= maxSines ->
    section_inv k s ->
    writes_below (maxSines * cells s) (run ops s).2.
Proof.
  induction ops as [|o ops IH]; intros k s Hnf Hk Hinv.
  - intros b i [].
  - cbn [forallb] in Hnf. apply andb_prop in Hnf. destruct Hnf as [Ho Hnf].
    apply negb_true_iff in Ho.
    cbn [run sines_begun] in *.
    destruct (is_beginSine o) eqn:Hbs.
    + destruct o; try discriminate. cbn [step].
      destruct (beginSine_inv k s sineId override (section_inv_offsets _ _ Hinv))
        as (Hinv' & Hw & Hc).
      destruct (beginSine sineId override s) as [s1 w1]. cbn [fst snd] in *.
      specialize (IH (S k) s1 Hnf ltac:(lia) Hinv'). rewrite Hc in IH.
      destruct (run ops s1) as [s2 w2]. cbn [snd] in *.
      apply writes_below_app; [|exact IH].
      eapply writes_below_le; [|exact Hw].
      apply Nat.mul_le_mono_r. lia.
    + destruct (add_end_inv k s o Hbs Ho Hinv) as (Hinv' & Hw & Hc).
      destruct (step o s) as [s1 w1]. cbn [fst snd] in *.
      specialize (IH k s1 Hnf ltac:(lia) Hinv'). rewrite Hc in IH.
      destruct (run ops s1) as [s2 w2]. cbn [snd] in *.
      apply writes_below_app; [|exact IH].
      eapply writes_below_le; [|exact Hw].
      apply Nat.mul_le_mono_r. lia.
Qed.

(** C7 as stated fails: a scheduler for one sine with one event has five
    cells per buffer, and a second [beginSine] in the same frame stores its
    override flag at index 5. *)
Lemma second_beginSine_stores_past_capacity :
  bufferSize 1 1 = 5
  /\ length (ampBuffer (new 1 (Some 1))) = 5
  /\ In (Amp, 5)
        (run [BeginFrame; BeginSine 7 false; BeginSine 9 false]
             (new 1 (Some 1))).2.
Proof.
  split; [reflexivity|]. split; [reflexivity|].
  cbn. right. right. right. right. right. left. reflexivity.
Qed.

(** C7, amended: in a frame that opens at most [maxSines] sections with
    [beginSine], and adds or closes nothing before the first of them, every
    store of [beginSine], [addAmplitudeEvent], [addFrequencyEvent] and
    [endSine] goes to an index below [maxSines * (3 + maxEventsPerSine * 2)],
    whatever the scheduler held before the frame. *)
Theorem frame_stores_within_capacity
        (maxSines : nat) (s : t) (ops : list op) :
  frame_body ops = true ->
  sines_begun ops <= maxSines ->
  forall (b : buf) (i : nat),
    In (b, i) (run (BeginFrame :: ops) s).2 ->
    i < bufferSize maxSines (maxEventsPerSine s).
Proof.
  unfold frame_body. intros Hfb Hn.
  apply andb_prop in Hfb. destruct Hfb as [Hnf Hhd].
  change (writes_below (bufferSize maxSines (maxEventsPerSine s))
                       (run (BeginFrame :: ops) s).2).
  cbn [run step]. unfold beginFrame.
  match goal with
  | |- context [run ops ?s0] => set (s1 := s0)
  end.
  assert (Hoff : offsets_within 0 s1) by (unfold offsets_within, s1; cbn; lia).
  assert (Hcells : bufferSize maxSines (maxEventsPerSine s) = maxSines * cells s1)
    by reflexivity.
  rewrite Hcells. clearbody s1.
  destruct ops as [|o ops].
  - cbn. intros b i [].
  - destruct o; try discriminate.
    cbn [forallb] in Hnf. apply andb_prop in Hnf. destruct Hnf as [_ Hnf].
    cbn [sines_begun is_beginSine] in Hn.
    cbn [run step].
    destruct (beginSine_inv 0 s1 sineId override Hoff) as (Hinv & Hw & Hc).
    destruct (beginSine sineId override s1) as [s2 w2]. cbn [fst snd] in *.
    pose proof (run_section_inv maxSines ops 1 s2 Hnf ltac:(lia) Hinv) as Hrest.
    rewrite Hc in Hrest.
    destruct (run ops s2) as [s3 w3]. cbn [snd app] in *.
    apply writes_below_app; [|exact Hrest].
    eapply writes_below_le; [|exact Hw].
    apply Nat.mul_le_mono_r. lia.
Qed.

Lemma frame_stores_within_capacity_witness :
  let ops := [BeginSine 7 false; AddAmplitudeEvent 100 0.5;
              AddAmplitudeEvent 228 0.3; AddFrequencyEvent 100 440;
              EndSine]%R in
  frame_body ops = true
  /\ sines_begun ops <= 1
  /\ forall (b : buf) (i : nat),
       In (b, i) (run (BeginFrame :: ops) (new 1 (Some 1))).2 ->
       i < bufferSize 1 (maxEventsPerSine (new 1 (Some 1))).
Proof.
  intros ops. split; [reflexivity|]. split; [cbn; lia|].
  apply (frame_stores_within_capacity 1 (new 1 (Some 1)) ops);
    [reflexivity|cbn; lia].
Defined.

End SchedulerFacts.


(* ===================================================================== *)
(** * Properties of the PhaseAccumulator *)
(* ===================================================================== *)

Section PhaseFacts.

Import PhaseAccumulator.
Local Open Scope R_scope.

(** [%] by 1 on a non-negative number gives its fractional part. *)
Lemma js_rem_1_nonneg (x : R) : 0 <= x -> 0 <= js_rem x 1 < 1.
Proof.
  intros Hx. unfold js_rem, Rtrunc.
  replace (x / 1) with x by field.
  destruct (Rle_dec 0 x) as [_|Hn]; [|contradiction].
  destruct (base_Int_part x) as [H1 H2]. lra.
Qed.

(** On a negative number the remainder keeps the sign. *)
Lemma js_rem_1_neg_half : js_rem (- (1 / 2)) 1 = - (1 / 2).
Proof.
  unfold js_rem, Rtrunc.
  replace (- (1 / 2) / 1) with (- (1 / 2)) by field.
  destruct (Rle_dec 0 (- (1 / 2))) as [Hp|_]; [lra|].
  replace (Int_part (- - (1 / 2))) with 0%Z.
  - change (- 0)%Z with 0%Z. lra.
  - apply Int_part_spec. lra.
Qed.

Lemma run_sinAt_calls (qs : list (Z * R * option R)) (p : t) :
  run (sinAt_calls qs) p = p.
Proof.
  revert p. induction qs as [|q qs IH]; intros p; [reflexivity|].
  cbn. apply IH.
Qed.

(** C8: [sinAt] leaves phase, rate and lastSample as they are; a repeated
    call with the same arguments returns the same value; and after any
    number of [sinAt] calls [advance] returns the phase and leaves the
    state that it would have without them. *)
Theorem sinAt_pure_and_advance_unaffected :
  (forall (p : t) (sampleOffset : Z) (sampleRate : R) (phaseOffset : option R),
      (sinAt sampleOffset sampleRate phaseOffset p).2 = p
      /\ (sinAt sampleOffset sampleRate phaseOffset
                (sinAt sampleOffset sampleRate phaseOffset p).2).1
         = (sinAt sampleOffset sampleRate phaseOffset p).1)
  /\ (forall (p : t) (qs : list (Z * R * option R))
             (currentSample : Z) (sampleRate : R),
         advance currentSample sampleRate (run (sinAt_calls qs) p)
         = advance currentSample sampleRate p).
Proof.
  split.
  - intros p off sr po. split; reflexivity.
  - intros p qs c sr. rewrite run_sinAt_calls. reflexivity.
Qed.

(** C9 fails on the code: with a negative rate [advance] leaves a negative
    phase.  From a new accumulator, [setRate(-1)] and then
    [advance(24000, 48000)] give [getPhase() = -0.5]. *)
Theorem negative_rate_phase_below_zero :
  getPhase (run [SetRate (-1); Advance 24000 48000] (new None)) = - (1 / 2)
  /\ ~ (0 <= getPhase (run [SetRate (-1); Advance 24000 48000] (new None)) < 1).
Proof.
  assert (H : getPhase (run [SetRate (-1); Advance 24000 48000] (new None))
              = - (1 / 2)).
  { cbn. change (0 <? 24000 - 0)%Z with true. change (24000 - 0)%Z with 24000%Z.
    cbv iota.
    replace (0 + 24000 / 48000 * -1) with (- (1 / 2)) by field.
    apply js_rem_1_neg_half. }
  split; [exact H|]. rewrite H. lra.
Qed.

(** So does [resetPhase] on a negative argument. *)
Lemma resetPhase_negative_phase :
  getPhase (resetPhase (Some (- (1 / 2))) (new None)) = - (1 / 2).
Proof. cbn. apply js_rem_1_neg_half. Qed.

Lemma step_normalized (o : op) (p : t) :
  nonneg_op o -> normalized p -> normalized (step o p).
Proof.
  unfold normalized. intros Ho [Hp Hr].
  destruct o as [r | c sr | off sr po | ph]; cbn in *.
  - split; assumption.
  - split; [|assumption].
    destruct (Z.ltb_spec 0 (c - lastSample p)) as [Hd|Hd]; [|assumption].
    apply js_rem_1_nonneg.
    assert (0 < IZR (c - lastSample p)) by (apply IZR_lt; assumption).
    assert (0 <= IZR (c - lastSample p) / sr)
      by (apply Rlt_le, Rdiv_lt_0_compat; assumption).
    assert (0 <= IZR (c - lastSample p) / sr * rate p)
      by (apply Rmult_le_pos; assumption).
    lra.
  - split; assumption.
  - split; [|assumption]. apply js_rem_1_nonneg. assumption.
Qed.

(** With rates, sample rates and phase arguments that are not negative the
    phase does stay in [0, 1). *)
Lemma run_normalized (ops : list op) (p : t) :
  Forall nonneg_op ops -> normalized p -> 0 <= getPhase (run ops p) < 1.
Proof.
  intros Hops. revert p. induction Hops as [|o ops Ho _ IH]; intros p Hp.
  - exact (proj1 Hp).
  - cbn. apply IH, step_normalized; assumption.
Qed.

End PhaseFacts.


(* ===================================================================== *)
(** * Properties of the processor *)
(* ===================================================================== *)

Section ProcessorFacts.

Import Processor.
Local Open Scope R_scope.

Variable sampleRate : R.
Variable Math_pow : R -> R -> R.
Variable Math_random : nat -> R.
Variable add_sines : list R -> list R.
Variable wasm_init_ok : bool.

Lemma combinedAmplitude_comb_only (s : t) (sampleOffset : Z) (i : nat) :
  comb_only s ->
  combinedAmplitude sampleRate Math_pow sampleOffset i s
  = 0.5 + 0.5 * cos (INR (i + 1) * PI / 4).
Proof.
  intros (Hlfo & Hrnd & Hlp & Hhp & Hc & Hsp & Hph & Hpwm & Hwf & Hbp & Hfall
          & Hv & Hg).
  unfold combinedAmplitude, evaluateLfo, evaluateRandom, evaluateLowpass,
    evaluateHighpass, evaluateComb, evaluatePwm, evaluateWavefolder,
    evaluateBarberPole, evaluateFalling, evaluateVowel, evaluateKeyboardGate.
  rewrite Hlfo, Hrnd, Hlp, Hhp, Hc, Hsp, Hph, Hpwm, Hwf, Hbp, Hfall, Hv, Hg.
  cbn [negb].
  replace (INR (i + 1) * PI / 4 + 0) with (INR (i + 1) * PI / 4) by ring.
  ring.
Qed.

Lemma cos_harmonic_8 : cos (INR (7 + 1) * PI / 4) = 1.
Proof.
  replace (INR (7 + 1) * PI / 4) with (2 * PI)
    by (rewrite INR_IZR_INZ; cbn; field).
  apply cos_2PI.
Qed.

Lemma cos_harmonic_16 : cos (INR (15 + 1) * PI / 4) = 1.
Proof.
  replace (INR (15 + 1) * PI / 4) with (0 + 2 * INR 2 * PI)
    by (rewrite !INR_IZR_INZ; cbn; field).
  rewrite cos_period. apply cos_0.
Qed.

Lemma cos_harmonic_4 : cos (INR (3 + 1) * PI / 4) = -1.
Proof.
  replace (INR (3 + 1) * PI / 4) with PI
    by (rewrite INR_IZR_INZ; cbn; field).
  apply cos_PI.
Qed.

Lemma cos_harmonic_12 : cos (INR (11 + 1) * PI / 4) = -1.
Proof.
  replace (INR (11 + 1) * PI / 4) with (PI + 2 * INR 1 * PI)
    by (rewrite !INR_IZR_INZ; cbn; field).
  rewrite cos_period. apply cos_PI.
Qed.

Lemma cos_harmonic_2 : cos (INR (1 + 1) * PI / 4) = 0.
Proof.
  replace (INR (1 + 1) * PI / 4) with (PI / 2)
    by (rewrite INR_IZR_INZ; cbn; field).
  apply cos_PI2.
Qed.

Lemma cos_harmonic_6 : cos (INR (5 + 1) * PI / 4) = 0.
Proof.
  replace (INR (5 + 1) * PI / 4) with (PI / 2 + PI)
    by (rewrite INR_IZR_INZ; cbn; field).
  rewrite neg_cos, cos_PI2. ring.
Qed.

Lemma cos_harmonic_10 : cos (INR (9 + 1) * PI / 4) = 0.
Proof.
  replace (INR (9 + 1) * PI / 4) with (PI / 2 + 2 * INR 1 * PI)
    by (rewrite !INR_IZR_INZ; cbn; field).
  rewrite cos_period. apply cos_PI2.
Qed.

(** C1, amended: with only the comb modulator enabled, spacing 4 and phase
    0, the combined amplitude of partial [i] (harmonic [n = i + 1]) before
    the division by 16 is [0.5 + 0.5 * cos (n * PI / 4)] at every sample
    offset; it is 1 at harmonics 8 and 16 (peaks), 0 at harmonics 4 and 12
    (troughs) and 0.5 at harmonics 2, 6 and 10. *)
Theorem comb_only_combined_amplitude (s : t) (sampleOffset : Z) :
  comb_only s ->
  (forall i : nat,
      combinedAmplitude sampleRate Math_pow sampleOffset i s
      = 0.5 + 0.5 * cos (INR (i + 1) * PI / 4))
  /\ combinedAmplitude sampleRate Math_pow sampleOffset 7 s = 1
  /\ combinedAmplitude sampleRate Math_pow sampleOffset 15 s = 1
  /\ combinedAmplitude sampleRate Math_pow sampleOffset 3 s = 0
  /\ combinedAmplitude sampleRate Math_pow sampleOffset 11 s = 0
  /\ combinedAmplitude sampleRate Math_pow sampleOffset 1 s = 0.5
  /\ combinedAmplitude sampleRate Math_pow sampleOffset 5 s = 0.5
  /\ combinedAmplitude sampleRate Math_pow sampleOffset 9 s = 0.5.
Proof.
  intros H. split; [intros i; apply combinedAmplitude_comb_only, H|].
  rewrite !(combinedAmplitude_comb_only s sampleOffset _ H).
  rewrite cos_harmonic_8, cos_harmonic_16, cos_harmonic_4, cos_harmonic_12,
    cos_harmonic_2, cos_harmonic_6, cos_harmonic_10.
  repeat split; lra.
Qed.

(** The [while] loops of the scheduling loop end by their test: the fuel
    they are given is the number of timestamps up to [targetSample], and
    more fuel changes nothing. *)
Lemma ampLoop_fuel (cs tgt : Z) (i : nat) (n : nat) :
  forall (fuel : nat) (ampSample : Z) (lg : option Z) (s : t),
    Tracker.count ampSample tgt EVENT_INTERVAL = n -> (n <= fuel)%nat ->
    ampLoop sampleRate Math_pow fuel cs tgt i ampSample lg s
    = ampLoop sampleRate Math_pow n cs tgt i ampSample lg s.
Proof.
  induction n as [|n IH]; intros fuel a lg s Hc Hf.
  - apply count_zero in Hc; [|reflexivity].
    destruct fuel as [|fuel]; [reflexivity|]. cbn [ampLoop].
    destruct (Z.leb_spec a tgt); [lia|reflexivity].
  - apply count_succ in Hc; [|reflexivity]. destruct Hc as [Hle Hc].
    destruct fuel as [|fuel]; [lia|]. cbn [ampLoop].
    destruct (Z.leb_spec a tgt); [|lia].
    apply IH; [exact Hc|lia].
Qed.

Lemma freqLoop_fuel (tgt : Z) (partialNum pitchMod : R) (n : nat) :
  forall (fuel : nat) (freqSample : Z) (lg : option Z) (s : t),
    Tracker.count freqSample tgt EVENT_INTERVAL = n -> (n <= fuel)%nat ->
    freqLoop fuel tgt partialNum pitchMod freqSample lg s
    = freqLoop n tgt partialNum pitchMod freqSample lg s.
Proof.
  induction n as [|n IH]; intros fuel a lg s Hc Hf.
  - apply count_zero in Hc; [|reflexivity].
    destruct fuel as [|fuel]; [reflexivity|]. cbn [freqLoop].
    destruct (Z.leb_spec a tgt); [lia|reflexivity].
  - apply count_succ in Hc; [|reflexivity]. destruct Hc as [Hle Hc].
    destruct fuel as [|fuel]; [lia|]. cbn [freqLoop].
    destruct (Z.leb_spec a tgt); [|lia].
    apply IH; [exact Hc|lia].
Qed.

End ProcessorFacts.

Lemma comb_only_state_ok : comb_only comb_only_state.
Proof. repeat split. Qed.

(** C1 as stated fails in its examples: harmonic 4 is a trough, not a
    peak, and harmonic 2 lies halfway, not at a trough. *)
Lemma comb_harmonic_4_is_trough :
  Processor.combinedAmplitude 48000 Rpower 0 3 comb_only_state = 0%R
  /\ Processor.combinedAmplitude 48000 Rpower 0 1 comb_only_state = 0.5%R
  /\ ~ (Rabs (Processor.combinedAmplitude 48000 Rpower 0 3 comb_only_state - 1)
        < 1 / 4)%R
  /\ ~ (Rabs (Processor.combinedAmplitude 48000 Rpower 0 1 comb_only_state - 0)
        < 1 / 4)%R.
Proof.
  rewrite !(combinedAmplitude_comb_only 48000 Rpower comb_only_state 0 _
              comb_only_state_ok).
  rewrite cos_harmonic_4, cos_harmonic_2.
  repeat split; try lra; unfold Rabs; destruct (Rcase_abs _); lra.
Qed.

Lemma comb_only_combined_amplitude_witness :
  comb_only comb_only_state
  /\ Processor.combinedAmplitude 48000 Rpower 128 7 comb_only_state = 1%R.
Proof.
  assert (H : comb_only comb_only_state) by (repeat split; reflexivity).
  split; [exact H|].
  exact (proj1 (proj2 (comb_only_combined_amplitude 48000 Rpower
                         comb_only_state 128 H))).
Defined.


Section MessageFacts.

Import Processor.
Local Open Scope R_scope.

Variable Math_random : nat -> R.
Variable add_sines : list R -> list R.
Variable wasm_init_ok : bool.

Local Abbreviation onmessage := (Processor.onmessage Math_random add_sines).
Local Abbreviation onmessages := (Processor.onmessages Math_random add_sines).
Local Abbreviation startSynth := (Processor.startSynth Math_random add_sines).

Lemma number_or_falsy (v : jsval) (d : R) : falsy_number v -> number_or v d = d.
Proof.
  unfold falsy_number, number_or. intros [-> | ->]; [reflexivity|].
  destruct (Req_dec_T 0 0); [reflexivity|contradiction].
Qed.

Lemma number_or_nonzero (v : jsval) (d : R) : d <> 0 -> number_or v d <> 0.
Proof.
  unfold number_or. intros Hd.
  destruct (js_Number v) as [x|]; [|assumption].
  destruct (Req_dec_T x 0); assumption.
Qed.

Lemma fold_left_scalars {A : Type} (f : t -> A -> t) (l : list A) :
  (forall s a, scalars (f s a) = scalars s) ->
  forall s, scalars (fold_left f l s) = scalars s.
Proof.
  intros Hf. induction l as [|a l IH]; intros s; [reflexivity|].
  cbn [fold_left]. rewrite IH. apply Hf.
Qed.

Lemma startSynth_scalars (s : t) : scalars (startSynth s) = scalars s.
Proof.
  unfold Processor.startSynth.
  generalize (seq 0 NUM_PARTIALS). intros l.
  generalize (add_sines (replicate NUM_PARTIALS 0)). intros ids.
  match goal with
  | |- scalars (set_started true ?x) = _ =>
      transitivity (scalars x); [generalize x; intros y; reflexivity|]
  end.
  rewrite fold_left_scalars by (intros s' a; reflexivity).
  rewrite fold_left_scalars by (intros s' a; reflexivity).
  reflexivity.
Qed.

(** Each handler of [scalar_defaults] stores [Number(v) || default]. *)
Lemma scalar_handlers_store :
  Forall (fun e => forall v s, e.1.2 (onmessage e.1.1 v s) = number_or v e.2)
         scalar_defaults.
Proof. repeat (constructor; [intros v s; reflexivity|]). constructor. Qed.

Lemma new_nonzero : nonzero_scalars (new wasm_init_ok).
Proof.
  unfold nonzero_scalars, scalars, scalar_defaults. cbn [map fst snd].
  repeat (apply Forall_cons; split; [cbn; lra|]). constructor.
Qed.

Lemma handler_of_In (type : string) (hs : list (string * (jsval -> t -> t)))
      (h : jsval -> t -> t) :
  handler_of type hs = Some h -> exists tag, In (tag, h) hs.
Proof.
  induction hs as [|[tag h'] hs IH]; cbn [handler_of]; [discriminate|].
  destruct (String.eqb type tag).
  - intros [= ->]. exists tag. left. reflexivity.
  - intros H. destruct (IH H) as [tag' Hin]. exists tag'. right. exact Hin.
Qed.

(** What holds before a message and after each handler holds after
    [onmessage]. *)
Lemma onmessage_cases (P : t -> Prop) (type : string) (v : jsval) (s : t) :
  P s ->
  Forall (fun th => P (th.2 v s)) (messageHandlers Math_random add_sines) ->
  P (onmessage type v s).
Proof.
  intros Hs Hall. unfold Processor.onmessage.
  destruct (handler_of type _) as [h|] eqn:E; [|assumption].
  apply handler_of_In in E. destruct E as [tag Hin].
  rewrite List.Forall_forall in Hall. exact (Hall _ Hin).
Qed.

(** A list that differs from one of non-zero numbers only by stored
    [number_or] values with non-zero defaults. *)
Lemma nonzero_update (l l' : list R) :
  Forall2 (fun x y => y = x \/ exists v d, d <> 0 /\ y = number_or v d) l l' ->
  Forall (fun x => x <> 0) l -> Forall (fun x => x <> 0) l'.
Proof.
  induction 1 as [|x y l l' Hxy _ IH]; intros Hl; [constructor|].
  apply Forall_cons in Hl. destruct Hl as [Hx Hl].
  apply Forall_cons. split; [|apply IH, Hl].
  destruct Hxy as [-> | (v & d & Hd & ->)]; [assumption|].
  apply number_or_nonzero, Hd.
Qed.

Ltac scalars_kept_or_stored :=
  cbv [scalars scalar_defaults map fst snd];
  repeat (apply List.Forall2_cons;
          [ first [ left; reflexivity
                  | right; eexists _, _; split; [|reflexivity]; lra ] | ]);
  apply List.Forall2_nil.

Lemma onmessage_nonzero (type : string) (v : jsval) (s : t) :
  nonzero_scalars s -> nonzero_scalars (onmessage type v s).
Proof.
  intros H. apply onmessage_cases; [assumption|].
  unfold messageHandlers.
  apply Forall_cons; split.
  { cbn [snd]. destruct (negb (started s) && ready s); [|assumption].
    unfold nonzero_scalars. rewrite startSynth_scalars. assumption. }
  repeat (apply Forall_cons; split;
          [ cbn [snd]; cbv zeta;
            try match goal with
                | |- nonzero_scalars (if ?c then _ else _) => destruct c
                end;
            (eapply nonzero_update; [|exact H]); scalars_kept_or_stored
          | ]).
  constructor.
Qed.

Lemma onmessages_nonzero (msgs : list (string * jsval)) :
  forall s, nonzero_scalars s -> nonzero_scalars (onmessages msgs s).
Proof.
  induction msgs as [|m msgs IH]; intros s H; [assumption|].
  cbn [Processor.onmessages fold_left]. apply IH, onmessage_nonzero, H.
Qed.

(** A negative rate passes the handler of [set-lfo-rate]: only zero and
    NaN are replaced by the default. *)
Lemma set_lfo_rate_negative (s : t) :
  PhaseAccumulator.rate (lfo (onmessage "set-lfo-rate" (JNumber (-1)) s)) = -1.
Proof.
  change (number_or (JNumber (-1)) 1 = -1). unfold number_or. cbn.
  destruct (Req_dec_T (-1) 0); [lra|reflexivity].
Qed.

(** C10: for every scalar parameter whose handler has a default other than
    zero (base frequency, LFO rate, cutoffs, comb spacing, PWM duty,
    keyboard pitch ratio, ...), a payload that [Number] takes to zero or to
    NaN makes the handler store the default, and whatever the payload the
    handler stores a value other than zero; so after any sequence of control
    messages on a new processor none of these parameters is zero.  With
    payload 0, [set-base-freq] stores 110 and [set-keyboard-pitch-ratio]
    stores 1. *)
Theorem falsy_payload_stores_default :
  Forall (fun e =>
            e.2 <> 0
            /\ forall v s,
                (falsy_number v -> e.1.2 (onmessage e.1.1 v s) = e.2)
                /\ e.1.2 (onmessage e.1.1 v s) <> 0)
         scalar_defaults
  /\ (forall msgs,
         Forall (fun e => e.1.2 (onmessages msgs (new wasm_init_ok)) <> 0)
                scalar_defaults)
  /\ (forall s, baseFreq (onmessage "set-base-freq" (JNumber 0) s) = 110)
  /\ (forall s,
         keyboardPitchRatio (onmessage "set-keyboard-pitch-ratio" (JNumber 0) s)
         = 1).
Proof.
  assert (Hd : Forall (fun e : string * (t -> R) * R => e.2 <> 0) scalar_defaults).
  { unfold scalar_defaults. repeat (apply Forall_cons; split; [cbn; lra|]).
    constructor. }
  split; [|split; [|split]].
  - pose proof scalar_handlers_store as Hs.
    rewrite Forall_forall in Hd, Hs. rewrite Forall_forall. intros e He.
    split; [apply Hd, He|]. intros v s. rewrite (Hs e He). split.
    + apply number_or_falsy.
    + apply number_or_nonzero, Hd, He.
  - intros msgs.
    pose proof (onmessages_nonzero msgs _ new_nonzero) as H.
    unfold nonzero_scalars, scalars in H. rewrite Forall_map in H. exact H.
  - intros s. change (number_or (JNumber 0) 110 = 110).
    apply number_or_falsy. right. reflexivity.
  - intros s. change (number_or (JNumber 0) 1 = 1).
    apply number_or_falsy. right. reflexivity.
Qed.

End MessageFacts.


Section InjectSection.

Import Scheduler.

Lemma insert_app_at {A : Type} (P l : list A) (i j : nat) (x : A) :
  i = length P + j -> <[i := x]> (P ++ l) = P ++ <[j := x]> l.
Proof. intros ->. apply insert_app_r. Qed.


End InjectSection.

(** Indexed assignments in index order fill an array from the front. *)
Lemma array_set_fill {A : Type} (v : A) (n : nat) (arr : list A) :
  n <= length arr ->
  fold_left (fun a i => array_set i v a) (seq 0 n) arr
  = replicate n v ++ drop n arr.
Proof.
  induction n as [|n IH]; intros Hn; [reflexivity|].
  rewrite seq_S, fold_left_app, IH by lia. cbn [fold_left Nat.add].
  unfold array_set.
  assert (Hlen : length (replicate n v ++ drop n arr) = length arr)
    by (rewrite length_app, length_replicate, length_drop; lia).
  rewrite Hlen. destruct (Nat.ltb_spec n (length arr)) as [_|]; [|lia].
  destruct (drop n arr) as [|x rest] eqn:E.
  { apply (f_equal length) in E. rewrite length_drop in E. cbn in E. lia. }
  rewrite (insert_app_at _ _ n 0) by (rewrite length_replicate; lia).
  cbn [insert list_insert].
  assert (Hrest : drop (S n) arr = rest).
  { replace (S n) with (n + 1)%nat by lia. rewrite <- drop_drop, E. reflexivity. }
  rewrite Hrest. rewrite replicate_S_end, <- app_assoc. reflexivity.
Qed.

Section InjectFacts.

Import Processor.
Local Open Scope R_scope.

Variable sampleRate : R.
Variable Math_pow : R -> R -> R.

Local Abbreviation baseAmplitude := (Processor.baseAmplitude sampleRate Math_pow).
Local Abbreviation injectPartial := (Processor.injectPartial sampleRate Math_pow).

Lemma baseAmplitude_frame (i : nat) (s : t) (S : Scheduler.t)
      (A F : list (option Z)) :
  baseAmplitude i (set_lastFreqEventSample F
                     (set_lastAmpEventSample A (set_scheduler S s)))
  = baseAmplitude i s.
Proof. reflexivity. Qed.

Lemma injectPartial_eq (cs : Z) (pp np pg ng : R) (s : t) (i : nat) :
  injectPartial cs pp np pg ng s i
  = set_lastFreqEventSample
      (array_set i (Some (cs + 8)%Z) (lastFreqEventSample s))
      (set_lastAmpEventSample
         (array_set i (Some (cs + 8)%Z) (lastAmpEventSample s))
         (set_scheduler
            (Scheduler.inject_section (nth i (sineIds s) 0) (IZR cs)
                            (baseAmplitude i s * pg / 16) (IZR (cs + 8))
                            (baseAmplitude i s * ng / 16)
                            (baseFreq s * pp * INR (i + 1))
                            (baseFreq s * np * INR (i + 1))
                            (scheduler s))
            s)).
Proof. reflexivity. Qed.


Section Loop.

Variable cs : Z.
Variable s0 : t.

Local Abbreviation sched_step :=
  (Processor.sched_step sampleRate Math_pow cs s0).

Lemma injectLoop_fold (l : list nat) :
  forall (S : Scheduler.t) (A F : list (option Z)),
    fold_left (injectPartial cs (prevPitchMod s0) (evaluateKeyboardPitch s0)
                             (prevGateValue s0) (evaluateKeyboardGate s0))
              l
              (set_lastFreqEventSample F
                 (set_lastAmpEventSample A (set_scheduler S s0)))
    = set_lastFreqEventSample
        (fold_left (fun a i => array_set i (Some (cs + 8)%Z) a) l F)
        (set_lastAmpEventSample
           (fold_left (fun a i => array_set i (Some (cs + 8)%Z) a) l A)
           (set_scheduler (fold_left sched_step l S) s0)).
Proof.
  induction l as [|i l IH]; intros S A F; [reflexivity|].
  cbn [fold_left]. rewrite injectPartial_eq.
  exact (IH (sched_step S i) (array_set i (Some (cs + 8)%Z) A)
            (array_set i (Some (cs + 8)%Z) F)).
Qed.

Lemma injectLoop_eq :
  injectLoop sampleRate Math_pow cs s0
  = set_lastFreqEventSample
      (fold_left (fun a i => array_set i (Some (cs + 8)%Z) a)
                 (seq 0 NUM_PARTIALS) (lastFreqEventSample s0))
      (set_lastAmpEventSample
         (fold_left (fun a i => array_set i (Some (cs + 8)%Z) a)
                    (seq 0 NUM_PARTIALS) (lastAmpEventSample s0))
         (set_scheduler
            (fold_left sched_step (seq 0 NUM_PARTIALS) (scheduler s0)) s0)).
Proof.
  exact (injectLoop_fold (seq 0 NUM_PARTIALS) (scheduler s0)
                         (lastAmpEventSample s0) (lastFreqEventSample s0)).
Qed.



End Loop.


Variable Math_random : nat -> R.
Variable add_sines : list R -> list R.

Local Abbreviation onmessage := (Processor.onmessage Math_random add_sines).
Local Abbreviation beginBlock := (Processor.beginBlock sampleRate Math_random).
Local Abbreviation process := (Processor.process sampleRate Math_pow Math_random).
Local Abbreviation injectImmediateEvents :=
  (Processor.injectImmediateEvents sampleRate Math_pow).

Lemma fold_left_kept {A : Type} (f : t -> A -> t) (l : list A) :
  (forall s a, kept (f s a) = kept s) ->
  forall s, kept (fold_left f l s) = kept s.
Proof.
  intros Hf. induction l as [|a l IH]; intros s; [reflexivity|].
  cbn [fold_left]. rewrite IH. apply Hf.
Qed.

Lemma updateRandomModulator_kept (blockSize : nat) (s : t) :
  kept (updateRandomModulator sampleRate Math_random blockSize s) = kept s.
Proof.
  unfold updateRandomModulator. destruct (negb (randomEnabled s)); [reflexivity|].
  generalize (seq 0 NUM_PARTIALS). intros l.
  apply fold_left_kept. intros s' i. unfold random.
  destruct (Rlt_dec _ _); reflexivity.
Qed.

Lemma updateBarberPolePhase_kept (blockSize : nat) (s : t) :
  kept (updateBarberPolePhase sampleRate blockSize s) = kept s.
Proof.
  unfold updateBarberPolePhase.
  destruct (negb (barberPoleEnabled s)); reflexivity.
Qed.

Lemma updateFallingHarmonics_kept (s : t) :
  kept (updateFallingHarmonics Math_random s) = kept s.
Proof.
  unfold updateFallingHarmonics, random.
  destruct (negb (fallingEnabled s)); [reflexivity|].
  cbv zeta.
  repeat match goal with
         | |- context [if ?c then _ else _] => destruct c
         end; reflexivity.
Qed.

Lemma beginBlock_kept (blockSize : nat) (cs : Z) (s : t) :
  exists x : t,
    beginBlock blockSize cs s
    = set_scheduler (Scheduler.beginFrame (scheduler x)).1 x
    /\ kept x = kept s.
Proof.
  unfold Processor.beginBlock. cbv zeta. eexists. split; [reflexivity|].
  rewrite updateFallingHarmonics_kept, updateBarberPolePhase_kept,
    updateRandomModulator_kept. reflexivity.
Qed.




End InjectFacts.


(* ===================================================================== *)
(** * Further properties of the EventTimestampTracker *)
(* ===================================================================== *)

Section TrackerMore.

Import Tracker.
Local Open Scope Z_scope.

Lemma ticks_app (start step : Z) (n m : nat) :
  ticks start step (n + m)
  = ticks start step n ++ ticks (start + Z.of_nat n * step) step m.
Proof.
  revert start. induction n as [|n IH]; intros start.
  - cbn. f_equal. lia.
  - cbn [Nat.add ticks app]. f_equal. rewrite IH. do 2 f_equal. lia.
Qed.


(** The number of timestamps is the number of multiples of the interval
    that fit between the first timestamp and the target. *)
Lemma lt_count (start tgt step : Z) (k : nat) :
  0 < step ->
  (k < count start tgt step)%nat <-> start + Z.of_nat k * step <= tgt.
Proof.
  intros Hs. unfold count. rewrite Z.gtb_ltb.
  destruct (Z.ltb_spec tgt start) as [Hlt|Hle].
  - split; [lia|nia].
  - assert (H0 : 0 <= (tgt - start) / step) by (apply Z.div_pos; lia).
    split.
    + intros Hk.
      assert (Z.of_nat k <= (tgt - start) / step) by lia.
      assert (step * ((tgt - start) / step) <= tgt - start)
        by (apply Z.mul_div_le; lia).
      nia.
    + intros Hk.
      assert (Z.of_nat k <= (tgt - start) / step).
      { apply Z.div_le_lower_bound; lia. }
      lia.
Qed.

Lemma count_split (start mid tgt step : Z) :
  0 < step -> mid <= tgt ->
  (count start tgt step
   = count start mid step
     + count (start + Z.of_nat (count start mid step) * step) tgt step)%nat.
Proof.
  intros Hs Hmt.
  set (n1 := count start mid step).
  set (n2 := count (start + Z.of_nat n1 * step) tgt step).
  assert (H1 : forall k, (k < n1)%nat <-> start + Z.of_nat k * step <= mid)
    by (intros k; apply lt_count; assumption).
  assert (H2 : forall k, (k < n2)%nat
                         <-> start + Z.of_nat n1 * step + Z.of_nat k * step <= tgt)
    by (intros k; apply lt_count; assumption).
  assert (H : forall k, (k < count start tgt step)%nat
                        <-> start + Z.of_nat k * step <= tgt)
    by (intros k; apply lt_count; assumption).
  destruct (Nat.lt_trichotomy (count start tgt step) (n1 + n2)) as [Hlt|[Heq|Hgt]].
  - exfalso.
    set (c := count start tgt step) in *.
    assert (Hc : ~ start + Z.of_nat c * step <= tgt) by (rewrite <- H; lia).
    destruct (Nat.lt_ge_cases c n1) as [Hc1|Hc1].
    + apply H1 in Hc1. lia.
    + assert (Hc2 : (c - n1 < n2)%nat) by lia.
      apply H2 in Hc2. apply Hc.
      replace (Z.of_nat c) with (Z.of_nat n1 + Z.of_nat (c - n1)) by lia. lia.
  - exact Heq.
  - exfalso.
    assert (Hc : start + Z.of_nat (n1 + n2) * step <= tgt) by (apply H; lia).
    assert (Hn : ~ (n2 < n2)%nat) by lia. apply Hn, H2. lia.
Qed.

(** X1 -- restart: whatever the positive interval and the cursor, consuming
    [generateSamples] up to [mid] and then up to [target] yields, in order,
    the timestamps of one call up to [target], and leaves the same cursor.
    On a tracker without a cursor the first call must produce something
    ([blockStart <= mid]): otherwise the second call starts from its own
    [blockStart]. *)
Theorem restart_any_split
        (tr : t) (blockStart blockStart' mid target : Z) :
  0 < interval tr -> mid <= target ->
  (lastSample tr = None -> blockStart <= mid) ->
  exists l1 tr1 l2 tr2,
    getSamples blockStart mid tr = Some (l1, tr1)
    /\ getSamples blockStart' target tr1 = Some (l2, tr2)
    /\ getSamples blockStart target tr = Some (l1 ++ l2, tr2).
Proof.
  intros Hpos Hmt Hfirst.
  set (s := start_of blockStart tr).
  set (n1 := count s mid (interval tr)).
  set (tr1 := mk (cursor_after s (interval tr) n1 (lastSample tr)) (interval tr)).
  assert (Hs1 : start_of blockStart' tr1 = s + Z.of_nat n1 * interval tr).
  { unfold start_of, tr1. cbn [lastSample interval].
    destruct n1 as [|k] eqn:En1; cbn [cursor_after].
    - destruct (lastSample tr) as [l|] eqn:El.
      + unfold s, start_of. rewrite El. lia.
      + exfalso. specialize (Hfirst eq_refl).
        assert (Hz : (0 < n1)%nat).
        { apply (lt_count s mid (interval tr) 0 Hpos).
          unfold s, start_of. rewrite El. lia. }
        lia.
    - lia. }
  set (n2 := count (s + Z.of_nat n1 * interval tr) target (interval tr)).
  exists (ticks s (interval tr) n1), tr1,
         (ticks (s + Z.of_nat n1 * interval tr) (interval tr) n2),
         (mk (cursor_after (s + Z.of_nat n1 * interval tr) (interval tr) n2
                           (lastSample tr1)) (interval tr)).
  split; [apply getSamples_eq; assumption|]. split.
  - rewrite getSamples_eq by assumption. rewrite Hs1. reflexivity.
  - rewrite getSamples_eq by assumption. fold s.
    rewrite (count_split s mid target (interval tr) Hpos Hmt).
    fold n1 n2. rewrite ticks_app.
    assert (Hcur : cursor_after (s + Z.of_nat n1 * interval tr) (interval tr) n2
                                (lastSample tr1)
                   = cursor_after s (interval tr) (n1 + n2) (lastSample tr)).
    { unfold tr1. cbn [lastSample].
      destruct n1 as [|k1], n2 as [|k2]; cbn [cursor_after Nat.add];
        try reflexivity; apply (f_equal Some); lia. }
    rewrite Hcur. reflexivity.
Qed.

Lemma restart_any_split_witness :
  exists l1 tr1 l2 tr2,
    getSamples 7 100 (mk None 50) = Some (l1, tr1)
    /\ getSamples 0 260 tr1 = Some (l2, tr2)
    /\ getSamples 7 260 (mk None 50) = Some (l1 ++ l2, tr2).
Proof.
  apply (restart_any_split (mk None 50) 7 0 100 260);
    [reflexivity | cbn; lia | intros _; lia].
Defined.



Lemma last_ticks (start step : Z) (n : nat) :
  last (ticks start step (S n)) = Some (start + Z.of_nat n * step).
Proof.
  revert start. induction n as [|n IH]; intros start.
  - cbn. f_equal. lia.
  - change (ticks start step (S (S n)))
      with (start :: ticks (start + step) step (S n)).
    rewrite last_cons, IH. f_equal. lia.
Qed.

(** X3 -- the cursor after a consumed call is the last timestamp it
    produced; a call that produced nothing leaves the cursor alone; the
    interval is never touched. *)
Theorem cursor_is_last_generated (tr : t) (blockStart target : Z) :
  0 < interval tr ->
  exists l tr',
    getSamples blockStart target tr = Some (l, tr')
    /\ getLastSample tr'
       = match last l with Some x => Some x | None => getLastSample tr end
    /\ getInterval tr' = getInterval tr.
Proof.
  intros Hpos. eexists _, _. split; [apply getSamples_eq; assumption|].
  split; [|reflexivity].
  unfold getLastSample. cbn [lastSample].
  destruct (count _ _ _) as [|n]; [reflexivity|].
  rewrite last_ticks. reflexivity.
Qed.

Lemma cursor_is_last_generated_witness :
  0 < interval (mk None 128)
  /\ exists l tr',
      getSamples 0 300 (mk None 128) = Some (l, tr')
      /\ getLastSample tr'
         = match last l with
           | Some x => Some x
           | None => getLastSample (mk None 128)
           end
      /\ getInterval tr' = getInterval (mk None 128).
Proof.
  split; [reflexivity|].
  apply (cursor_is_last_generated (mk None 128) 0 300). reflexivity.
Defined.

(** A suspended generator whose interval is not positive never finishes. *)
Lemma drain_stuck (tr : t) (tgt : Z) (fuel : nat) :
  interval tr <= 0 ->
  forall (sample : Z) (lg : option Z),
    sample <= tgt -> drain fuel (GYield sample lg tgt) tr = None.
Proof.
  intros Hi. induction fuel as [|fuel IH]; intros sample lg Hs; [reflexivity|].
  cbn [drain next]. unfold loop_test.
  destruct (Z.leb_spec (sample + interval tr) tgt); [|lia].
  rewrite IH by lia. reflexivity.
Qed.

(** X4 -- with an interval of zero or less, a call whose first timestamp
    does not exceed the target never comes to an end: consuming the
    generator runs out of any fuel. *)
Theorem nonpositive_interval_never_finishes
        (tr : t) (blockStart target : Z) (fuel : nat) :
  interval tr <= 0 -> start_of blockStart tr <= target ->
  drain fuel (GStart blockStart target) tr = None.
Proof.
  intros Hi Hs. destruct fuel as [|fuel]; [reflexivity|].
  cbn [drain next]. fold (start_of blockStart tr). unfold loop_test.
  destruct (Z.leb_spec (start_of blockStart tr) target); [|lia].
  rewrite drain_stuck by assumption. reflexivity.
Qed.

Lemma nonpositive_interval_never_finishes_witness :
  interval (setInterval 0 (new None)) <= 0
  /\ start_of 0 (setInterval 0 (new None)) <= 300
  /\ drain 1000 (GStart 0 300) (setInterval 0 (new None)) = None.
Proof.
  assert (H1 : interval (setInterval 0 (new None)) <= 0) by (cbn; lia).
  assert (H2 : start_of 0 (setInterval 0 (new None)) <= 300) by (cbn; lia).
  split; [exact H1|]. split; [exact H2|].
  exact (nonpositive_interval_never_finishes
           (setInterval 0 (new None)) 0 300 1000 H1 H2).
Defined.

End TrackerMore.

(* ===================================================================== *)
(** * The encoding of a frame *)
(* ===================================================================== *)

Section FrameFacts.

Import Scheduler Frame.















End FrameFacts.

(* ===================================================================== *)
(** * Further properties of the PhaseAccumulator *)
(* ===================================================================== *)

Section PhaseMore.

Import PhaseAccumulator.
Local Open Scope R_scope.

Lemma js_rem_1_frac (x : R) : 0 <= x -> js_rem x 1 = x - IZR (Int_part x).
Proof.
  intros Hx. unfold js_rem, Rtrunc.
  replace (x / 1) with x by field.
  destruct (Rle_dec 0 x) as [_|Hn]; [|contradiction]. ring.
Qed.

(** Wrapping, adding and wrapping again is wrapping the sum. *)
Lemma js_rem_1_add (x y : R) :
  0 <= x -> 0 <= y -> js_rem (js_rem x 1 + y) 1 = js_rem (x + y) 1.
Proof.
  intros Hx Hy.
  pose proof (js_rem_1_nonneg x Hx) as Hf.
  rewrite (js_rem_1_frac (js_rem x 1 + y)) by lra.
  rewrite (js_rem_1_frac (x + y)) by lra.
  rewrite (js_rem_1_frac x Hx) in *.
  set (a := Int_part x) in *.
  set (b := Int_part (x - IZR a + y)).
  destruct (base_Int_part (x - IZR a + y)) as [Hb1 Hb2]. fold b in Hb1, Hb2.
  replace (Int_part (x + y)) with (a + b)%Z.
  - rewrite plus_IZR. ring.
  - apply Int_part_spec. rewrite plus_IZR. lra.
Qed.

(** X6 -- the phase does not depend on how the elapsed samples are cut
    into blocks: with a rate that is not negative, advancing to [c1] and
    then to [c2] returns the phase and leaves the state that advancing to
    [c2] at once does. *)
Theorem advance_in_two_steps (p : t) (c1 c2 : Z) (sampleRate : R) :
  0 < sampleRate -> 0 <= phase p -> 0 <= rate p ->
  (lastSample p <= c1)%Z -> (c1 <= c2)%Z ->
  advance c2 sampleRate (advance c1 sampleRate p).2
  = advance c2 sampleRate p.
Proof.
  intros Hsr Hph Hr H1 H2. destruct p as [ph r l]. cbn [phase rate lastSample] in *.
  unfold advance. cbn [snd phase rate lastSample].
  destruct (Z.ltb_spec 0 (c1 - l)) as [Hd1|Hd1];
    destruct (Z.ltb_spec 0 (c2 - c1)) as [Hd2|Hd2];
    destruct (Z.ltb_spec 0 (c2 - l)) as [Hd|Hd]; try lia.
  - assert (Hx : 0 <= IZR (c1 - l) / sampleRate * r).
    { apply Rmult_le_pos; [|assumption].
      apply Rlt_le, Rdiv_lt_0_compat; [apply IZR_lt|]; assumption. }
    assert (Hy : 0 <= IZR (c2 - c1) / sampleRate * r).
    { apply Rmult_le_pos; [|assumption].
      apply Rlt_le, Rdiv_lt_0_compat; [apply IZR_lt|]; assumption. }
    rewrite js_rem_1_add by lra.
    replace (ph + IZR (c1 - l) / sampleRate * r + IZR (c2 - c1) / sampleRate * r)
      with (ph + IZR (c2 - l) / sampleRate * r).
    + reflexivity.
    + rewrite !minus_IZR. field. lra.
  - replace c2 with c1 by lia. reflexivity.
  - replace c1 with l by lia. reflexivity.
  - replace c1 with l by lia. reflexivity.
Qed.

Lemma advance_in_two_steps_witness :
  let p := new (Some 3) in
  advance 256 48000 (advance 100 48000 p).2 = advance 256 48000 p.
Proof.
  intros p.
  apply (advance_in_two_steps p 100 256 48000); cbn; first [lra | lia].
Defined.

Lemma sin_plus_2PI_Z (x : R) (k : Z) : sin (x + 2 * IZR k * PI) = sin x.
Proof.
  destruct (Z_le_gt_dec 0 k) as [Hk|Hk].
  - rewrite <- (Z2Nat.id k Hk), <- INR_IZR_INZ. apply sin_period.
  - rewrite <- (sin_period (x + 2 * IZR k * PI) (Z.to_nat (- k))).
    f_equal. rewrite INR_IZR_INZ, Z2Nat.id by lia. rewrite opp_IZR. ring.
Qed.

Lemma sin_js_rem (x : R) : sin (2 * PI * js_rem x 1) = sin (2 * PI * x).
Proof.
  unfold js_rem.
  replace (2 * PI * (x - 1 * IZR (Rtrunc (x / 1))))
    with (2 * PI * x + 2 * IZR (- Rtrunc (x / 1)) * PI)
    by (rewrite opp_IZR; ring).
  apply sin_plus_2PI_Z.
Qed.

(** X7 -- the lookahead is the sine of the phase that has not been
    wrapped, so a phase outside [0, 1) does not change what [sinAt]
    returns; and for a positive offset it is the sine of the phase that
    [advance] would commit for that many samples. *)
Theorem sinAt_is_sine_of_elapsed_phase
        (p : t) (sampleOffset : Z) (sampleRate : R) (phaseOffset : option R) :
  (sinAt sampleOffset sampleRate phaseOffset p).1
  = sin (2 * PI * (phase p + IZR sampleOffset / sampleRate * rate p
                   + default 0 phaseOffset))
  /\ ((0 < sampleOffset)%Z ->
      (sinAt sampleOffset sampleRate None p).1
      = sin (2 * PI
             * (advance (lastSample p + sampleOffset) sampleRate p).1)).
Proof.
  split.
  - unfold sinAt. cbn [fst]. apply sin_js_rem.
  - intros Hoff. unfold sinAt, advance. cbn [fst default].
    replace (lastSample p + sampleOffset - lastSample p)%Z
      with sampleOffset by lia.
    destruct (Z.ltb_spec 0 sampleOffset); [|lia].
    rewrite Rplus_0_r. reflexivity.
Qed.

(** X8 -- the documented range of the phase holds for rates and phases
    that are not negative: from a state with the phase in [0, 1) and such
    a rate, any sequence of [setRate], [advance], [sinAt] and [resetPhase]
    calls with arguments that are not negative (and positive sample
    rates) leaves the phase in [0, 1) and the rate not negative. *)
Theorem nonnegative_calls_keep_phase_normalized (ops : list op) (p : t) :
  Forall nonneg_op ops -> normalized p -> normalized (run ops p).
Proof.
  intros Hops. revert p. induction Hops as [|o ops Ho _ IH]; intros p Hp.
  - exact Hp.
  - cbn [run fold_left]. apply IH, step_normalized; assumption.
Qed.

Lemma nonnegative_calls_keep_phase_normalized_witness :
  let ops := [SetRate 2; Advance 128 48000; SinAt 64 48000 None;
              ResetPhase (Some (1 / 4))] in
  normalized (run ops (new None)).
Proof.
  intros ops.
  apply (nonnegative_calls_keep_phase_normalized ops (new None)).
  - unfold ops. repeat constructor; cbn; lra.
  - unfold normalized. cbn. lra.
Defined.

End PhaseMore.

(* ===================================================================== *)
(** * Control messages: misses, overwrites, order *)
(* ===================================================================== *)

Section MessageMore.

Import Processor.
Local Open Scope R_scope.

Variable Math_random : nat -> R.
Variable add_sines : list R -> list R.

Local Abbreviation onmessage := (Processor.onmessage Math_random add_sines).
Local Abbreviation messageHandlers :=
  (Processor.messageHandlers Math_random add_sines).




(** X10 -- last write wins: for every type of [overwriting_types], handling
    two messages of that type in a row leaves the state that handling the
    second alone leaves. *)
Theorem same_type_last_write_wins
        (type : string) (v1 v2 : jsval) (s : t) :
  In type overwriting_types ->
  onmessage type v2 (onmessage type v1 s) = onmessage type v2 s.
Proof.
  unfold overwriting_types. cbn [In]. intros H.
  repeat (destruct H as [<- | H]; [reflexivity|]).
  destruct H.
Qed.

(** X11 -- order across parameters: two messages of different types of
    [overwriting_types] can be handled in either order. *)
Theorem different_types_commute
        (type1 type2 : string) (v1 v2 : jsval) (s : t) :
  In type1 overwriting_types -> In type2 overwriting_types ->
  type1 <> type2 ->
  onmessage type1 v1 (onmessage type2 v2 s)
  = onmessage type2 v2 (onmessage type1 v1 s).
Proof.
  unfold overwriting_types. cbn [In]. intros H1 H2 Hne.
  repeat (destruct H1 as [<- | H1];
          [repeat (destruct H2 as [<- | H2];
                   [first [reflexivity | exfalso; apply Hne; reflexivity]|]);
           destruct H2|]).
  destruct H1.
Qed.

End MessageMore.

(* ===================================================================== *)
(** * What a block and a message leave alone *)
(* ===================================================================== *)

Section ProcessFrame.

Import Processor.
Local Open Scope R_scope.

Variable sampleRate : R.
Variable Math_pow : R -> R -> R.
Variable Math_random : nat -> R.
Variable add_sines : list R -> list R.

Local Abbreviation process := (Processor.process sampleRate Math_pow Math_random).
Local Abbreviation beginBlock := (Processor.beginBlock sampleRate Math_random).
Local Abbreviation schedulePartial :=
  (Processor.schedulePartial sampleRate Math_pow).
Local Abbreviation injectImmediateEvents :=
  (Processor.injectImmediateEvents sampleRate Math_pow).
Local Abbreviation startSynth := (Processor.startSynth Math_random add_sines).

(** A view [proj] of the state that the scheduling code cannot change: it
    is blind to the fields that code writes. *)
Section View.

Context {X : Type}.
Variable proj : t -> X.

Lemma fold_left_proj {A : Type} (f : t -> A -> t) (l : list A) :
  (forall s a, proj (f s a) = proj s) ->
  forall s, proj (fold_left f l s) = proj s.
Proof.
  intros Hf. induction l as [|a l IH]; intros s; [reflexivity|].
  cbn [fold_left]. rewrite IH. apply Hf.
Qed.

Hypothesis proj_scheduler : forall S s, proj (set_scheduler S s) = proj s.
Hypothesis proj_lastAmp :
  forall A s, proj (set_lastAmpEventSample A s) = proj s.
Hypothesis proj_lastFreq :
  forall F s, proj (set_lastFreqEventSample F s) = proj s.

Lemma ampLoop_proj (fuel : nat) (cs tgt : Z) (i : nat) :
  forall (a : Z) (lg : option Z) (s : t),
    proj (ampLoop sampleRate Math_pow fuel cs tgt i a lg s).2 = proj s.
Proof.
  induction fuel as [|fuel IH]; intros a lg s; cbn [ampLoop]; [reflexivity|].
  destruct (a <=? tgt)%Z; [|reflexivity]. cbv zeta.
  rewrite IH. apply proj_scheduler.
Qed.

Lemma freqLoop_proj (fuel : nat) (tgt : Z) (pn pm : R) :
  forall (f : Z) (lg : option Z) (s : t),
    proj (freqLoop fuel tgt pn pm f lg s).2 = proj s.
Proof.
  induction fuel as [|fuel IH]; intros f lg s; cbn [freqLoop]; [reflexivity|].
  destruct (f <=? tgt)%Z; [|reflexivity]. cbv zeta.
  rewrite IH. apply proj_scheduler.
Qed.

Lemma schedulePartial_proj (cs tgt : Z) (s : t) (i : nat) :
  proj (schedulePartial cs tgt s i) = proj s.
Proof.
  unfold Processor.schedulePartial. cbv zeta.
  destruct (ampLoop _ _ _ _ _ _ _ _ _) as [lg s2] eqn:EA.
  assert (H2 : proj s2 = proj s).
  { change s2 with (lg, s2).2. rewrite <- EA, ampLoop_proj.
    apply proj_scheduler. }
  match goal with
  | |- context [freqLoop _ _ _ _ _ _ ?x] => set (s3 := x)
  end.
  assert (H3 : proj s3 = proj s).
  { subst s3. destruct (decide _); [exact H2|].
    rewrite proj_lastAmp. exact H2. }
  clearbody s3.
  destruct (freqLoop _ _ _ _ _ _ _) as [lf s4] eqn:EF.
  assert (H4 : proj s4 = proj s).
  { change s4 with (lf, s4).2. rewrite <- EF, freqLoop_proj. exact H3. }
  rewrite proj_scheduler.
  destruct (decide _); [exact H4 | rewrite proj_lastFreq; exact H4].
Qed.

Lemma schedule_proj (cs tgt : Z) (l : list nat) (s : t) :
  proj (fold_left (schedulePartial cs tgt) l s) = proj s.
Proof. apply fold_left_proj. intros; apply schedulePartial_proj. Qed.

Hypothesis proj_prevPitch :
  forall r s, proj (set_prevKeyboardPitchRatio r s) = proj s.
Hypothesis proj_prevGate :
  forall b s, proj (set_prevKeyboardGateOpen b s) = proj s.
Hypothesis proj_needs :
  forall b s, proj (set_needsImmediateEvent b s) = proj s.

Lemma injectImmediateEvents_proj (cs : Z) (s : t) :
  proj (injectImmediateEvents cs s) = proj s.
Proof.
  unfold Processor.injectImmediateEvents. cbv zeta.
  rewrite proj_needs, proj_prevGate, proj_prevPitch, injectLoop_eq.
  rewrite proj_lastFreq, proj_lastAmp, proj_scheduler. reflexivity.
Qed.

(** [process] is [beginBlock] as far as the view can tell, when it runs at
    all. *)
Lemma process_proj (hasOutput : bool) (blockSize : nat) (cs : Z) (s : t) :
  proj (process hasOutput blockSize cs s)
  = if ready s && hasOutput && started s
    then proj (beginBlock blockSize cs s) else proj s.
Proof.
  unfold Processor.process.
  destruct (ready s); [|reflexivity].
  destruct hasOutput; [|reflexivity].
  destruct (started s); [|reflexivity].
  cbn [negb andb]. cbv zeta. rewrite schedule_proj.
  destruct (needsImmediateEvent _); [|reflexivity].
  apply injectImmediateEvents_proj.
Qed.

Hypothesis proj_sineIds : forall l s, proj (set_sineIds l s) = proj s.
Hypothesis proj_randomValues :
  forall l s, proj (set_randomValues l s) = proj s.
Hypothesis proj_randomCalls :
  forall n s, proj (set_randomCalls n s) = proj s.
Hypothesis proj_started : forall b s, proj (set_started b s) = proj s.

Lemma startSynth_proj (s : t) : proj (startSynth s) = proj s.
Proof.
  unfold Processor.startSynth. cbv zeta.
  rewrite proj_started.
  generalize (seq 0 NUM_PARTIALS) at 1. intros l1.
  rewrite fold_left_proj.
  2:{ intros x i. unfold random. rewrite proj_randomValues.
      apply proj_randomCalls. }
  generalize (seq 0 NUM_PARTIALS). intros l2.
  rewrite fold_left_proj.
  2:{ intros x i. rewrite proj_lastFreq. apply proj_lastAmp. }
  apply proj_sineIds.
Qed.

Lemma updateRandomModulator_proj (blockSize : nat) (s : t) :
  proj (updateRandomModulator sampleRate Math_random blockSize s) = proj s.
Proof.
  unfold updateRandomModulator. destruct (negb (randomEnabled s)); [reflexivity|].
  generalize (seq 0 NUM_PARTIALS). intros l.
  apply fold_left_proj. intros s' i. unfold random.
  destruct (Rlt_dec _ _).
  - rewrite proj_randomValues, !proj_randomCalls. reflexivity.
  - apply proj_randomCalls.
Qed.

End View.

Lemma updateBarberPolePhase_parameters (blockSize : nat) (s : t) :
  parameters (updateBarberPolePhase sampleRate blockSize s) = parameters s.
Proof.
  unfold updateBarberPolePhase.
  destruct (negb (barberPoleEnabled s)); reflexivity.
Qed.

Lemma updateFallingHarmonics_parameters (s : t) :
  parameters (updateFallingHarmonics Math_random s) = parameters s.
Proof.
  unfold updateFallingHarmonics, random.
  destruct (negb (fallingEnabled s)); [reflexivity|].
  cbv zeta.
  repeat match goal with
         | |- context [if ?c then _ else _] => destruct c
         end; reflexivity.
Qed.

Lemma beginBlock_parameters (blockSize : nat) (cs : Z) (s : t) :
  parameters (beginBlock blockSize cs s) = parameters s.
Proof.
  unfold Processor.beginBlock. cbv zeta.
  match goal with
  | |- parameters (set_scheduler ?S ?x) = _ =>
      transitivity (parameters x); [reflexivity|]
  end.
  rewrite updateFallingHarmonics_parameters, updateBarberPolePhase_parameters.
  rewrite (updateRandomModulator_proj parameters) by reflexivity.
  reflexivity.
Qed.

(** X12 -- a render block never changes a control parameter: whatever the
    block, [process] returns with every field the messages set (the LFO
    rate included), the flags [ready] and [started] and the sine ids as
    they were. *)
Theorem process_keeps_parameters
        (hasOutput : bool) (blockSize : nat) (currentSample : Z) (s : t) :
  parameters (process hasOutput blockSize currentSample s) = parameters s.
Proof.
  rewrite (process_proj parameters) by reflexivity.
  destruct (ready s && hasOutput && started s); [|reflexivity].
  apply beginBlock_parameters.
Qed.

End ProcessFrame.

(* ===================================================================== *)
(** * Invariants of the animated modulators over a session *)
(* ===================================================================== *)

Section SessionFacts.

Import Processor.
Local Open Scope R_scope.

Variable sampleRate : R.
Variable Math_pow : R -> R -> R.
Variable Math_random : nat -> R.
Variable add_sines : list R -> list R.
Variable wasm_init_ok : bool.

Local Abbreviation process := (Processor.process sampleRate Math_pow Math_random).
Local Abbreviation beginBlock := (Processor.beginBlock sampleRate Math_random).
Local Abbreviation onmessage := (Processor.onmessage Math_random add_sines).
Local Abbreviation startSynth := (Processor.startSynth Math_random add_sines).
Local Abbreviation session :=
  (run_inputs sampleRate Math_pow Math_random add_sines).

(** A property every message handler and every block keeps holds along
    the whole session. *)
Lemma run_inputs_invariant (P : t -> Prop) :
  (forall type v s, P s -> P (onmessage type v s)) ->
  (forall ho bs cs s, P s -> P (process ho bs cs s)) ->
  forall ins s, P s -> P (session ins s).
Proof.
  intros Hm Hp. unfold run_inputs.
  induction ins as [|i ins IH]; intros s Hs; [exact Hs|].
  cbn [fold_left]. apply IH.
  destruct i as [type v | ho bs cs]; cbn [handle].
  - apply Hm, Hs.
  - apply Hp, Hs.
Qed.

Lemma falling_ok_fields (s s' : t) :
  fallingHarmonic s' = fallingHarmonic s ->
  fallingLanded s' = fallingLanded s ->
  falling_ok s -> falling_ok s'.
Proof. unfold falling_ok. intros -> -> H. exact H. Qed.

Lemma updateFallingHarmonics_ok (s : t) :
  falling_ok s -> falling_ok (updateFallingHarmonics Math_random s).
Proof.
  intros [[Hlo Hhi] (k & Hk & Hl)].
  unfold updateFallingHarmonics.
  destruct (negb (fallingEnabled s)); [split; [split; assumption|eauto]|].
  assert (Htail : forall x : t,
             fallingLanded x = set_seq 0 k ->
             (fallingHarmonic x <= 31)%nat ->
             falling_ok
               (let s2 :=
                  if Nat.eqb (fallingHarmonic x) 0
                  then set_fallingHarmonic 31%nat
                         (set_fallingLanded
                            ({[size (fallingLanded x)]} ∪ fallingLanded x) x)
                  else x in
                if (32 <=? size (fallingLanded s2))%nat
                then set_fallingLanded ∅ (set_fallingHarmonic 31%nat s2)
                else s2)).
  { intros x Hx Hpos. cbv zeta.
    destruct (Nat.eqb_spec (fallingHarmonic x) 0) as [Hz|Hnz].
    - change (fallingLanded (set_fallingHarmonic 31%nat
                (set_fallingLanded ?L x))) with L.
      rewrite Hx, size_set_seq.
      change k with (0 + k)%nat at 1. rewrite <- set_seq_S_end_union_L.
      rewrite size_set_seq.
      destruct (Nat.leb_spec 32 (S k)).
      + split; [cbn; lia|]. exists 0%nat. split; [lia|reflexivity].
      + split; [cbn; lia|]. exists (S k). split; [lia|].
        change (fallingLanded (set_fallingHarmonic 31%nat
                  (set_fallingLanded ?L x))) with L.
        symmetry. apply (set_seq_S_end_union_L 0 k).
    - rewrite Hx, size_set_seq.
      destruct (Nat.leb_spec 32 k); [lia|].
      split; [lia|]. exists k. split; [lia|exact Hx]. }
  set (s1 := if (0 <? fallingHarmonic s)%nat then _ else s).
  apply (Htail s1); subst s1.
  - rewrite <- Hl. unfold random.
    repeat match goal with
           | |- context [if ?c then _ else _] => destruct c
           end; reflexivity.
  - unfold random.
    repeat match goal with
           | |- context [if ?c then _ else _] => destruct c
           end;
      first [ change (fallingHarmonic s - 1 <= 31)%nat
            | change (fallingHarmonic s <= 31)%nat ]; lia.
Qed.

Lemma beginBlock_falling_ok (blockSize : nat) (cs : Z) (s : t) :
  falling_ok s -> falling_ok (beginBlock blockSize cs s).
Proof.
  intros H. unfold Processor.beginBlock. cbv zeta.
  match goal with
  | |- falling_ok (set_scheduler ?S ?x) => change (falling_ok x)
  end.
  apply updateFallingHarmonics_ok.
  match goal with
  | |- falling_ok (updateBarberPolePhase ?sr ?b ?x) =>
      assert (Hx : falling_ok x);
      [|unfold updateBarberPolePhase;
        destruct (negb (barberPoleEnabled x)); exact Hx]
  end.
  eapply falling_ok_fields; [| |exact H].
  - exact (updateRandomModulator_proj sampleRate Math_random fallingHarmonic
             (fun _ _ => eq_refl) (fun _ _ => eq_refl) blockSize _).
  - exact (updateRandomModulator_proj sampleRate Math_random fallingLanded
             (fun _ _ => eq_refl) (fun _ _ => eq_refl) blockSize _).
Qed.

Lemma process_falling_ok (hasOutput : bool) (blockSize : nat) (cs : Z) (s : t) :
  falling_ok s -> falling_ok (process hasOutput blockSize cs s).
Proof.
  intros H.
  pose proof (process_proj sampleRate Math_pow Math_random fallingHarmonic
                (fun _ _ => eq_refl) (fun _ _ => eq_refl) (fun _ _ => eq_refl)
                (fun _ _ => eq_refl) (fun _ _ => eq_refl) (fun _ _ => eq_refl)
                hasOutput blockSize cs s) as E1.
  pose proof (process_proj sampleRate Math_pow Math_random fallingLanded
                (fun _ _ => eq_refl) (fun _ _ => eq_refl) (fun _ _ => eq_refl)
                (fun _ _ => eq_refl) (fun _ _ => eq_refl) (fun _ _ => eq_refl)
                hasOutput blockSize cs s) as E2.
  destruct (ready s && hasOutput && started s).
  - eapply falling_ok_fields; [exact E1|exact E2|].
    apply beginBlock_falling_ok, H.
  - eapply falling_ok_fields; [exact E1|exact E2|exact H].
Qed.

Lemma onmessage_falling_ok (type : string) (v : jsval) (s : t) :
  falling_ok s -> falling_ok (onmessage type v s).
Proof.
  intros H. apply onmessage_cases; [assumption|].
  unfold messageHandlers.
  repeat (apply Forall_cons; split;
          [ cbn [snd]; cbv zeta;
            first
              [ exact H
              | destruct (negb (started s) && ready s); [|exact H];
                eapply falling_ok_fields; [| |exact H];
                [ exact (startSynth_proj Math_random add_sines fallingHarmonic
                           (fun _ _ => eq_refl) (fun _ _ => eq_refl)
                           (fun _ _ => eq_refl) (fun _ _ => eq_refl)
                           (fun _ _ => eq_refl) (fun _ _ => eq_refl) s)
                | exact (startSynth_proj Math_random add_sines fallingLanded
                           (fun _ _ => eq_refl) (fun _ _ => eq_refl)
                           (fun _ _ => eq_refl) (fun _ _ => eq_refl)
                           (fun _ _ => eq_refl) (fun _ _ => eq_refl) s) ]
              | destruct (js_Boolean v); [|exact H];
                split; [cbn; lia|]; exists 0%nat; split; [lia|reflexivity]
              | destruct (js_Boolean v); exact H ] | ]).
  apply Forall_nil. exact I.
Qed.

(** X13 -- the falling-harmonics state is well formed at every point of a
    session: after any sequence of messages and blocks on a new processor
    the migrating index is between 1 and 31 and the landed set is
    [{0, ..., k-1}] for some [k <= 31]; index 0 and a full set of 32 are
    never left behind. *)
Theorem falling_state_well_formed (ins : list input) :
  falling_ok (session ins (new wasm_init_ok)).
Proof.
  apply (run_inputs_invariant falling_ok).
  - apply onmessage_falling_ok.
  - apply process_falling_ok.
  - split; [cbn; lia|]. exists 0%nat. split; [lia|reflexivity].
Qed.

Lemma js_rem_1_neg (x : R) : x < 0 -> -1 < js_rem x 1 <= 0.
Proof.
  intros Hx. unfold js_rem, Rtrunc.
  replace (x / 1) with x by field.
  destruct (Rle_dec 0 x) as [Hp|_]; [lra|].
  destruct (base_Int_part (- x)) as [H1 H2].
  rewrite opp_IZR. lra.
Qed.






End SessionFacts.

(* ===================================================================== *)
(** * The random values and the LFO phase over a session *)
(* ===================================================================== *)

Section SessionRanges.

Import Processor.
Local Open Scope R_scope.

Variable sampleRate : R.
Variable Math_pow : R -> R -> R.
Variable Math_random : nat -> R.
Variable add_sines : list R -> list R.
Variable wasm_init_ok : bool.

Hypothesis Math_random_range : forall n, 0 <= Math_random n < 1.

Local Abbreviation process := (Processor.process sampleRate Math_pow Math_random).
Local Abbreviation beginBlock := (Processor.beginBlock sampleRate Math_random).
Local Abbreviation onmessage := (Processor.onmessage Math_random add_sines).
Local Abbreviation startSynth := (Processor.startSynth Math_random add_sines).
Local Abbreviation session :=
  (run_inputs sampleRate Math_pow Math_random add_sines).

Lemma random_ok_values (s s' : t) :
  randomValues s' = randomValues s -> random_ok s -> random_ok s'.
Proof. unfold random_ok. intros ->. intros H. exact H. Qed.

Lemma fold_left_random_ok {A : Type} (f : t -> A -> t) (l : list A) :
  (forall s a, random_ok s -> random_ok (f s a)) ->
  forall s, random_ok s -> random_ok (fold_left f l s).
Proof.
  intros Hf. induction l as [|a l IH]; intros s Hs; [exact Hs|].
  cbn [fold_left]. apply IH, Hf, Hs.
Qed.

Lemma redraw_random_ok (i : nat) (s : t) :
  random_ok s ->
  random_ok
    (let '(r, s) := random Math_random s in
     set_randomValues (<[i := r * 2 - 1]> (randomValues s)) s).
Proof.
  intros [Hl Hr]. unfold random.
  change (random_ok
            (set_randomValues
               (<[i := Math_random (randomCalls s) * 2 - 1]> (randomValues s))
               (set_randomCalls (S (randomCalls s)) s))).
  unfold random_ok.
  change (randomValues (set_randomValues ?l _)) with l.
  split.
  - rewrite length_insert. exact Hl.
  - apply Forall_insert; [exact Hr|].
    pose proof (Math_random_range (randomCalls s)). lra.
Qed.

Lemma startSynth_random_ok (s : t) : random_ok s -> random_ok (startSynth s).
Proof.
  intros H. unfold Processor.startSynth. cbv zeta.
  generalize (seq 0 NUM_PARTIALS) at 1. intros l2.
  generalize (seq 0 NUM_PARTIALS). intros l1.
  match goal with
  | |- random_ok (set_started true ?x) => change (random_ok x)
  end.
  apply fold_left_random_ok; [intros x i Hx; apply redraw_random_ok, Hx|].
  eapply random_ok_values; [|exact H].
  rewrite (fold_left_proj randomValues) by reflexivity. reflexivity.
Qed.

Lemma updateRandomModulator_random_ok (blockSize : nat) (s : t) :
  random_ok s ->
  random_ok (updateRandomModulator sampleRate Math_random blockSize s).
Proof.
  intros H. unfold updateRandomModulator.
  destruct (negb (randomEnabled s)); [exact H|].
  generalize (seq 0 NUM_PARTIALS). intros l.
  apply fold_left_random_ok; [|exact H].
  intros x i Hx. unfold random at 1.
  destruct (Rlt_dec _ _); [|exact Hx].
  apply (redraw_random_ok i (set_randomCalls (S (randomCalls x)) x)), Hx.
Qed.

Lemma beginBlock_random_ok (blockSize : nat) (cs : Z) (s : t) :
  random_ok s -> random_ok (beginBlock blockSize cs s).
Proof.
  intros H. unfold Processor.beginBlock. cbv zeta.
  match goal with
  | |- random_ok (set_scheduler ?S ?x) => change (random_ok x)
  end.
  match goal with
  | |- random_ok (updateFallingHarmonics ?r ?x) =>
      apply (random_ok_values x)
  end.
  { unfold updateFallingHarmonics, random.
    destruct (negb (fallingEnabled _)); [reflexivity|].
    cbv zeta.
    repeat match goal with
           | |- context [if ?c then _ else _] => destruct c
           end; reflexivity. }
  match goal with
  | |- random_ok (updateBarberPolePhase ?sr ?b ?x) =>
      apply (random_ok_values x)
  end.
  { unfold updateBarberPolePhase.
    destruct (negb (barberPoleEnabled _)); reflexivity. }
  apply updateRandomModulator_random_ok. exact H.
Qed.

Lemma process_random_ok (hasOutput : bool) (blockSize : nat) (cs : Z) (s : t) :
  random_ok s -> random_ok (process hasOutput blockSize cs s).
Proof.
  intros H.
  pose proof (process_proj sampleRate Math_pow Math_random randomValues
                (fun _ _ => eq_refl) (fun _ _ => eq_refl) (fun _ _ => eq_refl)
                (fun _ _ => eq_refl) (fun _ _ => eq_refl) (fun _ _ => eq_refl)
                hasOutput blockSize cs s) as E.
  destruct (ready s && hasOutput && started s).
  - eapply random_ok_values; [exact E|]. apply beginBlock_random_ok, H.
  - eapply random_ok_values; [exact E|exact H].
Qed.

Lemma onmessage_random_ok (type : string) (v : jsval) (s : t) :
  random_ok s -> random_ok (onmessage type v s).
Proof.
  intros H. apply onmessage_cases; [assumption|].
  unfold messageHandlers.
  repeat (apply Forall_cons; split;
          [ cbn [snd]; cbv zeta;
            first
              [ exact H
              | destruct (negb (started s) && ready s); [|exact H];
                apply startSynth_random_ok, H
              | destruct (js_Boolean v); [exact H|];
                change (random_ok
                          (set_randomValues
                             (replicate (length (randomValues s)) 1)
                             (set_randomEnabled false s)));
                destruct H as [Hl Hr]; unfold random_ok;
                change (randomValues (set_randomValues ?l _)) with l;
                split;
                [ rewrite length_replicate; exact Hl
                | apply Forall_replicate; lra ]
              | destruct (js_Boolean v); exact H ] | ]).
  apply Forall_nil. exact I.
Qed.

(** X15 -- the random modulator stays in range over a session: with
    [Math.random] in [0, 1), after any sequence of messages and blocks on
    a new processor there are 32 random values, each in [-1, 1]. *)
Theorem random_values_stay_in_range (ins : list input) :
  random_ok (session ins (new wasm_init_ok)).
Proof.
  apply (run_inputs_invariant sampleRate Math_pow Math_random add_sines
           random_ok).
  - apply onmessage_random_ok.
  - apply process_random_ok.
  - split; [reflexivity|]. apply Forall_replicate. lra.
Qed.





End SessionRanges.

(* ===================================================================== *)
(** * The scheduling loop of [process] in closed form *)
(* ===================================================================== *)

Section BlockFacts.

Import Processor.
Local Open Scope R_scope.

Variable sampleRate : R.
Variable Math_pow : R -> R -> R.
Variable Math_random : nat -> R.

Local Abbreviation process := (Processor.process sampleRate Math_pow Math_random).
Local Abbreviation beginBlock := (Processor.beginBlock sampleRate Math_random).
Local Abbreviation schedulePartial :=
  (Processor.schedulePartial sampleRate Math_pow).
Local Abbreviation combinedAmplitude :=
  (Processor.combinedAmplitude sampleRate Math_pow).
Local Abbreviation section_of := (scheduled_section sampleRate Math_pow).
Local Abbreviation with_arrays S A F x :=
  (set_lastFreqEventSample F (set_lastAmpEventSample A (set_scheduler S x))).

Lemma run_fst_app (o1 o2 : list Scheduler.op) :
  forall S : Scheduler.t,
    (Scheduler.run (o1 ++ o2) S).1
    = (Scheduler.run o2 (Scheduler.run o1 S).1).1.
Proof.
  induction o1 as [|o o1 IH]; intros S; [reflexivity|].
  cbn [app Scheduler.run].
  destruct (Scheduler.step o S) as [s1 w1]. specialize (IH s1).
  destruct (Scheduler.run (o1 ++ o2) s1) as [s2 w2].
  destruct (Scheduler.run o1 s1) as [s3 w3]. cbn [fst] in *. exact IH.
Qed.

Lemma run_fst_cons (o : Scheduler.op) (ops : list Scheduler.op)
      (S : Scheduler.t) :
  (Scheduler.run (o :: ops) S).1
  = (Scheduler.run ops (Scheduler.step o S).1).1.
Proof.
  cbn [Scheduler.run]. destruct (Scheduler.step o S) as [s1 w1]. cbn [fst].
  destruct (Scheduler.run ops s1) as [s2 w2]. reflexivity.
Qed.

Lemma fold_addAmp (f : Z -> R) (l : list Z) :
  forall S : Scheduler.t,
    fold_left (fun S ts => addAmp ts (f ts) S) l S
    = (Scheduler.run
         (map (fun ts => Scheduler.AddAmplitudeEvent (IZR ts) (f ts)) l) S).1.
Proof.
  induction l as [|a l IH]; intros S; [reflexivity|].
  cbn [fold_left map]. rewrite run_fst_cons, IH. f_equal.
  unfold addAmp. cbn [Scheduler.step].
  destruct (Scheduler.addAmplitudeEvent _ _ _) as [[b s'] w]. reflexivity.
Qed.

Lemma fold_addFreq (f : Z -> R) (l : list Z) :
  forall S : Scheduler.t,
    fold_left (fun S ts => addFreq ts (f ts) S) l S
    = (Scheduler.run
         (map (fun ts => Scheduler.AddFrequencyEvent (IZR ts) (f ts)) l) S).1.
Proof.
  induction l as [|a l IH]; intros S; [reflexivity|].
  cbn [fold_left map]. rewrite run_fst_cons, IH. f_equal.
  unfold addFreq. cbn [Scheduler.step].
  destruct (Scheduler.addFrequencyEvent _ _ _) as [[b s'] w]. reflexivity.
Qed.

Lemma cursor_after_next (a : Z) (n : nat) (lg : option Z) :
  Tracker.cursor_after (a + EVENT_INTERVAL) EVENT_INTERVAL n (Some a)
  = Tracker.cursor_after a EVENT_INTERVAL (S n) lg.
Proof.
  destruct n as [|n]; cbn [Tracker.cursor_after]; f_equal; lia.
Qed.

Lemma ampLoop_eq (cs tgt : Z) (i : nat) (x : t) (n : nat) :
  forall (a : Z) (lg : option Z) (S : Scheduler.t),
    Tracker.count a tgt EVENT_INTERVAL = n ->
    ampLoop sampleRate Math_pow n cs tgt i a lg (set_scheduler S x)
    = (Tracker.cursor_after a EVENT_INTERVAL n lg,
       set_scheduler
         (fold_left (fun S ts => addAmp ts (combinedAmplitude (ts - cs) i x / 16) S)
                    (Tracker.ticks a EVENT_INTERVAL n) S)
         x).
Proof.
  induction n as [|n IH]; intros a lg S Hc; [reflexivity|].
  apply count_succ in Hc; [|reflexivity]. destruct Hc as [Hle Hc].
  cbn [ampLoop]. destruct (Z.leb_spec a tgt) as [_|]; [|lia].
  cbv zeta.
  change (set_scheduler ?T (set_scheduler S x)) with (set_scheduler T x).
  rewrite IH by exact Hc.
  rewrite cursor_after_next with (lg := lg). reflexivity.
Qed.

Lemma freqLoop_eq (tgt : Z) (pn pm : R) (x : t) (n : nat) :
  forall (f : Z) (lg : option Z) (S : Scheduler.t),
    Tracker.count f tgt EVENT_INTERVAL = n ->
    freqLoop n tgt pn pm f lg (set_scheduler S x)
    = (Tracker.cursor_after f EVENT_INTERVAL n lg,
       set_scheduler
         (fold_left (fun S ts => addFreq ts (baseFreq x * pm * pn) S)
                    (Tracker.ticks f EVENT_INTERVAL n) S)
         x).
Proof.
  induction n as [|n IH]; intros f lg S Hc; [reflexivity|].
  apply count_succ in Hc; [|reflexivity]. destruct Hc as [Hle Hc].
  cbn [freqLoop]. destruct (Z.leb_spec f tgt) as [_|]; [|lia].
  cbv zeta.
  change (set_scheduler ?T (set_scheduler S x)) with (set_scheduler T x).
  rewrite IH by exact Hc.
  rewrite cursor_after_next with (lg := lg). reflexivity.
Qed.

(** One iteration of the scheduling loop: the calls of its section on the
    scheduler, and each cursor moved to the last timestamp of its stream. *)
Lemma schedulePartial_eq (cs tgt : Z) (s : t) (i : nat) :
  let la := nth i (lastAmpEventSample s) None in
  let lf := nth i (lastFreqEventSample s) None in
  schedulePartial cs tgt s i
  = with_arrays
      (Scheduler.run (Frame.section_ops (section_of cs tgt s la lf i))
                     (scheduler s)).1
      (if decide (next_cursor cs tgt la = la) then lastAmpEventSample s
       else array_set i (next_cursor cs tgt la) (lastAmpEventSample s))
      (if decide (next_cursor cs tgt lf = lf) then lastFreqEventSample s
       else array_set i (next_cursor cs tgt lf) (lastFreqEventSample s))
      s.
Proof.
  intros la lf.
  assert (HS :
    (Scheduler.run (Frame.section_ops (section_of cs tgt s la lf i))
                   (scheduler s)).1
    = (Scheduler.endSine
         (fold_left
            (fun S ts =>
               addFreq ts (baseFreq s * evaluateKeyboardPitch s * INR (i + 1)) S)
            (stamps cs tgt lf)
            (fold_left
               (fun S ts => addAmp ts (combinedAmplitude (ts - cs) i s / 16) S)
               (stamps cs tgt la)
               (Scheduler.beginSine (nth i (sineIds s) 0) false
                                    (scheduler s)).1))).1).
  { unfold Frame.section_ops, scheduled_section.
    cbn [Frame.sineId Frame.override Frame.events].
    rewrite run_fst_cons. cbn [Scheduler.step].
    rewrite map_app, <- app_assoc, !run_fst_app.
    rewrite !map_map. cbn [Frame.event_op].
    rewrite <- fold_addAmp, <- fold_addFreq.
    rewrite run_fst_cons. reflexivity. }
  rewrite HS. clear HS.
  unfold Processor.schedulePartial. cbv zeta.
  rewrite (ampLoop_eq cs tgt i s _ _ _ _ eq_refl).
  destruct (decide (Tracker.cursor_after _ _ _ _ = _)) as [e1|n1];
    destruct (decide (next_cursor cs tgt la = la)) as [e1'|n1'];
    try (exfalso; apply n1'; exact e1);
    try (exfalso; apply n1; exact e1').
  - rewrite (freqLoop_eq tgt _ _ s _ _ _ _ eq_refl).
    destruct (decide (Tracker.cursor_after _ _ _ _ = _)) as [e2|n2];
      destruct (decide (next_cursor cs tgt lf = lf)) as [e2'|n2'];
      try (exfalso; apply n2'; exact e2);
      try (exfalso; apply n2; exact e2');
      reflexivity.
  - match goal with
    | |- context [freqLoop ?n ?t ?pn ?pm ?f ?l (set_lastAmpEventSample ?A (set_scheduler ?S s))] =>
        change (freqLoop n t pn pm f l (set_lastAmpEventSample A (set_scheduler S s)))
          with (freqLoop n t pn pm f l (set_scheduler S (set_lastAmpEventSample A s)))
    end.
    rewrite (freqLoop_eq tgt _ _ _ _ _ _ _ eq_refl).
    destruct (decide (Tracker.cursor_after _ _ _ _ = _)) as [e2|n2];
      destruct (decide (next_cursor cs tgt lf = lf)) as [e2'|n2'];
      try (exfalso; apply n2'; exact e2);
      try (exfalso; apply n2; exact e2');
      reflexivity.
Qed.

Lemma cursor_step (g : option Z -> option Z) (l : list (option Z)) (n : nat) :
  (n < length l)%nat ->
  let l' := map g (take n l) ++ drop n l in
  nth n l' None = nth n l None
  /\ (if decide (g (nth n l None) = nth n l None) then l'
      else array_set n (g (nth n l None)) l')
     = map g (take (S n) l) ++ drop (S n) l.
Proof.
  intros Hn l'.
  destruct (lookup_lt_is_Some_2 l n Hn) as [a Ha].
  assert (HP : length (map g (take n l)) = n)
    by (rewrite length_map, length_take; lia).
  assert (Hl' : l' = map g (take n l) ++ a :: drop (S n) l)
    by (subst l'; rewrite (drop_S l a n Ha); reflexivity).
  assert (Ha' : nth n l None = a) by (rewrite nth_lookup, Ha; reflexivity).
  assert (Hnth : nth n l' None = a).
  { rewrite Hl', nth_lookup, list_lookup_middle by (symmetry; exact HP).
    reflexivity. }
  split; [congruence|].
  rewrite Ha', (take_S_r l n a Ha), map_app, <- app_assoc. cbn [map app].
  destruct (decide (g a = a)) as [e|ne].
  - rewrite e. exact Hl'.
  - unfold array_set.
    assert (Hlen : length l' = length l).
    { subst l'. rewrite length_app, HP, length_drop. lia. }
    rewrite Hlen. destruct (Nat.ltb_spec n (length l)) as [_|]; [|lia].
    rewrite Hl', (insert_app_at _ _ n 0) by lia. reflexivity.
Qed.

Lemma schedule_fold (cs tgt : Z) (x : t) (A0 F0 : list (option Z)) (n : nat) :
  (n <= length A0)%nat -> (n <= length F0)%nat ->
  forall S0 : Scheduler.t,
    fold_left (schedulePartial cs tgt) (seq 0 n) (with_arrays S0 A0 F0 x)
    = with_arrays
        (Scheduler.run
           (flat_map Frame.section_ops
              (map (fun i => section_of cs tgt x (nth i A0 None)
                                        (nth i F0 None) i)
                   (seq 0 n)))
           S0).1
        (map (next_cursor cs tgt) (take n A0) ++ drop n A0)
        (map (next_cursor cs tgt) (take n F0) ++ drop n F0)
        x.
Proof.
  induction n as [|n IH]; intros HA HF S0; [reflexivity|].
  rewrite seq_S, fold_left_app, IH by lia. cbn [fold_left Nat.add].
  rewrite schedulePartial_eq. cbv zeta.
  change (lastAmpEventSample (with_arrays ?S ?A ?F x)) with A.
  change (lastFreqEventSample (with_arrays ?S ?A ?F x)) with F.
  change (scheduler (with_arrays ?S ?A ?F x)) with S.
  change (section_of cs tgt (with_arrays ?S ?A ?F x))
    with (section_of cs tgt x).
  destruct (cursor_step (next_cursor cs tgt) A0 n ltac:(lia)) as [HnA HsA].
  destruct (cursor_step (next_cursor cs tgt) F0 n ltac:(lia)) as [HnF HsF].
  cbv zeta in HnA, HsA, HnF, HsF.
  rewrite HnA, HnF, HsA, HsF.
  rewrite map_app, flat_map_app, run_fst_app. cbn [map flat_map].
  rewrite app_nil_r. reflexivity.
Qed.

Lemma fold_sections (f : nat -> Frame.section) (l : list nat) :
  forall S : Scheduler.t,
    fold_left (fun S i => (Scheduler.run (Frame.section_ops (f i)) S).1) l S
    = (Scheduler.run (flat_map Frame.section_ops (map f l)) S).1.
Proof.
  induction l as [|i l IH]; intros S; [reflexivity|].
  cbn [fold_left map flat_map]. rewrite run_fst_app. apply IH.
Qed.









(** [process] on a block without pending keyboard change: the state after
    [beginBlock], with the scheduler run over one section per partial and
    every cursor moved. *)
Lemma process_regular (blockSize : nat) (cs : Z) (s : t) :
  ready s = true -> started s = true -> allocated s ->
  needsImmediateEvent s = false ->
  exists x : t,
    kept x = kept s
    /\ beginBlock blockSize cs s
       = set_scheduler (Scheduler.beginFrame (scheduler x)).1 x
    /\ process true blockSize cs s
       = with_arrays
           (Scheduler.run
              (flat_map Frame.section_ops
                 (map (fun i =>
                         section_of cs (cs + Z.of_nat blockSize + EVENT_INTERVAL)
                                    x (nth i (lastAmpEventSample s) None)
                                    (nth i (lastFreqEventSample s) None) i)
                      (seq 0 NUM_PARTIALS)))
              (Scheduler.beginFrame (scheduler x)).1).1
           (map (next_cursor cs (cs + Z.of_nat blockSize + EVENT_INTERVAL))
                (lastAmpEventSample s))
           (map (next_cursor cs (cs + Z.of_nat blockSize + EVENT_INTERVAL))
                (lastFreqEventSample s))
           x.
Proof.
  intros Hr Hst (_ & _ & _ & _ & HlA & HlF) Hn.
  destruct (beginBlock_kept sampleRate Math_random blockSize cs s)
    as (x & Hbb & Hk).
  exists x. split; [exact Hk|]. split; [exact Hbb|].
  unfold kept in Hk.
  injection Hk as _ _ _ HA HF Hnx _ _ _ _ _ _ _ _.
  unfold Processor.process. rewrite Hr, Hst. cbn [negb]. cbv zeta.
  rewrite Hbb.
  change (needsImmediateEvent (set_scheduler ?B x))
    with (needsImmediateEvent x).
  rewrite Hnx, Hn.
  change (set_scheduler ?B x)
    with (with_arrays B (lastAmpEventSample x) (lastFreqEventSample x) x).
  rewrite schedule_fold by (rewrite ?HA, ?HF, ?HlA, ?HlF; reflexivity).
  rewrite HA, HF.
  rewrite !take_ge, !drop_ge, !app_nil_r by (rewrite ?HlA, ?HlF; reflexivity).
  reflexivity.
Qed.


Lemma step_addAmplitudeEvent (sample value : R) (S : Scheduler.t) :
  (Scheduler.step (Scheduler.AddAmplitudeEvent sample value) S).1
  = (Scheduler.addAmplitudeEvent sample value S).1.2.
Proof.
  cbn [Scheduler.step].
  destruct (Scheduler.addAmplitudeEvent _ _ _) as [[b s'] w]. reflexivity.
Qed.

Lemma step_addFrequencyEvent (sample freqHz : R) (S : Scheduler.t) :
  (Scheduler.step (Scheduler.AddFrequencyEvent sample freqHz) S).1
  = (Scheduler.addFrequencyEvent sample freqHz S).1.2.
Proof.
  cbn [Scheduler.step].
  destruct (Scheduler.addFrequencyEvent _ _ _) as [[b s'] w]. reflexivity.
Qed.

(** One iteration of the injection loop is the run of its section. *)
Lemma sched_step_section (cs : Z) (s0 : t) (S : Scheduler.t) (i : nat) :
  Processor.sched_step sampleRate Math_pow cs s0 S i
  = (Scheduler.run
       (Frame.section_ops (injected_section sampleRate Math_pow cs s0 i)) S).1.
Proof.
  unfold Processor.sched_step, Scheduler.inject_section, Frame.section_ops,
    injected_section.
  cbv zeta. cbn [Frame.sineId Frame.override Frame.events map Frame.event_op app].
  rewrite run_fst_cons.
  rewrite run_fst_cons, step_addAmplitudeEvent.
  rewrite run_fst_cons, step_addAmplitudeEvent.
  rewrite run_fst_cons, step_addFrequencyEvent.
  rewrite run_fst_cons, step_addFrequencyEvent.
  rewrite run_fst_cons. reflexivity.
Qed.

Lemma fold_sched_step (cs : Z) (s0 : t) (l : list nat) :
  forall S : Scheduler.t,
    fold_left (Processor.sched_step sampleRate Math_pow cs s0) l S
    = (Scheduler.run
         (flat_map Frame.section_ops
            (map (injected_section sampleRate Math_pow cs s0) l)) S).1.
Proof.
  induction l as [|i l IH]; intros S; [reflexivity|].
  cbn [fold_left map flat_map].
  rewrite run_fst_app, <- sched_step_section. apply IH.
Qed.


Lemma nth_replicate_lt {A : Type} (n i : nat) (v d : A) :
  (i < n)%nat -> nth i (replicate n v) d = v.
Proof.
  intros Hi. rewrite nth_lookup, lookup_replicate_2 by exact Hi. reflexivity.
Qed.

(** [process] on a block with a pending keyboard change: the injected
    sections, then the scheduled ones, on cursors at the ramp sample. *)
Lemma process_injection (blockSize : nat) (cs : Z) (s : t) :
  ready s = true -> started s = true -> allocated s ->
  needsImmediateEvent s = true ->
  let ramp := Some (cs + KEYBOARD_RAMP_SAMPLES)%Z in
  let tgt := (cs + Z.of_nat blockSize + EVENT_INTERVAL)%Z in
  exists x : t,
    kept x = kept s
    /\ beginBlock blockSize cs s
       = set_scheduler (Scheduler.beginFrame (scheduler x)).1 x
    /\ process true blockSize cs s
       = with_arrays
           (Scheduler.run
              (flat_map Frame.section_ops
                 (map (injected_section sampleRate Math_pow cs x)
                      (seq 0 NUM_PARTIALS)
                  ++ map (section_of cs tgt x ramp ramp) (seq 0 NUM_PARTIALS)))
              (Scheduler.beginFrame (scheduler x)).1).1
           (replicate NUM_PARTIALS (next_cursor cs tgt ramp))
           (replicate NUM_PARTIALS (next_cursor cs tgt ramp))
           (set_needsImmediateEvent false
              (set_prevKeyboardGateOpen (keyboardGateOpen x)
                 (set_prevKeyboardPitchRatio (keyboardPitchRatio x) x))).
Proof.
  intros Hr Hst (_ & _ & _ & _ & HlA & HlF) Hn ramp tgt.
  destruct (beginBlock_kept sampleRate Math_random blockSize cs s)
    as (x & Hbb & Hk).
  exists x. split; [exact Hk|]. split; [exact Hbb|].
  unfold kept in Hk.
  injection Hk as _ _ _ HA HF Hnx _ _ _ _ _ _ _ _.
  unfold Processor.process. rewrite Hr, Hst. cbn [negb]. cbv zeta.
  rewrite Hbb.
  change (needsImmediateEvent (set_scheduler ?B x))
    with (needsImmediateEvent x).
  rewrite Hnx, Hn.
  unfold Processor.injectImmediateEvents. cbv zeta.
  rewrite injectLoop_eq.
  change (lastAmpEventSample (set_scheduler ?B x)) with (lastAmpEventSample x).
  change (lastFreqEventSample (set_scheduler ?B x))
    with (lastFreqEventSample x).
  change (scheduler (set_scheduler ?B x)) with B.
  rewrite !array_set_fill by (rewrite ?HA, ?HF, ?HlA, ?HlF; reflexivity).
  rewrite !drop_ge, !app_nil_r by (rewrite ?HA, ?HF, ?HlA, ?HlF; reflexivity).
  set (B := (Scheduler.beginFrame (scheduler x)).1).
  set (S1 := fold_left (Processor.sched_step sampleRate Math_pow cs
                          (set_scheduler B x))
                       (seq 0 NUM_PARTIALS) B).
  set (x' := set_needsImmediateEvent false
               (set_prevKeyboardGateOpen (keyboardGateOpen x)
                  (set_prevKeyboardPitchRatio (keyboardPitchRatio x) x))).
  transitivity
    (fold_left (schedulePartial cs tgt) (seq 0 NUM_PARTIALS)
               (with_arrays S1 (replicate NUM_PARTIALS ramp)
                            (replicate NUM_PARTIALS ramp) x'));
    [reflexivity|].
  rewrite schedule_fold by (rewrite length_replicate; reflexivity).
  rewrite !take_ge, !drop_ge, !app_nil_r
    by (rewrite length_replicate; reflexivity).
  assert (Hmap : map (next_cursor cs tgt) (replicate NUM_PARTIALS ramp)
                 = replicate NUM_PARTIALS (next_cursor cs tgt ramp))
    by reflexivity.
  rewrite Hmap. clear Hmap.
  assert (Hsecs :
    map (fun i => section_of cs tgt x'
                    (nth i (replicate NUM_PARTIALS ramp) None)
                    (nth i (replicate NUM_PARTIALS ramp) None) i)
        (seq 0 NUM_PARTIALS)
    = map (section_of cs tgt x ramp ramp) (seq 0 NUM_PARTIALS)).
  { apply map_ext_in. intros i Hi. apply in_seq in Hi.
    rewrite !nth_replicate_lt by lia. reflexivity. }
  rewrite Hsecs. clear Hsecs.
  assert (HS1 : S1 = (Scheduler.run
                        (flat_map Frame.section_ops
                           (map (injected_section sampleRate Math_pow cs x)
                                (seq 0 NUM_PARTIALS))) B).1).
  { subst S1. rewrite fold_sched_step. reflexivity. }
  rewrite HS1, flat_map_app, run_fst_app. reflexivity.
Qed.




(** The cursor a stream is left with lies in the last interval before the
    target, when it was not beyond the target already. *)
Lemma next_cursor_range (cs tgt : Z) (last : option Z) :
  (cs <= tgt)%Z ->
  match last with Some l => (l <= tgt)%Z | None => True end ->
  match next_cursor cs tgt last with
  | Some l => (tgt - EVENT_INTERVAL < l <= tgt)%Z
  | None => False
  end.
Proof.
  intros Hcs Hlast. unfold next_cursor. cbv zeta.
  set (first := firstSample cs last).
  destruct (Tracker.count first tgt EVENT_INTERVAL) as [|n] eqn:Hc.
  - apply count_zero in Hc; [|reflexivity].
    cbn [Tracker.cursor_after]. subst first.
    destruct last as [l|]; cbn [firstSample] in Hc; [|lia].
    unfold EVENT_INTERVAL in *. lia.
  - cbn [Tracker.cursor_after].
    assert (H1 : (first + Z.of_nat n * EVENT_INTERVAL <= tgt)%Z).
    { apply (lt_count first tgt EVENT_INTERVAL n); [reflexivity|].
      rewrite Hc. lia. }
    assert (H2 : ~ (first + Z.of_nat (S n) * EVENT_INTERVAL <= tgt)%Z).
    { intros H. apply (lt_count first tgt EVENT_INTERVAL (S n)) in H;
        [|reflexivity]. rewrite Hc in H. lia. }
    unfold EVENT_INTERVAL in *. lia.
Qed.

(** X19 -- lookahead: after a block on a started processor every cursor
    lies in the 128 samples that follow the end of the block, provided no
    cursor was beyond the block's target already (which a keyboard change
    makes irrelevant, since it resets the cursors). *)
Theorem cursors_ahead_of_block_end
        (blockSize : nat) (currentSample : Z) (s : t) :
  ready s = true -> started s = true -> allocated s ->
  (needsImmediateEvent s = false ->
   Forall (fun c => match c with
                    | Some l =>
                        (l <= currentSample + Z.of_nat blockSize
                              + EVENT_INTERVAL)%Z
                    | None => True
                    end)
          (lastAmpEventSample s ++ lastFreqEventSample s)) ->
  let blockEnd := (currentSample + Z.of_nat blockSize)%Z in
  let s' := process true blockSize currentSample s in
  Forall (fun c => match c with
                   | Some l => (blockEnd < l <= blockEnd + EVENT_INTERVAL)%Z
                   | None => False
                   end)
         (lastAmpEventSample s' ++ lastFreqEventSample s').
Proof.
  intros Hr Hst Hal Hcur blockEnd s'.
  set (tgt := (currentSample + Z.of_nat blockSize + EVENT_INTERVAL)%Z) in *.
  assert (Hcs : (currentSample <= tgt)%Z)
    by (subst tgt; unfold EVENT_INTERVAL; lia).
  assert (Hg : forall c : option Z,
             match c with Some l => (l <= tgt)%Z | None => True end ->
             match next_cursor currentSample tgt c with
             | Some l => (blockEnd < l <= blockEnd + EVENT_INTERVAL)%Z
             | None => False
             end).
  { intros c Hc. pose proof (next_cursor_range currentSample tgt c Hcs Hc) as H.
    destruct (next_cursor currentSample tgt c); [|exact H].
    subst tgt blockEnd. unfold EVENT_INTERVAL in *. lia. }
  destruct (needsImmediateEvent s) eqn:Hn.
  - destruct (process_injection blockSize currentSample s Hr Hst Hal Hn)
      as (x & _ & _ & Hp).
    cbv zeta in Hp. subst s'. rewrite Hp.
    change (lastAmpEventSample (with_arrays ?S ?A ?F ?y)) with A.
    change (lastFreqEventSample (with_arrays ?S ?A ?F ?y)) with F.
    apply Forall_app. split.
    + apply Forall_replicate, Hg.
      subst tgt. unfold KEYBOARD_RAMP_SAMPLES, EVENT_INTERVAL. lia.
    + apply Forall_replicate, Hg.
      subst tgt. unfold KEYBOARD_RAMP_SAMPLES, EVENT_INTERVAL. lia.
  - destruct (process_regular blockSize currentSample s Hr Hst Hal Hn)
      as (x & _ & _ & Hp).
    subst s'. rewrite Hp.
    change (lastAmpEventSample (with_arrays ?S ?A ?F ?y)) with A.
    change (lastFreqEventSample (with_arrays ?S ?A ?F ?y)) with F.
    specialize (Hcur eq_refl). apply Forall_app in Hcur.
    destruct Hcur as [HA HF].
    apply Forall_app. split.
    + rewrite List.Forall_map. eapply Forall_impl; [exact HA|]. exact Hg.
    + rewrite List.Forall_map. eapply Forall_impl; [exact HF|]. exact Hg.
Qed.






End BlockFacts.

(* ===================================================================== *)
(** * A started processor stays allocated *)
(* ===================================================================== *)

Section AllocatedFacts.

Import Processor.
Local Open Scope R_scope.

Variable sampleRate : R.
Variable Math_pow : R -> R -> R.
Variable Math_random : nat -> R.
Variable add_sines : list R -> list R.
Variable wasm_init_ok : bool.

Local Abbreviation process := (Processor.process sampleRate Math_pow Math_random).
Local Abbreviation onmessage := (Processor.onmessage Math_random add_sines).
Local Abbreviation startSynth := (Processor.startSynth Math_random add_sines).
Local Abbreviation session :=
  (run_inputs sampleRate Math_pow Math_random add_sines).
Local Abbreviation with_arrays S A F x :=
  (set_lastFreqEventSample F (set_lastAmpEventSample A (set_scheduler S x))).

Lemma step_sizes (o : Scheduler.op) (S : Scheduler.t) :
  length (Scheduler.ampBuffer (Scheduler.step o S).1)
  = length (Scheduler.ampBuffer S)
  /\ length (Scheduler.freqBuffer (Scheduler.step o S).1)
     = length (Scheduler.freqBuffer S)
  /\ Scheduler.maxEventsPerSine (Scheduler.step o S).1
     = Scheduler.maxEventsPerSine S.
Proof.
  destruct o as [| id ov | sample value | sample freqHz |];
    cbn [Scheduler.step];
    unfold Scheduler.beginFrame, Scheduler.beginSine,
      Scheduler.addAmplitudeEvent, Scheduler.addFrequencyEvent,
      Scheduler.endSine;
    try destruct (_ <=? _);
    cbn [fst snd Scheduler.ampBuffer Scheduler.freqBuffer
         Scheduler.maxEventsPerSine];
    rewrite ?length_insert; repeat split; reflexivity.
Qed.

Lemma run_sizes (ops : list Scheduler.op) :
  forall S : Scheduler.t,
    length (Scheduler.ampBuffer (Scheduler.run ops S).1)
    = length (Scheduler.ampBuffer S)
    /\ length (Scheduler.freqBuffer (Scheduler.run ops S).1)
       = length (Scheduler.freqBuffer S)
    /\ Scheduler.maxEventsPerSine (Scheduler.run ops S).1
       = Scheduler.maxEventsPerSine S.
Proof.
  induction ops as [|o ops IH]; intros S; [repeat split; reflexivity|].
  rewrite run_fst_cons.
  destruct (IH (Scheduler.step o S).1) as (Ha & Hf & Hc).
  destruct (step_sizes o S) as (Ha' & Hf' & Hc').
  rewrite Ha, Hf, Hc, Ha', Hf', Hc'. repeat split; reflexivity.
Qed.

Lemma array_set_grow {A : Type} (v : A) (n : nat) :
  fold_left (fun a i => array_set i v a) (seq 0 n) [] = replicate n v.
Proof.
  induction n as [|n IH]; [reflexivity|].
  rewrite seq_S, fold_left_app, IH. cbn [fold_left Nat.add].
  unfold array_set. rewrite length_replicate, Nat.ltb_irrefl.
  symmetry. apply replicate_S_end.
Qed.

Lemma startSynth_fields (ids : list R) (l1 l2 : list nat) (s : t) :
  let r :=
    set_started true
      (fold_left
         (fun s i =>
            let '(r, s) := random Math_random s in
            set_randomValues (<[i := r * 2 - 1]> (randomValues s)) s)
         l2
         (fold_left
            (fun s i =>
               let s := set_lastAmpEventSample
                          (array_set i None (lastAmpEventSample s)) s in
               set_lastFreqEventSample
                 (array_set i None (lastFreqEventSample s)) s)
            l1 (set_sineIds ids s))) in
  started r = true
  /\ scheduler r = scheduler s
  /\ sineIds r = ids
  /\ lastAmpEventSample r
     = fold_left (fun a i => array_set i None a) l1 (lastAmpEventSample s)
  /\ lastFreqEventSample r
     = fold_left (fun a i => array_set i None a) l1 (lastFreqEventSample s).
Proof.
  intros r. subst r. cbv zeta.
  assert (Hrnd : forall (X : Type) (proj : t -> X) (y : t),
             (forall v z, proj (set_randomValues v z) = proj z) ->
             (forall n z, proj (set_randomCalls n z) = proj z) ->
             proj (fold_left
                     (fun s i =>
                        let '(r, s) := random Math_random s in
                        set_randomValues (<[i := r * 2 - 1]> (randomValues s)) s)
                     l2 y) = proj y).
  { intros X proj y H1 H2. apply fold_left_proj. intros z i.
    unfold random. rewrite H1. apply H2. }
  assert (Harr : forall y : t,
             let z := fold_left
                        (fun s i =>
                           let s := set_lastAmpEventSample
                                      (array_set i None (lastAmpEventSample s))
                                      s in
                           set_lastFreqEventSample
                             (array_set i None (lastFreqEventSample s)) s)
                        l1 y in
             scheduler z = scheduler y /\ sineIds z = sineIds y
             /\ lastAmpEventSample z
                = fold_left (fun a i => array_set i None a) l1
                            (lastAmpEventSample y)
             /\ lastFreqEventSample z
                = fold_left (fun a i => array_set i None a) l1
                            (lastFreqEventSample y)).
  { induction l1 as [|i l1 IH]; intros y; [repeat split; reflexivity|].
    cbn [fold_left]. cbv zeta.
    match goal with
    | |- context [fold_left _ l1 ?y'] =>
        destruct (IH y') as (H1 & H2 & H3 & H4)
    end.
    cbv zeta in H1, H2, H3, H4. rewrite H1, H2, H3, H4.
    repeat split; reflexivity. }
  destruct (Harr (set_sineIds ids s)) as (H1 & H2 & H3 & H4).
  cbv zeta in H1, H2, H3, H4.
  change (scheduler (set_sineIds ids s)) with (scheduler s) in H1.
  change (sineIds (set_sineIds ids s)) with ids in H2.
  change (lastAmpEventSample (set_sineIds ids s))
    with (lastAmpEventSample s) in H3.
  change (lastFreqEventSample (set_sineIds ids s))
    with (lastFreqEventSample s) in H4.
  revert H1 H2 H3 H4.
  match goal with
  | |- context [fold_left ?f l1 (set_sineIds ids s)] =>
      generalize (fold_left f l1 (set_sineIds ids s))
  end.
  intros z H1 H2 H3 H4.
  pose proof (Hrnd _ scheduler z (fun _ _ => eq_refl) (fun _ _ => eq_refl)) as G1.
  pose proof (Hrnd _ sineIds z (fun _ _ => eq_refl) (fun _ _ => eq_refl)) as G2.
  pose proof (Hrnd _ lastAmpEventSample z (fun _ _ => eq_refl)
                (fun _ _ => eq_refl)) as G3.
  pose proof (Hrnd _ lastFreqEventSample z (fun _ _ => eq_refl)
                (fun _ _ => eq_refl)) as G4.
  revert G1 G2 G3 G4.
  match goal with
  | |- context [fold_left ?f l2 z] => generalize (fold_left f l2 z)
  end.
  intros w G1 G2 G3 G4.
  change (started (set_started true w) = true
          /\ scheduler w = scheduler s
          /\ sineIds w = ids
          /\ lastAmpEventSample w
             = fold_left (fun a i => array_set i None a) l1
                         (lastAmpEventSample s)
          /\ lastFreqEventSample w
             = fold_left (fun a i => array_set i None a) l1
                         (lastFreqEventSample s)).
  split; [reflexivity|]. split; [exact (eq_trans G1 H1)|].
  split; [exact (eq_trans G2 H2)|].
  split; [exact (eq_trans G3 H3)|exact (eq_trans G4 H4)].
Qed.

Lemma startSynth_arrays (s : t) :
  started (startSynth s) = true
  /\ scheduler (startSynth s) = scheduler s
  /\ sineIds (startSynth s) = add_sines (replicate NUM_PARTIALS 0)
  /\ lastAmpEventSample (startSynth s)
     = fold_left (fun a i => array_set i None a) (seq 0 NUM_PARTIALS)
                 (lastAmpEventSample s)
  /\ lastFreqEventSample (startSynth s)
     = fold_left (fun a i => array_set i None a) (seq 0 NUM_PARTIALS)
                 (lastFreqEventSample s).
Proof.
  exact (startSynth_fields (add_sines (replicate NUM_PARTIALS 0))
                           (seq 0 NUM_PARTIALS) (seq 0 NUM_PARTIALS) s).
Qed.

Lemma onmessage_well_allocated (type : string) (v : jsval) (s : t) :
  length (add_sines (replicate NUM_PARTIALS 0)) = NUM_PARTIALS ->
  well_allocated s -> well_allocated (onmessage type v s).
Proof.
  intros Hids H. apply onmessage_cases; [assumption|].
  unfold messageHandlers.
  apply Forall_cons; split.
  { cbn [snd]. destruct (started s) eqn:Hst; cbn [negb andb]; [exact H|].
    destruct (ready s); [|exact H].
    destruct H as (Ha & Hf & Hc & Harr). rewrite Hst in Harr.
    destruct Harr as [HA HF].
    destruct (startSynth_arrays s) as (Hs & HS & Hi & HlA & HlF).
    unfold well_allocated. rewrite Hs, HS, Hi, HlA, HlF, HA, HF.
    rewrite !array_set_grow, !length_replicate. repeat split; assumption. }
  repeat (apply Forall_cons; split;
          [ cbn [snd]; cbv zeta;
            first [ exact H | destruct (js_Boolean v); exact H ] | ]).
  apply Forall_nil. exact I.
Qed.

Lemma process_well_allocated
      (hasOutput : bool) (blockSize : nat) (cs : Z) (s : t) :
  well_allocated s -> well_allocated (process hasOutput blockSize cs s).
Proof.
  intros H.
  destruct (ready s) eqn:Hr;
    [|unfold Processor.process; rewrite Hr; exact H].
  destruct hasOutput;
    [|unfold Processor.process; rewrite Hr; exact H].
  destruct (started s) eqn:Hst;
    [|unfold Processor.process; rewrite Hr, Hst; exact H].
  destruct H as (Ha & Hf & Hc & Harr). rewrite Hst in Harr.
  destruct Harr as (Hi & HA & HF).
  assert (Hal : allocated s) by (repeat split; assumption).
  assert (Hgoal : forall (x y : t) (ops : list Scheduler.op)
                         (A F : list (option Z)),
             kept x = kept s -> started y = started x ->
             sineIds y = sineIds x ->
             length A = NUM_PARTIALS -> length F = NUM_PARTIALS ->
             well_allocated
               (with_arrays
                  (Scheduler.run ops (Scheduler.beginFrame (scheduler x)).1).1
                  A F y)).
  { intros x y ops A F Hk Hsy Hiy HlA HlF. unfold kept in Hk.
    injection Hk as _ Hsx Hix _ _ _ HS _ _ _ _ _ _ _.
    unfold well_allocated.
    change (scheduler (with_arrays ?S _ _ y)) with S.
    change (started (with_arrays _ _ _ y)) with (started y).
    change (sineIds (with_arrays _ _ _ y)) with (sineIds y).
    change (lastAmpEventSample (with_arrays _ ?A' _ y)) with A'.
    change (lastFreqEventSample (with_arrays _ _ ?F' y)) with F'.
    destruct (run_sizes ops (Scheduler.beginFrame (scheduler x)).1)
      as (Ha' & Hf' & Hc').
    rewrite Ha', Hf', Hc', Hsy, Hsx, Hst, Hiy, Hix.
    change (Scheduler.ampBuffer (Scheduler.beginFrame ?S).1)
      with (Scheduler.ampBuffer S).
    change (Scheduler.freqBuffer (Scheduler.beginFrame ?S).1)
      with (Scheduler.freqBuffer S).
    change (Scheduler.maxEventsPerSine (Scheduler.beginFrame ?S).1)
      with (Scheduler.maxEventsPerSine S).
    rewrite HS. repeat split; assumption. }
  destruct (needsImmediateEvent s) eqn:Hn.
  - destruct (process_injection sampleRate Math_pow Math_random
                blockSize cs s Hr Hst Hal Hn) as (x & Hk & _ & Hp).
    cbv zeta in Hp. rewrite Hp.
    apply Hgoal; try reflexivity; try assumption; apply length_replicate.
  - destruct (process_regular sampleRate Math_pow Math_random
                blockSize cs s Hr Hst Hal Hn) as (x & Hk & _ & Hp).
    rewrite Hp.
    apply Hgoal; try reflexivity; try assumption;
      rewrite length_map; assumption.
Qed.

(** X22 -- a started processor is allocated, at every point of a session:
    when the renderer returns one id per partial, after any sequence of
    messages and blocks on a new processor both buffers have their 608
    cells and the cap is 8, and once [started] is set there are 32 sine
    ids and 32 cursors per stream. *)
Theorem started_processor_is_allocated (ins : list input) :
  length (add_sines (replicate NUM_PARTIALS 0)) = NUM_PARTIALS ->
  let s := session ins (new wasm_init_ok) in
  well_allocated s /\ (started s = true -> allocated s).
Proof.
  intros Hids s.
  assert (H : well_allocated s).
  { subst s.
    apply (run_inputs_invariant sampleRate Math_pow Math_random add_sines
             well_allocated).
    - intros type v x. apply onmessage_well_allocated, Hids.
    - apply process_well_allocated.
    - unfold well_allocated. cbn. repeat split; reflexivity. }
  split; [exact H|]. intros Hst.
  destruct H as (Ha & Hf & Hc & Harr). rewrite Hst in Harr.
  destruct Harr as (Hi & HA & HF). repeat split; assumption.
Qed.

End AllocatedFacts.

(* ===================================================================== *)
(** * Shapes of the comb and PWM modulators *)
(* ===================================================================== *)

Section ModulatorFacts.

Import Processor.
Local Open Scope R_scope.

Lemma cos_plus_2PI_Z (x : R) (k : Z) : cos (x + 2 * IZR k * PI) = cos x.
Proof.
  destruct (Z_le_gt_dec 0 k) as [Hk|Hk].
  - rewrite <- (Z2Nat.id k Hk), <- INR_IZR_INZ. apply cos_period.
  - rewrite <- (cos_period (x + 2 * IZR k * PI) (Z.to_nat (- k))).
    f_equal. rewrite INR_IZR_INZ, Z2Nat.id by lia. rewrite opp_IZR. ring.
Qed.

(** X23 -- the comb is a raised cosine over the harmonic number: with a
    spacing that is not zero its value lies in [0, 1] and repeats every
    [2 * combSpacing] harmonics; with phase 0 it is 1 at the even
    multiples of the spacing and 0 at the odd ones. *)
Theorem comb_is_periodic_raised_cosine (partialNum : R) (s : t) :
  combEnabled s = true -> combSpacing s <> 0 ->
  0 <= evaluateComb partialNum s <= 1
  /\ evaluateComb (partialNum + 2 * combSpacing s) s
     = evaluateComb partialNum s
  /\ (combPhase s = 0 ->
      forall k : Z,
        evaluateComb (2 * IZR k * combSpacing s) s = 1
        /\ evaluateComb ((2 * IZR k + 1) * combSpacing s) s = 0).
Proof.
  intros He Hsp. unfold evaluateComb. rewrite He. cbn [negb].
  split; [|split].
  - pose proof (COS_bound (partialNum * PI / combSpacing s + combPhase s))
      as [H1 H2]. lra.
  - replace ((partialNum + 2 * combSpacing s) * PI / combSpacing s
             + combPhase s)
      with (partialNum * PI / combSpacing s + combPhase s + 2 * IZR 1 * PI)
      by (field; exact Hsp).
    rewrite cos_plus_2PI_Z. reflexivity.
  - intros Hph k. rewrite Hph. split.
    + replace (2 * IZR k * combSpacing s * PI / combSpacing s + 0)
        with (0 + 2 * IZR k * PI) by (field; exact Hsp).
      rewrite cos_plus_2PI_Z, cos_0. lra.
    + replace ((2 * IZR k + 1) * combSpacing s * PI / combSpacing s + 0)
        with (PI + 2 * IZR k * PI) by (field; exact Hsp).
      rewrite cos_plus_2PI_Z, cos_PI. lra.
Qed.

Lemma comb_is_periodic_raised_cosine_witness :
  let s := set_combEnabled true (new true) in
  0 <= evaluateComb 3 s <= 1
  /\ evaluateComb (3 + 2 * combSpacing s) s = evaluateComb 3 s
  /\ (combPhase s = 0 ->
      forall k : Z,
        evaluateComb (2 * IZR k * combSpacing s) s = 1
        /\ evaluateComb ((2 * IZR k + 1) * combSpacing s) s = 0).
Proof.
  intros s.
  apply (comb_is_periodic_raised_cosine 3 s); [reflexivity|].
  cbn. lra.
Defined.

(** The duty cycle as [evaluatePwm] folds it: its fractional part. *)
Lemma pwm_fold (d : R) :
  js_rem (js_rem d 1 + 1) 1 = d - IZR (Int_part d).
Proof.
  assert (Hr : -1 < js_rem d 1 < 1).
  { destruct (Rlt_le_dec d 0) as [Hd|Hd].
    - pose proof (js_rem_1_neg d Hd). lra.
    - pose proof (js_rem_1_nonneg d Hd). lra. }
  pose proof (js_rem_1_nonneg (js_rem d 1 + 1) ltac:(lra)) as Hf.
  assert (Hz : exists z : Z, js_rem (js_rem d 1 + 1) 1 = d - IZR z).
  { unfold js_rem at 1. unfold js_rem at 1.
    exists (Rtrunc (d / 1) - 1 + Rtrunc ((js_rem d 1 + 1) / 1))%Z.
    rewrite plus_IZR, minus_IZR. ring. }
  destruct Hz as [z Hz]. rewrite Hz in *.
  replace (Int_part d) with z; [reflexivity|].
  apply Int_part_spec. lra.
Qed.

(** X24 -- the PWM modulator sees the duty cycle modulo 1: its value is
    that of the fractional part of the duty, so a duty shifted by a whole
    number gives the same spectrum, a negative one included. *)
Theorem pwm_duty_counts_modulo_one (partialNum : R) (s : t) (k : Z) :
  pwmEnabled s = true ->
  evaluatePwm partialNum s
  = 2 / (partialNum * PI)
    * sin (partialNum * PI * (pwmDuty s - IZR (Int_part (pwmDuty s))))
  /\ 0 <= pwmDuty s - IZR (Int_part (pwmDuty s)) < 1
  /\ evaluatePwm partialNum (set_pwmDuty (pwmDuty s + IZR k) s)
     = evaluatePwm partialNum s.
Proof.
  intros He. unfold evaluatePwm.
  change (pwmEnabled (set_pwmDuty ?d s)) with (pwmEnabled s).
  change (pwmDuty (set_pwmDuty ?d s)) with d.
  rewrite He. cbn [negb]. cbv zeta. rewrite !pwm_fold.
  split; [reflexivity|]. split.
  - destruct (base_Int_part (pwmDuty s)). lra.
  - replace (Int_part (pwmDuty s + IZR k)) with (Int_part (pwmDuty s) + k)%Z.
    + rewrite plus_IZR.
      replace (pwmDuty s + IZR k - (IZR (Int_part (pwmDuty s)) + IZR k))
        with (pwmDuty s - IZR (Int_part (pwmDuty s))) by ring.
      reflexivity.
    + apply Int_part_spec. rewrite plus_IZR.
      destruct (base_Int_part (pwmDuty s)). lra.
Qed.

Lemma pwm_duty_counts_modulo_one_witness :
  let s := set_pwmEnabled true (new true) in
  evaluatePwm 1 s
  = 2 / (1 * PI) * sin (1 * PI * (pwmDuty s - IZR (Int_part (pwmDuty s))))
  /\ 0 <= pwmDuty s - IZR (Int_part (pwmDuty s)) < 1
  /\ evaluatePwm 1 (set_pwmDuty (pwmDuty s + IZR (-2)) s) = evaluatePwm 1 s.
Proof.
  intros s. apply (pwm_duty_counts_modulo_one 1 s (-2)). reflexivity.
Defined.

End ModulatorFacts.

(* ===================================================================== *)
(** * MIDI notes to keyboard messages *)
(* ===================================================================== *)

Section MidiFacts.

Import Midi.
Local Open Scope R_scope.

Variable Math_random : nat -> R.
Variable add_sines : list R -> list R.

Local Abbreviation onmessage := (Processor.onmessage Math_random add_sines).
Local Abbreviation onmessages := (Processor.onmessages Math_random add_sines).

(** X25 -- the pitch ratio is equal temperament around A4: note 69 gives
    1, every ratio is positive, twelve notes up double it, and [k] notes
    up multiply it by [2^(k/12)]. *)
Theorem pitch_ratio_is_equal_temperament (note k : Z) :
  noteToPitchRatio 69 = 1
  /\ 0 < noteToPitchRatio note
  /\ noteToPitchRatio (note + 12) = 2 * noteToPitchRatio note
  /\ noteToPitchRatio (note + k)
     = noteToPitchRatio note * Rpower 2 (IZR k / 12).
Proof.
  unfold noteToPitchRatio, BASE_NOTE.
  split; [|split; [|split]].
  - replace ((69 - 69) / 12) with 0 by field. apply Rpower_O. lra.
  - unfold Rpower. apply exp_pos.
  - rewrite plus_IZR.
    replace ((IZR note + 12 - 69) / 12) with (1 + (IZR note - 69) / 12)
      by field.
    rewrite Rpower_plus, Rpower_1 by lra. reflexivity.
  - rewrite plus_IZR.
    replace ((IZR note + IZR k - 69) / 12)
      with ((IZR note - 69) / 12 + IZR k / 12) by field.
    apply Rpower_plus.
Qed.

Lemma noteToPitchRatio_pos (note : Z) : 0 < noteToPitchRatio note.
Proof. unfold noteToPitchRatio, Rpower. apply exp_pos. Qed.

Lemma onmessage_pitch_ratio (v : jsval) (s : Processor.t) :
  onmessage "set-keyboard-pitch-ratio" v s
  = Processor.set_needsImmediateEvent true
      (Processor.set_keyboardPitchRatio (number_or v 1)
         (Processor.set_prevKeyboardPitchRatio
            (Processor.keyboardPitchRatio s) s)).
Proof. reflexivity. Qed.

Lemma onmessage_gate (v : jsval) (s : Processor.t) :
  onmessage "set-keyboard-gate" v s
  = Processor.set_needsImmediateEvent true
      (Processor.set_keyboardGateOpen (js_Boolean v)
         (Processor.set_prevKeyboardGateOpen
            (Processor.keyboardGateOpen s) s)).
Proof. reflexivity. Qed.

(** X26 -- a note event reaches the processor: for a note-on or note-off
    that the channel filter lets through, with the worklet attached, once
    the posted messages are handled the gate is open exactly when a note
    is still held, the pitch ratio is that of the note on top of the stack
    (unchanged when none is held), a keyboard change is pending and the
    previous gate is the gate before the event; after a note-on the note
    is on top of the stack, after a note-off it is not on the stack. *)
Theorem note_event_reaches_processor
        (status note velocity : Z) (m : t) (s : Processor.t) :
  workletNode m = true -> on_channel status m ->
  note_on status velocity \/ note_off status velocity ->
  let m' := (handleMidiMessage status note velocity m).1 in
  let s' := onmessages (handleMidiMessage status note velocity m).2 s in
  (note_on status velocity -> last (midiNoteStack m') = Some note)
  /\ (note_off status velocity -> ~ In note (midiNoteStack m'))
  /\ Processor.keyboardGateOpen s'
     = match last (midiNoteStack m') with Some _ => true | None => false end
  /\ Processor.keyboardPitchRatio s'
     = match last (midiNoteStack m') with
       | Some top => noteToPitchRatio top
       | None => Processor.keyboardPitchRatio s
       end
  /\ Processor.needsImmediateEvent s' = true
  /\ Processor.prevKeyboardGateOpen s' = Processor.keyboardGateOpen s.
Proof.
  intros Hw Hch Hev m' s'.
  assert (Hfilter : match selectedMidiChannel m with
                    | Some selected => negb (Z.land status 15 =? selected)%Z
                    | None => false
                    end = false).
  { unfold on_channel in Hch. destruct (selectedMidiChannel m) as [c|];
      [|reflexivity]. rewrite Hch, Z.eqb_refl. reflexivity. }
  assert (Hupd : forall stack : list Z,
             let m1 := mk stack (selectedMidiChannel m) (workletNode m) in
             let s1 := onmessages (updateFromMidi m1) s in
             Processor.keyboardGateOpen s1 = match last stack with Some _ => true | None => false end
             /\ Processor.keyboardPitchRatio s1
                = match last stack with
                  | Some top => noteToPitchRatio top
                  | None => Processor.keyboardPitchRatio s
                  end
             /\ Processor.needsImmediateEvent s1 = true
             /\ Processor.prevKeyboardGateOpen s1 = Processor.keyboardGateOpen s).
  { intros stack m1 s1. subst m1 s1. unfold updateFromMidi, post.
    cbn [midiNoteStack workletNode]. rewrite Hw.
    destruct (last stack) as [top|].
    - unfold Processor.onmessages. cbn [fold_left fst snd].
      rewrite onmessage_pitch_ratio, onmessage_gate.
      assert (Hr : number_or (JNumber (noteToPitchRatio top)) 1
                   = noteToPitchRatio top).
      { unfold number_or. cbn [js_Number].
        destruct (Req_dec_T (noteToPitchRatio top) 0) as [E|_]; [|reflexivity].
        pose proof (noteToPitchRatio_pos top). lra. }
      repeat split; try reflexivity. exact Hr.
    - unfold Processor.onmessages. cbn [fold_left fst snd].
      rewrite onmessage_gate. repeat split; reflexivity. }
  subst m' s'. unfold handleMidiMessage. cbv zeta. rewrite Hfilter.
  destruct Hev as [[Hc Hv] | Hoff].
  - rewrite Hc. apply Z.ltb_lt in Hv. rewrite Hv. cbn [Z.eqb Pos.eqb andb fst snd].
    split; [intros _; cbn [midiNoteStack]; apply last_snoc|].
    split.
    { intros [Hc' | [_ Hv']]; [rewrite Hc in Hc'; discriminate|].
      apply Z.ltb_lt in Hv. lia. }
    apply Hupd.
  - assert (Hcond : ((Z.land status 240 =? 144)%Z && (0 <? velocity)%Z)
                    = false).
    { destruct Hoff as [Hc | [Hc Hv]].
      - rewrite Hc. reflexivity.
      - rewrite Hv, andb_false_r. reflexivity. }
    assert (Hcond2 : ((Z.land status 240 =? 128)%Z
                      || ((Z.land status 240 =? 144)%Z && (velocity =? 0)%Z))
                     = true).
    { destruct Hoff as [Hc | [Hc Hv]].
      - rewrite Hc. reflexivity.
      - rewrite Hc, Hv. reflexivity. }
    rewrite Hcond, Hcond2. cbn [fst snd].
    split.
    { intros [Hc Hv]. destruct Hoff as [Hc' | [_ Hv']];
        [rewrite Hc in Hc'; discriminate|lia]. }
    split.
    { intros _ Hin. cbn [midiNoteStack] in Hin.
      apply list_elem_of_In, list_elem_of_filter in Hin.
      destruct Hin as [Hne _]. apply Hne. reflexivity. }
    apply Hupd.
Qed.

End MidiFacts.

Lemma note_event_reaches_processor_witness :
  let m := Midi.mk [60%Z] None true in
  let s := Processor.new true in
  let m' := (Midi.handleMidiMessage 144 64 100 m).1 in
  let s' := Processor.onmessages (fun _ => 0.5%R) number_sines
              (Midi.handleMidiMessage 144 64 100 m).2 s in
  Processor.keyboardGateOpen s'
  = match last (Midi.midiNoteStack m') with Some _ => true | None => false end.
Proof.
  intros m s.
  assert (H1 : Midi.workletNode m = true) by reflexivity.
  assert (H2 : Midi.on_channel 144 m) by exact I.
  assert (H3 : Midi.note_on 144 100 \/ Midi.note_off 144 100)
    by (left; split; [reflexivity|lia]).
  exact (proj1 (proj2 (proj2
           (note_event_reaches_processor (fun _ => 0.5%R) number_sines
              144 64 100 m s H1 H2 H3)))).
Defined.

(* ===================================================================== *)
(** * The text polyfill *)
(* ===================================================================== *)

Section TextFacts.

Import Text.
Local Open Scope Z_scope.

Lemma land_255 (b : Z) : Z.land b 255 = b mod 256.
Proof. exact (Z.land_ones b 8 ltac:(lia)). Qed.

Lemma map_fixed {A : Type} (f : A -> A) (l : list A) :
  map f l = l <-> Forall (fun a => f a = a) l.
Proof.
  induction l as [|a l IH]; [split; [constructor|reflexivity]|].
  cbn [map]. split.
  - intros [= Ha Hl]. constructor; [exact Ha|]. apply IH, Hl.
  - intros H. apply Forall_cons in H. destruct H as [Ha Hl].
    rewrite Ha. f_equal. apply IH, Hl.
Qed.

(** X27 -- encoding then decoding: the code units come back modulo 256,
    so a string of code units comes back unchanged exactly when every code
    unit is below 256; the encoding has one byte per code unit. *)
Theorem decode_encode_keeps_latin1 (str : js_string) :
  Forall code_unit str ->
  decode (DBytes (encode str)) = map (fun c => c mod 256) str
  /\ (decode (DBytes (encode str)) = str <-> Forall (fun c => c < 256) str)
  /\ length (encode str) = length str
  /\ Forall byte (encode str).
Proof.
  intros Hstr.
  assert (Hdec : decode (DBytes (encode str)) = map (fun c => c mod 256) str).
  { unfold decode, encode, to_uint8. rewrite map_map. apply map_ext.
    intros c. rewrite land_255. apply Z.mod_mod. lia. }
  split; [exact Hdec|]. split; [|split].
  - rewrite Hdec. rewrite List.Forall_forall in Hstr. unfold code_unit in Hstr.
    split; intros H.
    + apply (proj1 (map_fixed _ _)) in H. rewrite List.Forall_forall in *.
      intros c Hc. rewrite <- (H c Hc). apply Z.mod_pos_bound. lia.
    + apply (proj2 (map_fixed _ _)). rewrite List.Forall_forall in *.
      intros c Hc. specialize (H c Hc). specialize (Hstr c Hc).
      apply Z.mod_small. lia.
  - apply length_map.
  - unfold encode, to_uint8, byte. rewrite List.Forall_map.
    rewrite List.Forall_forall. intros c _. apply Z.mod_pos_bound. lia.
Qed.

Lemma decode_encode_keeps_latin1_witness :
  decode (DBytes (encode [104; 233; 8364]))
  = map (fun c => c mod 256) [104; 233; 8364].
Proof.
  apply (decode_encode_keeps_latin1 [104; 233; 8364]).
  repeat constructor; unfold code_unit; lia.
Defined.

(** X28 -- decoding then encoding gives the bytes back, and every code
    unit of a decoded string is below 256. *)
Theorem encode_decode_bytes (bs : bytes) :
  Forall byte bs ->
  encode (decode (DBytes bs)) = bs
  /\ Forall (fun c => 0 <= c < 256) (decode (DBytes bs)).
Proof.
  intros Hbs. unfold encode, decode, to_uint8. split.
  - rewrite map_map. apply map_fixed. rewrite List.Forall_forall in *.
    intros b Hb. specialize (Hbs b Hb). unfold byte in Hbs.
    rewrite land_255, Z.mod_mod by lia. apply Z.mod_small. lia.
  - rewrite List.Forall_map, List.Forall_forall. intros b _.
    rewrite land_255. apply Z.mod_pos_bound. lia.
Qed.

Lemma encode_decode_bytes_witness :
  encode (decode (DBytes [0; 127; 255])) = [0; 127; 255].
Proof.
  apply (encode_decode_bytes [0; 127; 255]).
  repeat constructor; unfold byte; lia.
Defined.

End TextFacts.

(* ===================================================================== *)
(** * Examples of the properties above *)
(* ===================================================================== *)


Lemma same_type_last_write_wins_witness :
  Processor.onmessage (fun _ => 0.5%R) number_sines "set-base-freq"
    (JNumber 220)
    (Processor.onmessage (fun _ => 0.5%R) number_sines "set-base-freq"
       (JNumber 440) (Processor.new true))
  = Processor.onmessage (fun _ => 0.5%R) number_sines "set-base-freq"
      (JNumber 220) (Processor.new true).
Proof.
  apply (same_type_last_write_wins (fun _ => 0.5%R) number_sines
           "set-base-freq" (JNumber 440) (JNumber 220) (Processor.new true)).
  cbn. left. reflexivity.
Defined.

Lemma different_types_commute_witness :
  Processor.onmessage (fun _ => 0.5%R) number_sines "set-base-freq"
    (JNumber 220)
    (Processor.onmessage (fun _ => 0.5%R) number_sines "set-comb-enabled"
       (JBool true) (Processor.new true))
  = Processor.onmessage (fun _ => 0.5%R) number_sines "set-comb-enabled"
      (JBool true)
      (Processor.onmessage (fun _ => 0.5%R) number_sines "set-base-freq"
         (JNumber 220) (Processor.new true)).
Proof.
  apply (different_types_commute (fun _ => 0.5%R) number_sines
           "set-base-freq" "set-comb-enabled" (JNumber 220) (JBool true)
           (Processor.new true)).
  - cbn. left. reflexivity.
  - cbn. do 14 right. left. reflexivity.
  - discriminate.
Defined.




Lemma cursors_ahead_of_block_end_witness :
  Forall (fun c => match c with
                   | Some l => (0 + Z.of_nat 128 < l
                                <= 0 + Z.of_nat 128 + Processor.EVENT_INTERVAL)%Z
                   | None => False
                   end)
         (Processor.lastAmpEventSample
            (Processor.process 48000 Rpower (fun _ => 0.5%R) true 128 0
                               started_state)
          ++ Processor.lastFreqEventSample
               (Processor.process 48000 Rpower (fun _ => 0.5%R) true 128 0
                                  started_state)).
Proof.
  assert (H1 : Processor.ready started_state = true) by reflexivity.
  assert (H2 : Processor.started started_state = true) by reflexivity.
  assert (H3 : Processor.allocated started_state)
    by (repeat split; vm_compute; reflexivity).
  apply (cursors_ahead_of_block_end 48000 Rpower (fun _ => 0.5%R) 128 0
                                    started_state H1 H2 H3).
  intros _. vm_compute. repeat constructor.
Defined.



Lemma started_processor_is_allocated_witness :
  well_allocated
    (run_inputs 48000 Rpower (fun _ => 0.5%R) number_sines
       [Message "start" JUndefined; Block true 128 0] (Processor.new true)).
Proof.
  assert (H : length (number_sines (replicate Processor.NUM_PARTIALS 0%R))
              = Processor.NUM_PARTIALS) by reflexivity.
  exact (proj1 (started_processor_is_allocated
                  48000 Rpower (fun _ => 0.5%R) number_sines true
                  [Message "start" JUndefined; Block true 128 0] H)).
Defined.

Lemma random_values_stay_in_range_witness :
  random_ok
    (run_inputs 48000 Rpower (fun _ => 0.5%R) number_sines
       [Message "start" JUndefined; Block true 128 0] (Processor.new true)).
Proof.
  apply (random_values_stay_in_range
           48000 Rpower (fun _ => 0.5%R) number_sines true).
  intros n. lra.
Defined.

